(** * landlab.graph.voronoi.voronoi_to_graph

    A shallow embedding of [VoronoiDelaunay] and [VoronoiDelaunayToGraph]
    (landlab/graph/voronoi/voronoi_to_graph.py): the xarray [Dataset] that
    holds the mesh, the numpy operations the module performs on it, the
    generic removal routine [drop_element] and the reduction pipeline that
    [__init__] runs. *)

From Stdlib Require Import ZArith String Ascii PrimFloat Uint63 Lia.
From stdpp Require Import base list sorting strings.

Local Open Scope Z_scope.

(** ** Python exceptions *)

Inductive exn := IndexError | KeyError | AttributeError | ValueError.

Inductive result (A : Type) :=
| Ok (a : A)
| Raise (e : exn).
Arguments Ok {A} a.
Arguments Raise {A} e.

#[global] Instance result_ret : MRet result := @Ok.
#[global] Instance result_bind : MBind result :=
  λ A B f r, match r with Ok a => f a | Raise e => Raise e end.

#[global] Instance result_fmap : FMap result :=
  λ A B f r, match r with Ok a => Ok (f a) | Raise e => Raise e end.

Fixpoint mapR {A B} (f : A → result B) (l : list A) : result (list B) :=
  match l with
  | [] => Ok []
  | a :: l => b ← f a; bs ← mapR f l; Ok (b :: bs)
  end.

Definition is_ok {A} (r : result A) : Prop := ∃ a, r = Ok a.

(** ** numpy arrays

    An array with at least one axis is kept as the list of its entries along
    the leading axis ([rows]); each row is the C-order flattening of the
    trailing axes, whose lengths are [tail].  A one-dimensional array has
    [tail = []] and rows of one element.  Integer arrays are [int64]; the
    module only ever subtracts one from an element that is larger than some
    id, or stores [-1], so no operation below can leave the [int64] range and
    the elements are modelled as [Z]. *)

Record ndarray (A : Type) := NdArray { tail : list nat; rows : list (list A) }.
Arguments NdArray {A} tail rows.
Arguments tail {A} _.
Arguments rows {A} _.

Definition shape {A} (a : ndarray A) : list nat := length (rows a) :: tail a.

(** [a.reshape((-1,))] *)
Definition ravel {A} (a : ndarray A) : list A := concat (rows a).

(** A one-dimensional array from its elements, and a two-dimensional array of
    the given width from its rows. *)
Definition array1 {A} (l : list A) : ndarray A := NdArray [] ((λ x, [x]) <$> l).
Definition array2 {A} (w : nat) (l : list (list A)) : ndarray A := NdArray [w] l.

(** An element-wise update through the flat view [a.reshape((-1,))], as done
    by a masked assignment [array[mask] = v] or [array[mask] -= 1] whose mask
    is itself computed element-wise from [array]. *)
Definition ndarray_map {A} (f : A → A) (a : ndarray A) : ndarray A :=
  NdArray (tail a) ((λ row : list A, f <$> row) <$> rows a).

(** [xs[mask]] for a boolean mask over the leading axis. *)
Fixpoint compress {X} (mask : list bool) (xs : list X) : list X :=
  match mask, xs with
  | b :: mask, x :: xs => if b then x :: compress mask xs else compress mask xs
  | _, _ => []
  end.

Definition getitem_mask {A} (a : ndarray A) (mask : list bool) : result (ndarray A) :=
  if decide (length mask = length (rows a))
  then Ok (NdArray (tail a) (compress mask (rows a)))
  else Raise IndexError.

(** An integer index into an axis of length [n]: negative indices count from
    the end, anything outside [-n, n) raises [IndexError]. *)
Definition normalize_index (n : nat) (i : Z) : result nat :=
  if decide (0 ≤ i < Z.of_nat n) then Ok (Z.to_nat i)
  else if decide (- Z.of_nat n ≤ i < 0) then Ok (Z.to_nat (i + Z.of_nat n))
  else Raise IndexError.

(** [mask[ids] = False] *)
Definition setitem_false (mask : list bool) (ids : list Z) : result (list bool) :=
  idx ← mapR (normalize_index (length mask)) ids;
  Ok (foldl (λ m i, <[i:=false]> m) mask idx).

(** [np.where(mask)[0]] *)
Fixpoint where_from (i : Z) (mask : list bool) : list Z :=
  match mask with
  | [] => []
  | b :: mask => if b then i :: where_from (i + 1) mask else where_from (i + 1) mask
  end.
Definition np_where (mask : list bool) : list Z := where_from 0 mask.

(** [np.arange(n)] *)
Definition arange (n : nat) : list Z := Z.of_nat <$> seq 0 n.

(** Element-wise binary operation on two one-dimensional arrays, with numpy's
    broadcasting of a length-one operand. *)
Definition broadcast2 {A B C} (f : A → B → C) (xs : list A) (ys : list B)
  : result (list C) :=
  if decide (length xs = length ys) then Ok (zip_with f xs ys)
  else match xs, ys with
       | [x], _ => Ok (f x <$> ys)
       | _, [y] => Ok ((λ x, f x y) <$> xs)
       | _, _ => Raise ValueError
       end.

(** Conversion of an [int64] to [float64], used when numpy compares a float
    array with integer ids. *)
Definition float_of_Z (z : Z) : float :=
  if decide (z < 0) then PrimFloat.opp (PrimFloat.of_uint63 (Uint63.of_Z (- z)))
  else PrimFloat.of_uint63 (Uint63.of_Z z).

(** The data of a variable: an [int64] or a [float64] array. *)
Inductive values :=
| Ints (a : ndarray Z)
| Floats (a : ndarray float).

Definition values_shape (v : values) : list nat :=
  match v with Ints a => shape a | Floats a => shape a end.

Definition values_getitem_mask (v : values) (mask : list bool) : result values :=
  match v with
  | Ints a => Ints <$> getitem_mask a mask
  | Floats a => Floats <$> getitem_mask a mask
  end.

Definition values_len (v : values) : nat :=
  match v with Ints a => length (rows a) | Floats a => length (rows a) end.

(** ** xarray: variables, data arrays and the dataset

    A [Dataset] keeps its variables in an insertion-ordered dictionary, here
    an association list with distinct keys, together with the set of names
    that are coordinates. *)

Fixpoint dict_get {V} (k : string) (d : list (string * V)) : option V :=
  match d with
  | [] => None
  | (k', v) :: d => if decide (k = k') then Some v else dict_get k d
  end.

(** [d[k] = v]: an existing key keeps its place, a new key goes last. *)
Fixpoint dict_set {V} (k : string) (v : V) (d : list (string * V)) : list (string * V) :=
  match d with
  | [] => [(k, v)]
  | (k', v') :: d => if decide (k = k') then (k, v) :: d else (k', v') :: dict_set k v d
  end.

Definition dict_keys {V} (d : list (string * V)) : list string := fst <$> d.

Record xvar := XVar { dims : list string; data : values }.

Record DataArray := MkDataArray {
  da_data : values;
  da_dims : list string;
  da_coords : list (string * xvar)
}.

Record Dataset := MkDataset {
  variables : list (string * xvar);
  coord_names : list string
}.

(** The length of every named axis of a variable, and of the dataset. *)
Definition var_sizes (v : xvar) : list (string * nat) :=
  zip (dims v) (values_shape (data v)).

Definition sizes (vars : list (string * xvar)) : list (string * nat) :=
  vars ≫= (λ nv, var_sizes nv.2).

(** A variable names each of its axes, and an axis has one length throughout
    the dataset; xarray refuses ([ValueError]) to build anything else. *)
Definition var_ndim_ok (v : xvar) : bool :=
  bool_decide (length (dims v) = length (values_shape (data v))).

Definition sizes_agree (sz : list (string * nat)) : bool :=
  forallb (λ dn, forallb (λ dm,
    bool_decide (dn.1 = dm.1 → dn.2 = dm.2)) sz) sz.

Definition consistent (vars : list (string * xvar)) : bool :=
  forallb (λ nv, var_ndim_ok nv.2) vars && sizes_agree (sizes vars).

(** [ds.dims[d]] *)
Definition ds_dim (ds : Dataset) (d : string) : result nat :=
  match dict_get d (sizes (variables ds)) with
  | Some n => Ok n
  | None => Raise KeyError
  end.

(** [ds[name].values] *)
Definition ds_values (ds : Dataset) (name : string) : result values :=
  match dict_get name (variables ds) with
  | Some v => Ok (data v)
  | None => Raise KeyError
  end.

(** [ds.drop(names)] *)
Definition ds_drop (names : list string) (ds : Dataset) : result Dataset :=
  if decide (Forall (λ n, n ∈ dict_keys (variables ds)) names) then
    Ok (MkDataset
          (filter (λ nv, nv.1 ∉ names) (variables ds))
          (filter (λ c, c ∉ names) (coord_names ds)))
  else Raise ValueError.

(** [ds.update(other)] for a dictionary of data arrays: the coordinates of
    each array and the array itself are stored under their names; a variable
    named like an axis of the dataset is a coordinate. *)
Definition add_dataarray (vars : list (string * xvar)) (item : string * DataArray)
  : list (string * xvar) :=
  let vars := foldl (λ vs cv, dict_set cv.1 cv.2 vs) vars (da_coords item.2) in
  dict_set item.1 (XVar (da_dims item.2) (da_data item.2)) vars.

Definition ds_update (other : list (string * DataArray)) (ds : Dataset) : result Dataset :=
  let vars := foldl add_dataarray (variables ds) other in
  if consistent vars then
    let explicit := other ≫= (λ item, dict_keys (da_coords item.2)) in
    let axes := filter (λ n, n ∈ dict_keys (sizes vars)) (dict_keys vars) in
    Ok (MkDataset vars
          (foldl (λ cs c, if decide (c ∈ cs) then cs else cs ++ [c])
                 (coord_names ds) (explicit ++ axes)))
  else Raise ValueError.

(** [xr.Dataset(data_vars)] *)
Definition new_dataset (data_vars : list (string * DataArray)) : result Dataset :=
  ds_update data_vars (MkDataset [] []).

(** ** The six element kinds and the naming convention of the arrays *)

Inductive kind := node | corner | link | face | patch | cell.

#[global] Instance kind_eq_dec : EqDecision kind.
Proof. solve_decision. Defined.

Definition kind_name (k : kind) : string :=
  match k with
  | node => "node" | corner => "corner" | link => "link"
  | face => "face" | patch => "patch" | cell => "cell"
  end.

Definition starts_with (p s : string) : bool := String.prefix p s.

Definition ends_with (p s : string) : bool :=
  let n := String.length s in
  let m := String.length p in
  (m <=? n)%nat && String.eqb (String.substring (n - m) m s) p.

Definition newline : string := String (ascii_of_nat 10) EmptyString.

(** [re.compile("^{at}(s)?_at_")], for a patch [re.compile("^{at}(es)?_at_")],
    applied with [search]. *)
Definition prefix_search (at_ : kind) (name : string) : bool :=
  let plural := if decide (at_ = patch) then "es" else "s" in
  starts_with (kind_name at_ +:+ "_at_") name
  || starts_with (kind_name at_ +:+ plural +:+ "_at_") name.

(** [re.compile("at_{at}$")] applied with [search]; [$] also matches just
    before a final newline. *)
Definition suffix_search (at_ : kind) (name : string) : bool :=
  ends_with ("at_" +:+ kind_name at_) name
  || ends_with ("at_" +:+ kind_name at_ +:+ newline) name.

(** ** VoronoiDelaunayToGraph.drop_element *)

(** [array[np.in1d(array, dropped_ids)] = -1] *)
Definition mark_dropped (dropped_ids : list Z) (v : Z) : Z :=
  if decide (v ∈ dropped_ids) then -1 else v.

(** [array[array > id_] -= 1] *)
Definition shift_down (id_ : Z) (v : Z) : Z :=
  if decide (v > id_) then v - 1 else v.

Definition mark_dropped_float (dropped_ids : list Z) (v : float) : float :=
  if existsb (λ i, PrimFloat.eqb v (float_of_Z i)) dropped_ids
  then float_of_Z (-1) else v.

Definition shift_down_float (id_ : Z) (v : float) : float :=
  if PrimFloat.ltb (float_of_Z id_) v then PrimFloat.sub v (float_of_Z 1) else v.

(** The body of the last loop of [drop_element] for one matching variable:
    mark the dropped ids, then walk the sorted ids from the largest down. *)
Definition renumber_ints (dropped_ids : list Z) (array : ndarray Z) : ndarray Z :=
  let array := ndarray_map (mark_dropped dropped_ids) array in
  foldl (λ array id_, ndarray_map (shift_down id_) array) array (reverse dropped_ids).

Definition renumber_floats (dropped_ids : list Z) (array : ndarray float) : ndarray float :=
  let array := ndarray_map (mark_dropped_float dropped_ids) array in
  foldl (λ array id_, ndarray_map (shift_down_float id_) array) array (reverse dropped_ids).

Definition renumber (dropped_ids : list Z) (v : values) : values :=
  match v with
  | Ints a => Ints (renumber_ints dropped_ids a)
  | Floats a => Floats (renumber_floats dropped_ids a)
  end.

Definition x_of (at_ : kind) : string := "x_of_" +:+ kind_name at_.
Definition y_of (at_ : kind) : string := "y_of_" +:+ kind_name at_.

(** The loop over [self._mesh.variables.items()] that collects, in [at_], the
    variables whose name ends in [at_<kind>], cut down to the kept rows. *)
Fixpoint keep_rows (at_ : kind) (is_a_keeper : list bool)
    (vars : list (string * xvar)) (acc : list (string * DataArray))
  : result (list (string * DataArray)) :=
  match vars with
  | [] => Ok acc
  | (name, var) :: vars =>
      if suffix_search at_ name then
        v ← values_getitem_mask (data var) is_a_keeper;
        keep_rows at_ is_a_keeper vars (dict_set name (MkDataArray v (dims var) []) acc)
      else keep_rows at_ is_a_keeper vars acc
  end.

(** The loop that rewrites, in place, the variables whose name starts with
    [<kind>_at_] or its plural. *)
Definition renumber_refs (at_ : kind) (dropped_ids : list Z)
    (vars : list (string * xvar)) : list (string * xvar) :=
  (λ nv, if prefix_search at_ nv.1
         then (nv.1, XVar (dims nv.2) (renumber dropped_ids (data nv.2)))
         else nv) <$> vars.

Definition drop_element (ids : list Z) (at_ : kind) (mesh : Dataset) : result Dataset :=
  let dropped_ids := merge_sort Z.le ids in
  n ← ds_dim mesh (kind_name at_);
  is_a_keeper ← setitem_false (replicate n true) dropped_ids;
  am ← (if decide (kind_name at_ ∈ coord_names mesh) then
          xs ← ds_values mesh (x_of at_);
          x ← values_getitem_mask xs is_a_keeper;
          ys ← ds_values mesh (y_of at_);
          y ← values_getitem_mask ys is_a_keeper;
          let data := arange (values_len x) in
          mesh ← ds_drop [x_of at_; y_of at_] mesh;
          Ok ([(kind_name at_,
                MkDataArray (Ints (array1 data)) [kind_name at_]
                  [(x_of at_, XVar [kind_name at_] x);
                   (y_of at_, XVar [kind_name at_] y)])], mesh)
        else Ok ([], mesh));
  at_vars ← keep_rows at_ is_a_keeper (variables am.2) am.1;
  mesh ← ds_drop (dict_keys at_vars) am.2;
  mesh ← ds_update at_vars mesh;
  Ok (MkDataset (renumber_refs at_ dropped_ids (variables mesh)) (coord_names mesh)).

(** ** Helpers of the repository that live outside this module *)

(** Modelled from the spec: [landlab.utils.jaggedarray] ([JaggedArray],
    [unravel]) is not part of the sources at hand.  Section 4.1: the
    variable-length rows are stored as a flat buffer plus an offset table, and
    exposed as a dense [count × max_width] matrix in which row [i] holds its
    entries in order at positions [0..len(row_i)-1] and the pad value after
    them; [max_width] is the largest row length. *)
Definition jagged_array (regions : list (list Z)) : list Z := concat regions.

Fixpoint jagged_offset_from (start : nat) (regions : list (list Z)) : list nat :=
  match regions with
  | [] => [start]
  | r :: regions => start :: jagged_offset_from (start + length r) regions
  end.
Definition jagged_offset (regions : list (list Z)) : list nat :=
  jagged_offset_from 0 regions.

Fixpoint np_diff (offset : list nat) : list nat :=
  match offset with
  | a :: (b :: _) as rest => (b - a)%nat :: np_diff rest
  | _ => []
  end.

Definition unravel (data : list Z) (offset : list nat) (pad : Z) : ndarray Z :=
  let n_cols := max_list (np_diff offset) in
  array2 n_cols
    (zip_with (λ start len,
                 take len (drop start data) ++ replicate (n_cols - len) pad)
              offset (np_diff offset)).

(** Modelled from the spec: [landlab.graph.sort.reverse_one_to_one] is not
    part of the sources at hand.  Section 4.3, step 2: the exact inverse of a
    one-to-one mapping.  Slot [c] of the result, for every id [c] up to the
    largest one that occurs, is the position at which [ids] holds [c], and
    the sentinel [-1] where no position does. *)
Definition index_of (c : Z) (ids : list Z) : Z :=
  match list_find (λ i, i = c) ids with
  | Some (n, _) => Z.of_nat n
  | None => -1
  end.

Definition reverse_one_to_one (ids : list Z) : list Z :=
  (λ c, index_of c ids) <$> arange (Z.to_nat (foldr Z.max (-1) ids + 1)).

(** Modelled from the spec: [landlab.graph.voronoi.voronoi.id_array_contains]
    is not part of the sources at hand.  Section 3: a row of a padded
    incidence array has its true degree in a parallel count array, and a cell
    "lists" a value when one of the entries within that degree equals it. *)
Definition id_array_contains (corners_at_cell : list (list Z))
    (n_corners_at_cell : list Z) (bad_val : Z) : list bool :=
  zip_with (λ row n, bool_decide (bad_val ∈ take (Z.to_nat n) row))
           corners_at_cell n_corners_at_cell.

(** ** More numpy *)

(** A two-dimensional integer array as its rows; in a mesh built by
    [VoronoiDelaunay] the incidence arrays are such arrays and [drop_element]
    keeps them so.  Other data is outside the model and reported as
    [ValueError]. *)
Definition int_rows (v : values) : result (list (list Z)) :=
  match v with
  | Ints (NdArray [_] rows) => Ok rows
  | _ => Raise ValueError
  end.

(** A one-dimensional integer array as its elements. *)
Definition int_elems (v : values) : result (list Z) :=
  match v with
  | Ints (NdArray [] rows) => Ok (concat rows)
  | _ => Raise ValueError
  end.

(** [a[idx]] for a list of integer indices into the leading axis. *)
Definition take_rows {X} (xs : list X) (idx : list Z) : result (list X) :=
  mapR (λ i, n ← normalize_index (length xs) i;
             match xs !! n with Some x => Ok x | None => Raise IndexError end) idx.

(** [a[:, 0]] *)
Definition column0 (rows : list (list Z)) : result (list Z) :=
  mapR (λ row, match row with x :: _ => Ok x | [] => Raise IndexError end) rows.

(** [np.argsort(keys)]: the positions of the keys in ascending order.  The
    default sort of numpy leaves the order of equal keys to the
    implementation; here they stay in their original order. *)
Definition key_le (a b : Z * Z) : Prop := a.1 ≤ b.1.
#[global] Instance key_le_dec a b : Decision (key_le a b).
Proof. unfold key_le. apply _. Defined.

Definition argsort (keys : list Z) : list Z :=
  snd <$> merge_sort key_le (zip keys (arange (length keys))).

(** [a.reshape((-1, 2))] of the flat data *)
Fixpoint reshape_pairs (flat : list Z) : result (list (list Z)) :=
  match flat with
  | [] => Ok []
  | a :: b :: flat => ps ← reshape_pairs flat; Ok ([a; b] :: ps)
  | [_] => Raise ValueError
  end.

(** ** VoronoiDelaunay

    [scipy.spatial.Delaunay] and [scipy.spatial.Voronoi] are the geometric
    primitive; the mesh is assembled from what they return. *)

Record Qhull := MkQhull {
  points : list (float * float);        (* voronoi.points *)
  vertices : list (float * float);      (* voronoi.vertices *)
  ridge_points : list (Z * Z);          (* voronoi.ridge_points *)
  ridge_vertices : list (Z * Z);        (* voronoi.ridge_vertices *)
  regions : list (list Z);              (* voronoi.regions *)
  point_region : list Z;                (* voronoi.point_region *)
  simplices : list (Z * Z * Z)          (* delaunay.simplices *)
}.

Definition pair_row (p : Z * Z) : list Z := [p.1; p.2].
Definition triple_row (t : Z * Z * Z) : list Z := [t.1.1; t.1.2; t.2].

Definition data_array (v : values) (dims : list string) : DataArray :=
  MkDataArray v dims [].

Definition _corners_at_cell (regions : list (list Z)) : ndarray Z :=
  unravel (jagged_array regions) (jagged_offset regions) (-1).

Definition VoronoiDelaunay (q : Qhull) : result Dataset :=
  mesh ← new_dataset
    [("node",
      MkDataArray (Ints (array1 (arange (length (points q))))) ["node"]
        [("x_of_node", XVar ["node"] (Floats (array1 (fst <$> points q))));
         ("y_of_node", XVar ["node"] (Floats (array1 (snd <$> points q))))]);
     ("corner",
      MkDataArray (Ints (array1 (arange (length (vertices q))))) ["corner"]
        [("x_of_corner", XVar ["corner"] (Floats (array1 (fst <$> vertices q))));
         ("y_of_corner", XVar ["corner"] (Floats (array1 (snd <$> vertices q))))])];
  ds_update
    [("nodes_at_link",
      data_array (Ints (array2 2 (pair_row <$> ridge_points q))) ["link"; "Two"]);
     ("nodes_at_patch",
      data_array (Ints (array2 3 (triple_row <$> simplices q))) ["patch"; "Three"]);
     ("corners_at_face",
      data_array (Ints (array2 2 (pair_row <$> ridge_vertices q))) ["face"; "Two"]);
     ("corners_at_cell",
      data_array (Ints (_corners_at_cell (regions q))) ["cell"; "max_corners_per_cell"]);
     ("n_corners_at_cell",
      data_array (Ints (array1 ((λ cell, Z.of_nat (length cell)) <$> regions q))) ["cell"]);
     ("nodes_at_face",
      data_array (Ints (array2 2 (pair_row <$> ridge_points q))) ["face"; "Two"]);
     ("cell_at_node",
      data_array (Ints (array1 (point_region q))) ["node"])]
    mesh.

(** ** VoronoiDelaunayToGraph *)

(** The instance attribute [_perimeter_links]: never assigned, or assigned a
    Python value, [None] or an array of node pairs. *)
Inductive attribute :=
| Unset
| Assigned (v : option (list (list Z))).

Record Graph := MkGraph {
  _mesh : Dataset;
  _perimeter_links : attribute
}.

Section VoronoiDelaunayToGraph.

(** Two helpers of [landlab.graph.sort] that are not part of the sources at
    hand.  [map_sorted_rolling_pairs sorted_pairs values pairs] looks up, for
    each row of [pairs], the pairs of consecutive entries among
    [sorted_pairs]; [pair_isin_sorted_list src_pairs pairs sorter] tells for
    each row of [pairs] whether it is one of [src_pairs]. *)
Variable map_sorted_rolling_pairs :
  list (list Z) → list Z → ndarray Z → result (ndarray Z).
Variable pair_isin_sorted_list :
  list (list Z) → list (list Z) → list Z → result (list bool).

Definition _links_at_patch (nodes_at_link nodes_at_patch : values)
  : result (ndarray Z) :=
  links ← int_rows nodes_at_link;
  keys ← column0 links;
  let link_at_nodes := argsort keys in
  sorted ← take_rows links link_at_nodes;
  match nodes_at_patch with
  | Ints pairs => map_sorted_rolling_pairs sorted link_at_nodes pairs
  | Floats _ => Raise ValueError
  end.

(** The read-only properties. *)
Definition corners_at_face (self : Graph) : result (list (list Z)) :=
  v ← ds_values (_mesh self) "corners_at_face"; int_rows v.
Definition corners_at_cell (self : Graph) : result (list (list Z)) :=
  v ← ds_values (_mesh self) "corners_at_cell"; int_rows v.
Definition n_corners_at_cell (self : Graph) : result (list Z) :=
  v ← ds_values (_mesh self) "n_corners_at_cell"; int_elems v.
Definition nodes_at_link (self : Graph) : result (list (list Z)) :=
  v ← ds_values (_mesh self) "nodes_at_link"; int_rows v.
Definition links_at_patch (self : Graph) : result (list (list Z)) :=
  v ← ds_values (_mesh self) "links_at_patch"; int_rows v.
Definition nodes_at_patch (self : Graph) : result (list (list Z)) :=
  v ← ds_values (_mesh self) "nodes_at_patch"; int_rows v.
Definition nodes_at_face (self : Graph) : result (list (list Z)) :=
  v ← ds_values (_mesh self) "nodes_at_face"; int_rows v.
Definition faces_at_cell (self : Graph) : result (list (list Z)) :=
  v ← ds_values (_mesh self) "faces_at_cell"; int_rows v.
Definition x_of_node (self : Graph) : result values :=
  ds_values (_mesh self) "x_of_node".
Definition y_of_node (self : Graph) : result values :=
  ds_values (_mesh self) "y_of_node".
Definition x_of_corner (self : Graph) : result values :=
  ds_values (_mesh self) "x_of_corner".
Definition y_of_corner (self : Graph) : result values :=
  ds_values (_mesh self) "y_of_corner".

(** [np.any(rows == v, axis=1)], [np.any(rows != v, axis=1)] and
    [np.all(rows >= 0, axis=1)] *)
Definition any_eq (v : Z) (rows : list (list Z)) : list bool :=
  (λ row : list Z, existsb (λ x, bool_decide (x = v)) row) <$> rows.
Definition any_ne (v : Z) (rows : list (list Z)) : list bool :=
  (λ row : list Z, existsb (λ x, bool_decide (x ≠ v)) row) <$> rows.
Definition all_ge0 (rows : list (list Z)) : list bool :=
  (λ row : list Z, forallb (λ x, bool_decide (x >= 0)) row) <$> rows.

Definition is_perimeter_face (self : Graph) : result (list bool) :=
  any_eq (-1) <$> corners_at_face self.

Definition is_perimeter_cell (self : Graph) : result (list bool) :=
  cac ← corners_at_cell self;
  n ← n_corners_at_cell self;
  let is_not_a_cell := id_array_contains cac n (-1) in
  n' ← n_corners_at_cell self;
  if decide (length is_not_a_cell = length n')
  then Ok (zip_with orb is_not_a_cell ((λ k, bool_decide (k < 3)) <$> n'))
  else Raise ValueError.

Definition is_perimeter_link (self : Graph) : result (list bool) :=
  match _perimeter_links self with
  | Unset => Raise AttributeError
  | Assigned (Some perimeter_links) =>
      links ← nodes_at_link self;
      keys ← column0 perimeter_links;
      pair_isin_sorted_list perimeter_links links (argsort keys)
  | Assigned None => is_perimeter_face self
  end.

Definition unbound_corners (self : Graph) : result (list Z) :=
  ipf ← is_perimeter_face self;
  ipl ← is_perimeter_link self;
  ipf' ← is_perimeter_face self;
  differ ← broadcast2 xorb ipl ipf';
  mask ← broadcast2 andb ipf differ;
  let faces_to_drop := np_where mask in
  caf ← corners_at_face self;
  picked ← take_rows caf faces_to_drop;
  let unbound_corners := concat picked in
  Ok (filter (λ c, c >= 0) unbound_corners).

Definition is_bound_corner (self : Graph) : result (list bool) :=
  n ← ds_dim (_mesh self) "corner";
  let corners := replicate n true in
  unbound ← unbound_corners self;
  setitem_false corners unbound.

(** [self.drop_element(ids, at=...)]: the routine applied to the mesh of the
    object. *)
Definition drop_from (ids : list Z) (at_ : kind) (self : Graph) : result Graph :=
  mesh ← drop_element ids at_ (_mesh self);
  Ok (MkGraph mesh (_perimeter_links self)).

Definition drop_corners (corners : list Z) (self : Graph) : result Graph :=
  (* Remove the corners *)
  self ← drop_from corners corner self;
  (* Remove bad links *)
  caf ← ds_values (_mesh self) "corners_at_face";
  caf ← int_rows caf;
  let is_a_link := any_ne (-1) caf in
  self ← drop_from (np_where (negb <$> is_a_link)) link self;
  (* Remove the bad patches *)
  lap ← ds_values (_mesh self) "links_at_patch";
  lap ← int_rows lap;
  let is_a_patch := all_ge0 lap in
  drop_from (np_where (negb <$> is_a_patch)) patch self.

Definition drop_perimeter_faces (self : Graph) : result Graph :=
  ipf ← is_perimeter_face self;
  drop_from (np_where ipf) face self.

Definition drop_perimeter_cells (self : Graph) : result Graph :=
  ipc ← is_perimeter_cell self;
  drop_from (np_where ipc) cell self.

(** [VoronoiDelaunayToGraph.__init__], in two parts: [assemble] is the body
    up to the three reduction calls, the mesh with its derived incidence
    arrays; [reduce] is the last three lines, the reduction.  With
    [perimeter_links = None] the attribute [_perimeter_links] is left
    unassigned. *)
Definition assemble (q : Qhull) (perimeter_links : option (list Z)) : result Graph :=
  mesh ← VoronoiDelaunay q;
  attr ← match perimeter_links with
         | Some flat => pl ← reshape_pairs flat; Ok (Assigned (Some pl))
         | None => Ok Unset
         end;
  nal ← ds_values mesh "nodes_at_link";
  nap ← ds_values mesh "nodes_at_patch";
  lap ← _links_at_patch nal nap;
  can ← ds_values mesh "cell_at_node";
  can ← int_elems can;
  mesh ← ds_update
    [("links_at_patch", data_array (Ints lap) ["patch"; "Three"]);
     ("node_at_cell", data_array (Ints (array1 (reverse_one_to_one can))) ["cell"])]
    mesh;
  caf ← ds_values mesh "corners_at_face";
  cac ← ds_values mesh "corners_at_cell";
  fac ← _links_at_patch caf cac;
  mesh ← ds_update
    [("faces_at_cell", data_array (Ints fac) ["cell"; "max_faces_per_cell"])]
    mesh;
  Ok (MkGraph mesh attr).

Definition reduce (self : Graph) : result Graph :=
  corners ← unbound_corners self;
  self ← drop_corners corners self;
  self ← drop_perimeter_faces self;
  drop_perimeter_cells self.

Definition VoronoiDelaunayToGraph (q : Qhull) (perimeter_links : option (list Z))
  : result Graph :=
  self ← assemble q perimeter_links;
  reduce self.

End VoronoiDelaunayToGraph.

(** ** Instances of the two lookups, and a small mesh

    Modelled from the spec: [map_sorted_rolling_pairs] and
    [pair_isin_sorted_list] of [landlab.graph.sort] are not part of the
    sources at hand.  Section 4.3, step 1: for each row and each pair of
    consecutive entries of the row (the last entry is followed by the first),
    find the element whose unordered pair matches; a pair that matches nothing
    is left at the sentinel here.  Section 3: a link is a perimeter link if it
    is one of the supplied node pairs.  The theorems of this file hold for any
    functions in their place; these two serve to run the pipeline. *)
Definition find_pair (sorted_pairs : list (list Z)) (values : list Z) (a b : Z) : Z :=
  match list_find (λ pv : list Z * Z, pv.1 = [a; b] ∨ pv.1 = [b; a])
                  (zip sorted_pairs values) with
  | Some (_, (_, v)) => v
  | None => -1
  end.

Definition rolling_pairs_lookup (sorted_pairs : list (list Z)) (values : list Z)
    (pairs : ndarray Z) : result (ndarray Z) :=
  Ok (NdArray (tail pairs)
        ((λ row : list Z,
            zip_with (find_pair sorted_pairs values) row (rotate 1 row))
         <$> rows pairs)).

Definition pair_in_list (src_pairs pairs : list (list Z)) (sorter : list Z)
  : result (list bool) :=
  Ok ((λ p : list Z, bool_decide (p ∈ src_pairs ∨ reverse p ∈ src_pairs)) <$> pairs).

(** Three nodes on the hull of a triangle and one node inside it: three
    patches, three corners (their circumcentres), six links and faces, and
    one region per node next to the empty region that [Voronoi] lists. *)
Definition triangle_with_centre : Qhull :=
  MkQhull
    [(0, 0); (4, 0); (2, 4); (2, 1)]%float
    [(2, -1.5); (3.5, 1.875); (0.5, 1.875)]%float
    [(0, 1); (1, 2); (0, 2); (0, 3); (1, 3); (2, 3)]
    [(-1, 0); (-1, 1); (-1, 2); (0, 2); (0, 1); (1, 2)]
    [[]; [-1; 0; 2]; [-1; 0; 1]; [-1; 1; 2]; [0; 1; 2]]
    [1; 2; 3; 4]
    [(0, 1, 3); (1, 2, 3); (0, 2, 3)].

Definition build (q : Qhull) (perimeter_links : option (list Z)) : result Graph :=
  VoronoiDelaunayToGraph rolling_pairs_lookup pair_in_list q perimeter_links.

Definition unreduced (q : Qhull) (perimeter_links : option (list Z)) : result Graph :=
  assemble rolling_pairs_lookup q perimeter_links.

(** ** Vocabulary of the statements *)

(** How many of the ids are strictly below [v]. *)
Definition count_below (ids : list Z) (v : Z) : Z :=
  Z.of_nat (length (filter (λ d, d < v) ids)).

(** What the renumbering loop does to one element. *)
Definition renumber_elem (dropped_ids : list Z) (v : Z) : Z :=
  foldl (λ v id_, shift_down id_ v) (mark_dropped dropped_ids v) (reverse dropped_ids).

(** [old] is a reference before the ids are dropped and [new] the same
    reference after: the sentinel if the element is gone, and otherwise, for a
    reference to an element, lowered by the number of dropped ids below it. *)
Definition renumbered (ids : list Z) (old new : Z) : Prop :=
  (old ∈ ids → new = -1) ∧
  (old ∉ ids → 0 ≤ old → new = old - count_below ids old).

(** The keep-mask over an index space of size [n]. *)
Definition keep_mask (n : nat) (ids : list Z) : list bool :=
  (λ i, bool_decide (i ∉ ids)) <$> arange n.

(** [v[mask]] when the mask has the length of the leading axis. *)
Definition compress_values (mask : list bool) (v : values) : values :=
  match v with
  | Ints a => Ints (NdArray (tail a) (compress mask (rows a)))
  | Floats a => Floats (NdArray (tail a) (compress mask (rows a)))
  end.

(** What [drop_element] does to the variable stored under [name]. *)
Definition update_var (at_ : kind) (dropped_ids : list Z) (mask : list bool)
    (name : string) (var : xvar) : xvar :=
  let kept := if suffix_search at_ name then compress_values mask (data var)
              else data var in
  XVar (dims var)
       (if prefix_search at_ name then renumber dropped_ids kept else kept).

Definition valid_ids (n : nat) (ids : list Z) : Prop :=
  NoDup ids ∧ Forall (λ i, 0 ≤ i < Z.of_nat n) ids.

Definition unique_keys {V} (d : list (string * V)) : Prop := NoDup (dict_keys d).

(** The position, among the kept elements, of element [c]: the number of
    kept ids below it. *)
Definition rank (ids : list Z) (c : nat) : nat :=
  length (filter (λ i, i ∉ ids) (arange c)).

(** A variable of the mesh read as the rows of a two-dimensional integer
    array, as the properties of the class do. *)
Definition rows_of (m : Dataset) (name : string) : result (list (list Z)) :=
  v ← ds_values m name; int_rows v.

(** A variable of the mesh read as a one-dimensional integer array. *)
Definition elems_of (m : Dataset) (name : string) : result (list Z) :=
  v ← ds_values m name; int_elems v.

(** The small mesh before its reduction, with all three hull links declared
    as the perimeter, and with only two of them. *)
Definition from_ok {A} (default : A) (r : result A) : A :=
  match r with Ok a => a | Raise _ => default end.

Definition empty_graph : Graph := MkGraph (MkDataset [] []) Unset.

Definition triangle_closed : Graph :=
  Eval vm_compute in
    from_ok empty_graph (unreduced triangle_with_centre (Some [0; 1; 1; 2; 2; 0])).

Definition triangle_open : Graph :=
  Eval vm_compute in
    from_ok empty_graph (unreduced triangle_with_centre (Some [0; 1; 1; 2])).

(** The variables of the mesh that [assemble] returns, in the order in which
    the dataset holds them; [lap] and [fac] are the two arrays that
    [map_sorted_rolling_pairs] gave. *)
Definition assembled_variables (q : Qhull) (lap fac : ndarray Z) : list (string * xvar) :=
  [("x_of_node", XVar ["node"] (Floats (array1 (fst <$> points q))));
   ("y_of_node", XVar ["node"] (Floats (array1 (snd <$> points q))));
   ("node", XVar ["node"] (Ints (array1 (arange (length (points q))))));
   ("x_of_corner", XVar ["corner"] (Floats (array1 (fst <$> vertices q))));
   ("y_of_corner", XVar ["corner"] (Floats (array1 (snd <$> vertices q))));
   ("corner", XVar ["corner"] (Ints (array1 (arange (length (vertices q))))));
   ("nodes_at_link", XVar ["link"; "Two"] (Ints (array2 2 (pair_row <$> ridge_points q))));
   ("nodes_at_patch",
    XVar ["patch"; "Three"] (Ints (array2 3 (triple_row <$> simplices q))));
   ("corners_at_face",
    XVar ["face"; "Two"] (Ints (array2 2 (pair_row <$> ridge_vertices q))));
   ("corners_at_cell",
    XVar ["cell"; "max_corners_per_cell"] (Ints (_corners_at_cell (regions q))));
   ("n_corners_at_cell",
    XVar ["cell"] (Ints (array1 ((λ cell, Z.of_nat (length cell)) <$> regions q))));
   ("nodes_at_face", XVar ["face"; "Two"] (Ints (array2 2 (pair_row <$> ridge_points q))));
   ("cell_at_node", XVar ["node"] (Ints (array1 (point_region q))));
   ("links_at_patch", XVar ["patch"; "Three"] (Ints lap));
   ("node_at_cell",
    XVar ["cell"] (Ints (array1 (reverse_one_to_one (point_region q)))));
   ("faces_at_cell", XVar ["cell"; "max_faces_per_cell"] (Ints fac))].

(** The variable named after a kind holds the ids [0..n-1]. *)
Definition id_array (m : Dataset) (k : kind) : Prop :=
  ∃ n, dict_get (kind_name k) (variables m)
       = Some (XVar [kind_name k] (Ints (array1 (arange n)))).


(** Two datasets that hold the same variables, in whatever order their
    dictionaries list them, and the same set of coordinate names. *)
Definition ds_equiv (m1 m2 : Dataset) : Prop :=
  variables m1 ≡ₚ variables m2 ∧ ∀ c, c ∈ coord_names m1 ↔ c ∈ coord_names m2.

(** Two runs end alike: with the same exception, or with results related by
    [R]. *)
Definition agree {A} (R : A → A → Prop) (r1 r2 : result A) : Prop :=
  match r1, r2 with
  | Ok a, Ok b => R a b
  | Raise e1, Raise e2 => e1 = e2
  | _, _ => False
  end.

(** The invariant of a mesh: distinct names, and one length per axis. *)
Definition well_formed (m : Dataset) : Prop :=
  unique_keys (variables m) ∧ consistent (variables m) = true.

(** The items that the loop of [drop_element] over the variables collects,
    and what [Dataset.update] stores for one item of a dictionary of data
    arrays. *)
Definition kept_item (mask : list bool) (nv : string * xvar)
  : result (string * DataArray) :=
  v ← values_getitem_mask (data nv.2) mask;
  Ok (nv.1, MkDataArray v (dims nv.2) []).

Definition kept_items (at_ : kind) (mask : list bool) (vars : list (string * xvar))
  : result (list (string * DataArray)) :=
  mapR (kept_item mask) (filter (λ nv, suffix_search at_ nv.1 = true) vars).

Definition stored (item : string * DataArray) : list (string * xvar) :=
  da_coords item.2 ++ [(item.1, XVar (da_dims item.2) (da_data item.2))].

(** Two objects that hold the same variables, whatever the order in which
    their datasets list them, and the same perimeter links; the first one
    well formed. *)
Definition same_content (g1 g2 : Graph) : Prop :=
  well_formed (_mesh g1) ∧ ds_equiv (_mesh g1) (_mesh g2) ∧
  _perimeter_links g1 = _perimeter_links g2.

(** Two objects all of whose arrays are equal, name by name. *)
Definition same_arrays (g1 g2 : Graph) : Prop :=
  ∀ name, ds_values (_mesh g1) name = ds_values (_mesh g2) name.

(** The object with the variables of its dataset listed in reverse. *)
Definition reversed (g : Graph) : Graph :=
  MkGraph (MkDataset (reverse (variables (_mesh g))) (coord_names (_mesh g)))
          (_perimeter_links g).

(** The variables of the mesh that [VoronoiDelaunay] builds, in the order in
    which the dataset holds them. *)
Definition assembled_prefix (q : Qhull) : list (string * xvar) :=
  [("x_of_node", XVar ["node"] (Floats (array1 (fst <$> points q))));
   ("y_of_node", XVar ["node"] (Floats (array1 (snd <$> points q))));
   ("node", XVar ["node"] (Ints (array1 (arange (length (points q))))));
   ("x_of_corner", XVar ["corner"] (Floats (array1 (fst <$> vertices q))));
   ("y_of_corner", XVar ["corner"] (Floats (array1 (snd <$> vertices q))));
   ("corner", XVar ["corner"] (Ints (array1 (arange (length (vertices q))))));
   ("nodes_at_link", XVar ["link"; "Two"] (Ints (array2 2 (pair_row <$> ridge_points q))));
   ("nodes_at_patch",
    XVar ["patch"; "Three"] (Ints (array2 3 (triple_row <$> simplices q))));
   ("corners_at_face",
    XVar ["face"; "Two"] (Ints (array2 2 (pair_row <$> ridge_vertices q))));
   ("corners_at_cell",
    XVar ["cell"; "max_corners_per_cell"] (Ints (_corners_at_cell (regions q))));
   ("n_corners_at_cell",
    XVar ["cell"] (Ints (array1 ((λ cell, Z.of_nat (length cell)) <$> regions q))));
   ("nodes_at_face", XVar ["face"; "Two"] (Ints (array2 2 (pair_row <$> ridge_points q))));
   ("cell_at_node", XVar ["node"] (Ints (array1 (point_region q))))].

(** * Properties *)

(** * Element-wise view of the renumbering loop *)

Lemma ndarray_map_compose {A} (f g : A → A) (a : ndarray A) :
  ndarray_map f (ndarray_map g a) = ndarray_map (f ∘ g) a.
Proof.
  unfold ndarray_map; simpl. f_equal.
  rewrite <- list_fmap_compose. apply list_fmap_ext. intros _ row _.
  simpl. by rewrite <- list_fmap_compose.
Qed.

Lemma foldl_ndarray_map {A} (step : Z → A → A) (l : list Z) (a : ndarray A) :
  foldl (λ array id_, ndarray_map (step id_) array) a l
  = ndarray_map (λ v, foldl (λ v id_, step id_ v) v l) a.
Proof.
  revert a. induction l as [|d l IH]; intros a; simpl.
  - destruct a as [t r]. unfold ndarray_map; simpl. f_equal.
    rewrite <- (list_fmap_id r) at 1. apply list_fmap_ext. intros _ row _.
    by rewrite list_fmap_id.
  - by rewrite IH, ndarray_map_compose.
Qed.

Lemma renumber_ints_elem (dropped_ids : list Z) (a : ndarray Z) :
  renumber_ints dropped_ids a = ndarray_map (renumber_elem dropped_ids) a.
Proof.
  unfold renumber_ints. by rewrite foldl_ndarray_map, ndarray_map_compose.
Qed.

(** Walking a strictly descending list of ids. *)
Lemma shift_down_descending (l : list Z) (v : Z) :
  StronglySorted (λ a b, b < a) l → v ∉ l →
  foldl (λ v id_, shift_down id_ v) v l = v - count_below l v.
Proof.
  revert v. induction l as [|d l IH]; intros v Hs Hv; simpl.
  - unfold count_below; simpl. lia.
  - apply StronglySorted_inv in Hs as [Hs Hd].
    apply not_elem_of_cons in Hv as [Hvd Hv].
    unfold shift_down at 2. unfold count_below. rewrite filter_cons.
    destruct (decide (v > d)) as [Hgt|Hle].
    + rewrite decide_True by lia. simpl length.
      rewrite IH; [|done|].
      * unfold count_below.
        assert (Hall : ∀ w, d ≤ w → filter (λ x, x < w) l = l).
        { intros w Hw. clear -Hd Hw. induction Hd as [|x l Hx _ IHl]; [done|].
          rewrite filter_cons, decide_True by lia. by rewrite IHl. }
        rewrite !Hall by lia. lia.
      * intros Hin. rewrite Forall_forall in Hd. specialize (Hd _ Hin). lia.
    + rewrite decide_False by lia. by rewrite IH.
Qed.

Lemma shift_down_sentinel (l : list Z) :
  Forall (λ d, 0 ≤ d) l → foldl (λ v id_, shift_down id_ v) (-1) l = -1.
Proof.
  induction 1 as [|d l Hd _ IH]; simpl; [done|].
  unfold shift_down at 2. by rewrite decide_False by lia.
Qed.

Lemma count_below_perm (l k : list Z) (v : Z) :
  l ≡ₚ k → count_below l v = count_below k v.
Proof. intros H. unfold count_below. by rewrite H. Qed.

Lemma sorted_ids_descending (ids : list Z) :
  NoDup ids → StronglySorted (λ a b, b < a) (reverse (merge_sort Z.le ids)).
Proof.
  intros Hnd.
  assert (Hs : StronglySorted Z.le (merge_sort Z.le ids))
    by apply (StronglySorted_merge_sort _).
  assert (Hn : NoDup (merge_sort Z.le ids))
    by (by rewrite merge_sort_Permutation).
  induction Hs as [|x l Hs IH Hx]; [constructor|].
  apply NoDup_cons in Hn as [Hxl Hn].
  rewrite reverse_cons. apply StronglySorted_app. split_and!.
  - intros a b Ha Hb. apply list_elem_of_singleton in Hb as ->.
    rewrite elem_of_reverse in Ha. rewrite Forall_forall in Hx.
    specialize (Hx _ Ha). assert (a ≠ x) by (intros ->; done). lia.
  - by apply IH.
  - repeat constructor.
Qed.

Theorem renumber_elem_spec (ids : list Z) (v : Z) :
  NoDup ids → Forall (λ d, 0 ≤ d) ids →
  renumber_elem (merge_sort Z.le ids) v
  = if decide (v ∈ ids) then -1 else v - count_below ids v.
Proof.
  intros Hnd Hpos. unfold renumber_elem, mark_dropped.
  assert (Hp : merge_sort Z.le ids ≡ₚ ids) by apply merge_sort_Permutation.
  destruct (decide (v ∈ ids)) as [Hin|Hout].
  - rewrite decide_True by (by rewrite Hp).
    apply shift_down_sentinel. by rewrite reverse_Permutation, Hp.
  - rewrite decide_False by (by rewrite Hp).
    rewrite shift_down_descending.
    + f_equal. apply count_below_perm. by rewrite reverse_Permutation.
    + by apply sorted_ids_descending.
    + by rewrite elem_of_reverse, Hp.
Qed.

(** * The result monad *)

Lemma bind_Ok {A B} (r : result A) (f : A → result B) (b : B) :
  r ≫= f = Ok b → ∃ a, r = Ok a ∧ f a = Ok b.
Proof. destruct r as [a|e]; simpl; [eauto|discriminate]. Qed.

Lemma fmap_Ok {A B} (r : result A) (f : A → B) (b : B) :
  f <$> r = Ok b → ∃ a, r = Ok a ∧ b = f a.
Proof. destruct r as [a|e]; simpl; intros [= <-]; eauto. Qed.

(** * Dictionaries *)

Section dict.
Context {V : Type}.
Implicit Types (d : list (string * V)) (k n : string) (v : V).

Lemma dict_get_None d n : dict_get n d = None ↔ n ∉ dict_keys d.
Proof.
  induction d as [|[k v] d IH]; simpl.
  - split; [intros _; apply not_elem_of_nil|done].
  - rewrite not_elem_of_cons. destruct (decide (n = k)); [|tauto].
    split; [done|tauto].
Qed.

Lemma dict_get_Some_key d n v : dict_get n d = Some v → n ∈ dict_keys d.
Proof.
  intros H. destruct (decide (n ∈ dict_keys d)) as [|Hn]; [done|].
  apply dict_get_None in Hn. congruence.
Qed.

Lemma unique_keys_cons d k v :
  unique_keys ((k, v) :: d) ↔ (k ∉ dict_keys d) ∧ unique_keys d.
Proof. apply NoDup_cons. Qed.

Lemma dict_get_set d k v n :
  dict_get n (dict_set k v d) = if decide (n = k) then Some v else dict_get n d.
Proof.
  induction d as [|[k' v'] d IH]; simpl.
  - done.
  - destruct (decide (k = k')) as [->|Hk]; simpl.
    + by destruct (decide (n = k')).
    + destruct (decide (n = k')) as [->|]; [by rewrite decide_False|done].
Qed.

Lemma dict_keys_set d k v :
  dict_keys (dict_set k v d)
  = if decide (k ∈ dict_keys d) then dict_keys d else dict_keys d ++ [k].
Proof.
  induction d as [|[k' v'] d IH]; simpl.
  - done.
  - destruct (decide (k = k')) as [->|Hk]; simpl.
    + rewrite decide_True; [done|left].
    + rewrite IH. destruct (decide (k ∈ dict_keys d)).
      * rewrite decide_True; [done|by right].
      * rewrite decide_False; [done|]. rewrite not_elem_of_cons. done.
Qed.

Lemma unique_keys_set d k v : unique_keys d → unique_keys (dict_set k v d).
Proof.
  unfold unique_keys. rewrite dict_keys_set. intros Hd.
  destruct (decide (k ∈ dict_keys d)); [done|].
  apply NoDup_app. split_and!; [done| |apply NoDup_singleton].
  intros x Hx Hx'. apply list_elem_of_singleton in Hx' as ->. done.
Qed.

Lemma dict_get_filter d (names : list string) n :
  dict_get n (filter (λ nv : string * V, nv.1 ∉ names) d)
  = if decide (n ∈ names) then None else dict_get n d.
Proof.
  induction d as [|[k v] d IH]; simpl.
  - by destruct (decide _).
  - rewrite filter_cons. simpl. destruct (decide (k ∉ names)) as [Hk|Hk]; simpl.
    + destruct (decide (n = k)) as [->|]; [by rewrite decide_False|done].
    + rewrite IH. destruct (decide (n ∈ names)); [done|].
      destruct (decide (n = k)) as [->|]; [|done]. by destruct Hk.
Qed.

Lemma unique_keys_filter d (P : string * V → Prop) `{∀ x, Decision (P x)} :
  unique_keys d → unique_keys (filter P d).
Proof.
  unfold unique_keys, dict_keys. induction d as [|[k v] d IH]; simpl; [done|].
  rewrite NoDup_cons. intros [Hk Hd]. rewrite filter_cons.
  destruct (decide (P (k, v))); simpl; [|auto].
  apply NoDup_cons. split; [|auto]. intros Hin. apply Hk.
  apply list_elem_of_fmap in Hin as (x & -> & Hx).
  apply list_elem_of_filter in Hx as [_ Hx].
  apply list_elem_of_fmap. eauto.
Qed.

Lemma dict_get_map_values d (f : string → V → V) n :
  dict_get n ((λ nv : string * V, (nv.1, f nv.1 nv.2)) <$> d) = f n <$> dict_get n d.
Proof.
  induction d as [|[k v] d IH]; simpl; [done|].
  destruct (decide (n = k)) as [->|]; [done|apply IH].
Qed.

Lemma dict_keys_map_values d (f : string → V → V) :
  dict_keys ((λ nv : string * V, (nv.1, f nv.1 nv.2)) <$> d) = dict_keys d.
Proof.
  unfold dict_keys. rewrite <- list_fmap_compose. by apply list_fmap_ext.
Qed.

End dict.

(** * Boolean masks *)

Lemma getitem_mask_Ok (v v' : values) (mask : list bool) :
  values_getitem_mask v mask = Ok v' →
  v' = compress_values mask v ∧ length mask = values_len v.
Proof.
  destruct v as [a|a]; simpl; unfold getitem_mask;
    destruct (decide _); simpl; intros [= <-]; done.
Qed.

(** * The naming convention on the names the routine itself introduces *)

Lemma suffix_search_kind_name k : suffix_search k (kind_name k) = false.
Proof. by destruct k. Qed.
Lemma prefix_search_kind_name k : prefix_search k (kind_name k) = false.
Proof. by destruct k. Qed.
Lemma suffix_search_x_of k : suffix_search k (x_of k) = false.
Proof. by destruct k. Qed.
Lemma suffix_search_y_of k : suffix_search k (y_of k) = false.
Proof. by destruct k. Qed.
Lemma prefix_search_x_of k : prefix_search k (x_of k) = false.
Proof. by destruct k. Qed.
Lemma prefix_search_y_of k : prefix_search k (y_of k) = false.
Proof. by destruct k. Qed.
Lemma x_of_ne_y_of k : x_of k ≠ y_of k.
Proof. by destruct k. Qed.
Lemma x_of_ne_kind_name k : x_of k ≠ kind_name k.
Proof. by destruct k. Qed.
Lemma y_of_ne_kind_name k : y_of k ≠ kind_name k.
Proof. by destruct k. Qed.

(** * The loop that collects the kept rows *)

Lemma keep_rows_get k mask vars acc res name :
  unique_keys vars → keep_rows k mask vars acc = Ok res →
  dict_get name res =
    if suffix_search k name then
      match dict_get name vars with
      | Some var => Some (MkDataArray (compress_values mask (data var)) (dims var) [])
      | None => dict_get name acc
      end
    else dict_get name acc.
Proof.
  revert acc. induction vars as [|[n0 var0] vars IH]; intros acc Hu Hk; simpl in Hk.
  - injection Hk as <-. by destruct (suffix_search k name).
  - apply unique_keys_cons in Hu as [Hn0 Hu]. apply dict_get_None in Hn0.
    cbn [dict_get].
    destruct (suffix_search k n0) eqn:Hs0.
    + apply bind_Ok in Hk as (v & Hv & Hk). apply getitem_mask_Ok in Hv as [-> _].
      rewrite (IH _ Hu Hk), dict_get_set.
      destruct (decide (name = n0)) as [->|Hne]; [|done].
      by rewrite Hs0, Hn0.
    + rewrite (IH _ Hu Hk).
      destruct (decide (name = n0)) as [->|Hne]; [by rewrite Hs0|done].
Qed.

Lemma keep_rows_lengths k mask vars acc res name var :
  keep_rows k mask vars acc = Ok res →
  (name, var) ∈ vars → suffix_search k name = true →
  length mask = values_len (data var).
Proof.
  revert acc. induction vars as [|[n0 var0] vars IH]; intros acc Hk Hin Hs; simpl in *.
  - by apply elem_of_nil in Hin.
  - apply elem_of_cons in Hin as [[= <- <-]|Hin].
    + rewrite Hs in Hk. apply bind_Ok in Hk as (v & Hv & Hk).
      by apply getitem_mask_Ok in Hv as [_ ?].
    + destruct (suffix_search k n0); [|by eapply IH].
      apply bind_Ok in Hk as (v & Hv & Hk). by eapply IH.
Qed.

Lemma Forall_dict_set {V} (Q : string * V → Prop) k v (d : list (string * V)) :
  Q (k, v) → Forall Q d → Forall Q (dict_set k v d).
Proof.
  intros Hq. induction 1 as [|[k' v'] d Hx Hd IH]; simpl.
  - by constructor.
  - destruct (decide (k = k')); constructor; auto.
Qed.

Lemma keep_rows_Forall (Q : string * DataArray → Prop) k mask vars acc res :
  (∀ n v d, Q (n, MkDataArray v d [])) → Forall Q acc →
  keep_rows k mask vars acc = Ok res → Forall Q res.
Proof.
  intros HQ. revert acc. induction vars as [|[n0 var0] vars IH]; intros acc Ha Hk; simpl in *.
  - by injection Hk as <-.
  - destruct (suffix_search k n0); [|by eapply IH].
    apply bind_Ok in Hk as (v & Hv & Hk). eapply IH; [|done].
    by apply Forall_dict_set.
Qed.

Lemma keep_rows_unique k mask vars acc res :
  unique_keys acc → keep_rows k mask vars acc = Ok res → unique_keys res.
Proof.
  revert acc. induction vars as [|[n0 var0] vars IH]; intros acc Ha Hk; simpl in *.
  - by injection Hk as <-.
  - destruct (suffix_search k n0); [|by eapply IH].
    apply bind_Ok in Hk as (v & Hv & Hk). eapply IH; [|done].
    by apply unique_keys_set.
Qed.

Lemma keep_rows_cons k mask vars k0 da0 acc :
  (∀ n, n ∈ dict_keys vars → suffix_search k n = true → n ≠ k0) →
  keep_rows k mask vars ((k0, da0) :: acc)
  = ((k0, da0) ::.) <$> keep_rows k mask vars acc.
Proof.
  revert acc. induction vars as [|[n0 var0] vars IH]; intros acc Hne; simpl; [done|].
  destruct (suffix_search k n0) eqn:Hs.
  - destruct (values_getitem_mask (data var0) mask) as [v|e]; simpl; [|done].
    rewrite decide_False by (apply Hne; [left|done]).
    apply IH. intros n Hn. apply Hne. by right.
  - apply IH. intros n Hn. apply Hne. by right.
Qed.

(** * Storing a dictionary of data arrays *)

Lemma add_all_get (other : list (string * DataArray)) vars name :
  unique_keys other →
  Forall (λ item, name ∉ dict_keys (da_coords item.2)) other →
  dict_get name (foldl add_dataarray vars other)
  = match dict_get name other with
    | Some da => Some (XVar (da_dims da) (da_data da))
    | None => dict_get name vars
    end.
Proof.
  revert vars. induction other as [|[n0 da0] other IH]; intros vars Hu Hc; simpl; [done|].
  apply unique_keys_cons in Hu as [Hn0 Hu]. apply Forall_cons in Hc as [Hc0 Hc].
  simpl in Hc0.
  rewrite IH by done. unfold add_dataarray. simpl.
  assert (Hcoords : ∀ cs vs, name ∉ dict_keys cs →
    dict_get name (foldl (λ vs (cv : string * xvar), dict_set cv.1 cv.2 vs) vs cs)
    = dict_get name vs).
  { induction cs as [|[c v] cs IHc]; intros vs Hcs; simpl; [done|].
    apply not_elem_of_cons in Hcs as [? ?].
    rewrite IHc by done. rewrite dict_get_set. by rewrite decide_False. }
  destruct (decide (name = n0)) as [->|Hne].
  - apply dict_get_None in Hn0. rewrite Hn0, dict_get_set. by rewrite decide_True.
  - destruct (dict_get name other); [done|].
    rewrite dict_get_set, decide_False by done. by apply Hcoords.
Qed.

Lemma unique_keys_add_all (other : list (string * DataArray)) vars :
  unique_keys vars → unique_keys (foldl add_dataarray vars other).
Proof.
  revert vars. induction other as [|[n0 da0] other IH]; intros vars Hu; simpl; [done|].
  apply IH. unfold add_dataarray. simpl. apply unique_keys_set.
  generalize (da_coords da0). intros cs. revert vars Hu.
  induction cs as [|[c v] cs IHc]; intros vars Hu; simpl; [done|].
  apply IHc. by apply unique_keys_set.
Qed.

(** * Shapes are untouched by the renumbering *)

Lemma shape_ndarray_map {A} (f : A → A) (a : ndarray A) :
  shape (ndarray_map f a) = shape a.
Proof. unfold shape, ndarray_map; simpl. by rewrite length_fmap. Qed.

Lemma values_shape_renumber ids v : values_shape (renumber ids v) = values_shape v.
Proof.
  destruct v as [a|a]; simpl.
  - by rewrite renumber_ints_elem, shape_ndarray_map.
  - unfold renumber_floats. by rewrite foldl_ndarray_map, !shape_ndarray_map.
Qed.

Lemma consistent_renumber_refs k ids vars :
  consistent (renumber_refs k ids vars) = consistent vars.
Proof.
  assert (Hv : ∀ nv : string * xvar,
    var_sizes (if prefix_search k nv.1
               then (nv.1, XVar (dims nv.2) (renumber ids (data nv.2))) else nv).2
    = var_sizes nv.2).
  { intros [n v]; simpl. destruct (prefix_search k n); [|done].
    unfold var_sizes; simpl. by rewrite values_shape_renumber. }
  assert (Hn : ∀ nv : string * xvar,
    var_ndim_ok (if prefix_search k nv.1
               then (nv.1, XVar (dims nv.2) (renumber ids (data nv.2))) else nv).2
    = var_ndim_ok nv.2).
  { intros [n v]; simpl. destruct (prefix_search k n); [|done].
    unfold var_ndim_ok; simpl. by rewrite values_shape_renumber. }
  unfold consistent, renumber_refs. f_equal.
  - induction vars as [|nv vars IH]; [done|]. rewrite fmap_cons. simpl.
    by rewrite Hn, IH.
  - f_equal. unfold sizes. induction vars as [|nv vars IH]; [done|].
    rewrite fmap_cons, !bind_cons. by rewrite Hv, IH.
Qed.

Lemma renumber_refs_get k ids vars name :
  dict_get name (renumber_refs k ids vars)
  = (λ var, if prefix_search k name
            then XVar (dims var) (renumber ids (data var)) else var)
    <$> dict_get name vars.
Proof.
  induction vars as [|[n v] vars IH]; simpl; [done|].
  destruct (prefix_search k n) eqn:Hp; simpl;
    (destruct (decide (name = n)) as [->|]; [by rewrite Hp|apply IH]).
Qed.

Lemma renumber_refs_keys k ids vars :
  dict_keys (renumber_refs k ids vars) = dict_keys vars.
Proof.
  unfold dict_keys, renumber_refs. rewrite <- list_fmap_compose.
  apply list_fmap_ext. intros _ [n v] _. simpl. by destruct (prefix_search k n).
Qed.

(** * What [drop_element] leaves under each name *)

Lemma ds_values_Ok m name v :
  ds_values m name = Ok v → ∃ var, dict_get name (variables m) = Some var ∧ v = data var.
Proof. unfold ds_values. destruct (dict_get _ _); intros [= <-]; eauto. Qed.

Lemma ds_drop_Ok names m m1 :
  ds_drop names m = Ok m1 →
  variables m1 = filter (λ nv : string * xvar, nv.1 ∉ names) (variables m).
Proof. unfold ds_drop. destruct (decide _); intros [= <-]; done. Qed.

Lemma ds_update_Ok other m m2 :
  ds_update other m = Ok m2 →
  variables m2 = foldl add_dataarray (variables m) other ∧
  consistent (variables m2) = true.
Proof.
  unfold ds_update. destruct (consistent _) eqn:Hc; intros [= <-]; done.
Qed.

Lemma update_var_eta k ids mask name var :
  suffix_search k name = false → prefix_search k name = false →
  update_var k ids mask name var = var.
Proof. unfold update_var. intros -> ->. by destruct var. Qed.

Lemma drop_element_lookup ids k m m' :
  unique_keys (variables m) → drop_element ids k m = Ok m' →
  ∃ n mask,
    ds_dim m (kind_name k) = Ok n ∧
    setitem_false (replicate n true) (merge_sort Z.le ids) = Ok mask ∧
    unique_keys (variables m') ∧
    consistent (variables m') = true ∧
    (∀ name, name ≠ x_of k → name ≠ y_of k → name ≠ kind_name k →
       dict_get name (variables m')
       = update_var k (merge_sort Z.le ids) mask name <$> dict_get name (variables m)) ∧
    (∀ name var, dict_get name (variables m) = Some var →
       name ≠ x_of k → name ≠ y_of k →
       suffix_search k name = true → length mask = values_len (data var)) ∧
    (if decide (kind_name k ∈ coord_names m) then
       ∃ xs ys,
         dict_get (x_of k) (variables m) = Some xs ∧
         dict_get (y_of k) (variables m) = Some ys ∧
         length mask = values_len (data xs) ∧
         length mask = values_len (data ys) ∧
         dict_get (kind_name k) (variables m')
         = Some (XVar [kind_name k]
                   (Ints (array1 (arange (values_len (compress_values mask (data xs))))))) ∧
         dict_get (x_of k) (variables m')
         = Some (XVar [kind_name k] (compress_values mask (data xs))) ∧
         dict_get (y_of k) (variables m')
         = Some (XVar [kind_name k] (compress_values mask (data ys)))
     else
       ∀ name, dict_get name (variables m')
               = update_var k (merge_sort Z.le ids) mask name <$> dict_get name (variables m)).
Proof.
  intros Hu Hd. unfold drop_element in Hd.
  apply bind_Ok in Hd as (n & Hn & Hd).
  apply bind_Ok in Hd as (mask & Hmask & Hd).
  apply bind_Ok in Hd as ([at0 m0] & Ham & Hd).
  apply bind_Ok in Hd as (at_vars & Hkeep & Hd).
  apply bind_Ok in Hd as (m1 & Hdrop & Hd).
  apply bind_Ok in Hd as (m2 & Hupd & Hd).
  injection Hd as <-. simpl in *.
  apply ds_drop_Ok in Hdrop. apply ds_update_Ok in Hupd as [Hupd Hcons].
  exists n, mask. split; [done|]. split; [done|].
  set (sorted := merge_sort Z.le ids) in *.
  destruct (decide (kind_name k ∈ coord_names m)) as [Hc|Hc].
  - (* the kind has coordinates *)
    apply bind_Ok in Ham as (xv & Hxv & Ham).
    apply bind_Ok in Ham as (x & Hx & Ham).
    apply bind_Ok in Ham as (yv & Hyv & Ham).
    apply bind_Ok in Ham as (y & Hy & Ham).
    apply bind_Ok in Ham as (mxy & Hmxy & Ham).
    injection Ham as <- <-.
    apply ds_values_Ok in Hxv as (xs & Hxs & ->).
    apply ds_values_Ok in Hyv as (ys & Hys & ->).
    apply getitem_mask_Ok in Hx as [-> Hlx]. apply getitem_mask_Ok in Hy as [-> Hly].
    apply ds_drop_Ok in Hmxy.
    assert (Hu0 : unique_keys (variables mxy))
      by (rewrite Hmxy; by apply unique_keys_filter).
    rewrite keep_rows_cons in Hkeep.
    2:{ intros name _ Hs ->. by rewrite suffix_search_kind_name in Hs. }
    apply fmap_Ok in Hkeep as (res & Hkeep & ->).
    assert (Hget0 : ∀ name, name ≠ x_of k → name ≠ y_of k →
              dict_get name (variables mxy) = dict_get name (variables m)).
    { intros name H1 H2. rewrite Hmxy, dict_get_filter.
      rewrite decide_False; [done|]. rewrite !elem_of_cons, elem_of_nil. tauto. }
    assert (Hres : ∀ name, dict_get name res =
              if suffix_search k name then
                (λ var, MkDataArray (compress_values mask (data var)) (dims var) [])
                <$> dict_get name (variables mxy)
              else None).
    { intros name. rewrite (keep_rows_get _ _ _ _ _ name Hu0 Hkeep).
      destruct (suffix_search k name); [|done]. by destruct (dict_get _ _). }
    assert (Hresu : unique_keys res)
      by (eapply keep_rows_unique; [|done]; apply NoDup_nil_2).
    assert (Hresc : ∀ name, Forall (λ item : string * DataArray,
              name ∉ dict_keys (da_coords item.2)) res).
    { intros name. eapply (keep_rows_Forall _ _ _ _ []); [|constructor|done].
      intros; simpl. apply not_elem_of_nil. }
    simpl in Hupd, Hdrop.
    assert (Hget2 : ∀ name,
      dict_get name (variables m2) =
        match dict_get name res with
        | Some da => Some (XVar (da_dims da) (da_data da))
        | None =>
            if decide (name = kind_name k) then
              Some (XVar [kind_name k]
                 (Ints (array1 (arange (values_len (compress_values mask (data xs)))))))
            else if decide (name = y_of k) then
              Some (XVar [kind_name k] (compress_values mask (data ys)))
            else if decide (name = x_of k) then
              Some (XVar [kind_name k] (compress_values mask (data xs)))
            else if decide (name ∈ dict_keys res) then None
            else dict_get name (variables mxy)
        end).
    { intros name. rewrite Hupd, add_all_get by done.
      destruct (dict_get name res) eqn:Hr; [done|].
      unfold add_dataarray; simpl. rewrite !dict_get_set.
      repeat (destruct (decide _) as [?|?]; [done|]).
      rewrite Hdrop, dict_get_filter.
      destruct (decide (name ∈ dict_keys res)) as [Hin|Hin].
      - rewrite decide_True; [done|]. by right.
      - rewrite decide_False; [done|]. rewrite not_elem_of_cons. done. }
    split; [|split; [|split; [|split]]].
    + unfold unique_keys. rewrite renumber_refs_keys. fold (unique_keys (variables m2)).
      rewrite Hupd. apply unique_keys_add_all. apply (unique_keys_add_all [_]).
      rewrite Hdrop. by apply unique_keys_filter.
    + by rewrite consistent_renumber_refs.
    + intros name H1 H2 H3. rewrite renumber_refs_get, Hget2, Hres.
      rewrite (Hget0 name) by done. unfold update_var.
      destruct (suffix_search k name) eqn:Hs.
      * destruct (dict_get name (variables m)) as [var|] eqn:Hv; simpl.
        -- by destruct (prefix_search k name).
        -- rewrite !decide_False by done.
           assert (Hnin : name ∉ dict_keys res).
           { apply dict_get_None. rewrite Hres, Hs, Hget0 by done. by rewrite Hv. }
           by rewrite decide_False.
      * rewrite !decide_False by done.
        assert (Hnin : name ∉ dict_keys res).
        { apply dict_get_None. by rewrite Hres, Hs. }
        rewrite decide_False by done.
        destruct (dict_get name (variables m)) as [[d v]|]; simpl; [|done].
        by destruct (prefix_search k name).
    + intros name var Hv H1 H2 Hs. rewrite <- Hget0 in Hv by done.
      eapply keep_rows_lengths; [exact Hkeep| |exact Hs].
      clear -Hv. induction (variables mxy) as [|[n0 v0] l IH]; simpl in Hv; [done|].
      destruct (decide (name = n0)) as [->|]; [injection Hv as ->; left|right; auto].
    + exists xs, ys. split_and!; try done.
      * rewrite renumber_refs_get, Hget2, Hres, suffix_search_kind_name.
        rewrite decide_True by done. simpl. by rewrite prefix_search_kind_name.
      * rewrite renumber_refs_get, Hget2, Hres, suffix_search_x_of.
        rewrite decide_False by apply x_of_ne_kind_name.
        rewrite decide_False by apply x_of_ne_y_of.
        rewrite decide_True by done. simpl. by rewrite prefix_search_x_of.
      * rewrite renumber_refs_get, Hget2, Hres, suffix_search_y_of.
        rewrite decide_False by apply y_of_ne_kind_name.
        rewrite decide_True by done. simpl. by rewrite prefix_search_y_of.
  - (* no coordinates *)
    injection Ham as <- <-.
    assert (Hres : ∀ name, dict_get name at_vars =
              if suffix_search k name then
                (λ var, MkDataArray (compress_values mask (data var)) (dims var) [])
                <$> dict_get name (variables m)
              else None).
    { intros name. rewrite (keep_rows_get _ _ _ _ _ name Hu Hkeep).
      destruct (suffix_search k name); [|done]. by destruct (dict_get _ _). }
    assert (Hresu : unique_keys at_vars)
      by (eapply keep_rows_unique; [|done]; apply NoDup_nil_2).
    assert (Hresc : ∀ name, Forall (λ item : string * DataArray,
              name ∉ dict_keys (da_coords item.2)) at_vars).
    { intros name. eapply (keep_rows_Forall _ _ _ _ []); [|constructor|done].
      intros; simpl. apply not_elem_of_nil. }
    assert (Hall : ∀ name,
       dict_get name (renumber_refs k sorted (variables m2))
       = update_var k sorted mask name <$> dict_get name (variables m)).
    { intros name. rewrite renumber_refs_get, Hupd, add_all_get by done.
      rewrite Hres, Hdrop, dict_get_filter. unfold update_var.
      destruct (suffix_search k name) eqn:Hs.
      * destruct (dict_get name (variables m)) as [var|] eqn:Hv; simpl;
          [by destruct (prefix_search k name)|].
        by destruct (decide _).
      * assert (Hnin : name ∉ dict_keys at_vars).
        { apply dict_get_None. by rewrite Hres, Hs. }
        rewrite decide_False by done.
        destruct (dict_get name (variables m)) as [[d v]|]; simpl; [|done].
        by destruct (prefix_search k name). }
    split; [|split; [|split; [|split]]].
    + unfold unique_keys. rewrite renumber_refs_keys. fold (unique_keys (variables m2)).
      rewrite Hupd. apply unique_keys_add_all. rewrite Hdrop.
      by apply unique_keys_filter.
    + by rewrite consistent_renumber_refs.
    + intros name _ _ _. apply Hall.
    + intros name var Hv _ _ Hs.
      eapply keep_rows_lengths; [exact Hkeep| |exact Hs].
      clear -Hv. induction (variables m) as [|[n0 v0] l IH]; simpl in Hv; [done|].
      destruct (decide (name = n0)) as [->|]; [injection Hv as ->; left|right; auto].
    + apply Hall.
Qed.

(** * The keep-mask *)

Lemma arange_S n : arange (S n) = arange n ++ [Z.of_nat n].
Proof. unfold arange. by rewrite seq_S, fmap_app. Qed.

Lemma length_arange n : length (arange n) = n.
Proof. unfold arange. by rewrite length_fmap, length_seq. Qed.

Lemma elem_of_arange n i : i ∈ arange n ↔ 0 ≤ i < Z.of_nat n.
Proof.
  unfold arange. rewrite list_elem_of_fmap. split.
  - intros (j & -> & Hj). apply elem_of_seq in Hj. lia.
  - intros Hi. exists (Z.to_nat i). split; [lia|]. apply elem_of_seq. lia.
Qed.

Lemma NoDup_arange n : NoDup (arange n).
Proof. apply (NoDup_fmap_2 _). apply NoDup_seq. Qed.

Lemma lookup_arange n i : (i < n)%nat → arange n !! i = Some (Z.of_nat i).
Proof. intros Hi. unfold arange. rewrite list_lookup_fmap, lookup_seq_lt by done. done. Qed.

Lemma keep_mask_S n ids :
  keep_mask (S n) ids = keep_mask n ids ++ [bool_decide (Z.of_nat n ∉ ids)].
Proof. unfold keep_mask. by rewrite arange_S, fmap_app. Qed.

Lemma length_keep_mask n ids : length (keep_mask n ids) = n.
Proof. unfold keep_mask. by rewrite length_fmap, length_arange. Qed.

Lemma lookup_keep_mask n ids i :
  (i < n)%nat → keep_mask n ids !! i = Some (bool_decide (Z.of_nat i ∉ ids)).
Proof. intros Hi. unfold keep_mask. by rewrite list_lookup_fmap, lookup_arange. Qed.

Lemma keep_mask_perm n ids ids' : ids ≡ₚ ids' → keep_mask n ids = keep_mask n ids'.
Proof.
  intros Hp. unfold keep_mask. apply list_fmap_ext. intros _ i _.
  apply bool_decide_ext. by rewrite Hp.
Qed.

Lemma mapR_normalize n ids :
  Forall (λ i, 0 ≤ i < Z.of_nat n) ids →
  mapR (normalize_index n) ids = Ok (Z.to_nat <$> ids).
Proof.
  induction 1 as [|i ids Hi _ IH]; [done|].
  cbn [mapR fmap list_fmap]. rewrite IH. unfold normalize_index.
  by rewrite decide_True by done.
Qed.

Lemma foldl_insert_false (idx : list nat) (mask : list bool) i :
  foldl (λ m j, <[j:=false]> m) mask idx !! i
  = (λ b, b && bool_decide (i ∉ idx)) <$> mask !! i.
Proof.
  revert mask. induction idx as [|j idx IH]; intros mask; cbn [foldl].
  - destruct (mask !! i) as [b|]; [|done]. cbn [fmap option_fmap option_map].
    rewrite bool_decide_true by apply not_elem_of_nil. by rewrite andb_true_r.
  - rewrite IH. destruct (decide (i = j)) as [->|Hne].
    + destruct (mask !! j) as [b|] eqn:Hb.
      * rewrite list_lookup_insert_eq by (by eapply lookup_lt_Some). simpl.
        rewrite bool_decide_false; [by rewrite andb_false_r|].
        intros Hn. apply Hn. left.
      * rewrite list_insert_ge by (by apply lookup_ge_None). by rewrite Hb.
    + rewrite list_lookup_insert_ne by done.
      destruct (mask !! i) as [b|]; simpl; [|done]. f_equal. f_equal.
      apply bool_decide_ext. rewrite not_elem_of_cons. tauto.
Qed.

Lemma setitem_false_valid n ids :
  Forall (λ i, 0 ≤ i < Z.of_nat n) ids →
  setitem_false (replicate n true) ids = Ok (keep_mask n ids).
Proof.
  intros Hv. unfold setitem_false. rewrite length_replicate, mapR_normalize by done.
  simpl. f_equal. apply list_eq. intros i. rewrite foldl_insert_false.
  destruct (decide (i < n)%nat) as [Hi|Hi].
  - rewrite (lookup_replicate_2 n true i Hi), (lookup_keep_mask n ids i Hi).
    simpl. f_equal.
    apply bool_decide_ext. rewrite list_elem_of_fmap. split.
    + intros Hn Hin. apply Hn. exists (Z.of_nat i). split; [lia|done].
    + intros Hn (z & -> & Hz). rewrite Forall_forall in Hv. specialize (Hv _ Hz).
      rewrite Z2Nat.id in Hn by lia. done.
  - rewrite (proj1 (lookup_replicate_None n true i)) by lia.
    symmetry. apply lookup_ge_None. rewrite length_keep_mask. lia.
Qed.

Lemma valid_ids_sorted n ids : valid_ids n ids → valid_ids n (merge_sort Z.le ids).
Proof.
  intros [Hnd Hv]. split; by rewrite merge_sort_Permutation.
Qed.

(** * Rows that survive a mask *)

Lemma compress_app {X} (m1 m2 : list bool) (xs1 xs2 : list X) :
  length m1 = length xs1 →
  compress (m1 ++ m2) (xs1 ++ xs2) = compress m1 xs1 ++ compress m2 xs2.
Proof.
  revert xs1. induction m1 as [|b m1 IH]; intros [|x xs1] Hl; simpl in *; try done.
  injection Hl as Hl. destruct b; simpl; by rewrite IH.
Qed.

Lemma compress_nil_r {X} (m : list bool) : compress m ([] : list X) = [].
Proof. by destruct m as [|[] m]. Qed.

Lemma rank_S ids c :
  rank ids (S c) = (rank ids c + if decide (Z.of_nat c ∉ ids) then 1 else 0)%nat.
Proof.
  unfold rank. rewrite arange_S, filter_app, length_app. f_equal.
  rewrite filter_cons, filter_nil. by destruct (decide _).
Qed.

Lemma rank_mono ids c c' : (c ≤ c')%nat → (rank ids c ≤ rank ids c')%nat.
Proof. induction 1 as [|c' _ IH]; [done|]. rewrite rank_S. lia. Qed.

Lemma length_compress_keep {X} ids (xs : list X) :
  length (compress (keep_mask (length xs) ids) xs) = rank ids (length xs).
Proof.
  induction xs as [|x xs IH] using rev_ind; [done|].
  rewrite length_app. simpl. rewrite Nat.add_1_r, keep_mask_S, rank_S.
  rewrite compress_app by (by rewrite length_keep_mask).
  rewrite length_app, IH. f_equal. simpl.
  destruct (decide _); [by rewrite bool_decide_true|by rewrite bool_decide_false].
Qed.



(** * Counting the dropped ids *)

Lemma count_below_filter ids c :
  NoDup ids → Forall (λ i, 0 ≤ i) ids →
  Z.to_nat (count_below ids (Z.of_nat c)) = length (filter (λ i, i ∈ ids) (arange c)).
Proof.
  intros Hnd Hpos. unfold count_below. rewrite Nat2Z.id.
  apply Permutation_length. apply NoDup_Permutation.
  - by apply NoDup_filter.
  - apply NoDup_filter, NoDup_arange.
  - intros i. rewrite !list_elem_of_filter, elem_of_arange.
    rewrite Forall_forall in Hpos. split.
    + intros [? Hi]. specialize (Hpos _ Hi). simpl in Hpos. split; [done|lia].
    + intros [? ?]. split; [lia|done].
Qed.

Lemma rank_count_below ids c :
  NoDup ids → Forall (λ i, 0 ≤ i) ids →
  Z.of_nat (rank ids c) = Z.of_nat c - count_below ids (Z.of_nat c).
Proof.
  intros Hnd Hpos.
  pose proof (count_below_filter ids c Hnd Hpos) as Hc.
  pose proof (filter_app_complement (λ i, i ∈ ids) (arange c)) as Hp.
  apply Permutation_length in Hp. rewrite length_app, length_arange in Hp.
  unfold rank. unfold count_below in *. lia.
Qed.

Lemma rank_total n ids :
  valid_ids n ids → rank ids n = (n - length ids)%nat.
Proof.
  intros [Hnd Hv].
  assert (Hpos : Forall (λ i, 0 ≤ i) ids) by (eapply Forall_impl; [done|]; simpl; lia).
  pose proof (rank_count_below ids n Hnd Hpos) as Hr.
  assert (filter (λ d, d < Z.of_nat n) ids = ids) as Hall.
  { clear -Hv. induction Hv as [|i ids Hi _ IH]; [done|].
    rewrite filter_cons, decide_True by lia. by rewrite IH. }
  unfold count_below in Hr. rewrite Hall in Hr. lia.
Qed.

Lemma renumbered_elem ids v :
  NoDup ids → Forall (λ d, 0 ≤ d) ids →
  renumbered ids v (renumber_elem (merge_sort Z.le ids) v).
Proof.
  intros Hnd Hpos. rewrite renumber_elem_spec by done. split.
  - intros Hin. by rewrite decide_True.
  - intros Hout _. by rewrite decide_False.
Qed.

Lemma valid_ids_nonneg n ids : valid_ids n ids → Forall (λ d, 0 ≤ d) ids.
Proof. intros [_ Hv]. eapply Forall_impl; [done|]. simpl. lia. Qed.

(** The mask that [drop_element] builds, for valid ids. *)
Lemma drop_element_mask n ids mask :
  valid_ids n ids →
  setitem_false (replicate n true) (merge_sort Z.le ids) = Ok mask →
  mask = keep_mask n ids.
Proof.
  intros Hv Hm. rewrite setitem_false_valid in Hm.
  - injection Hm as <-. apply keep_mask_perm, merge_sort_Permutation.
  - by apply valid_ids_sorted.
Qed.

(** The entries of the cross-referencing arrays after [drop_element]. *)
Lemma drop_element_refs (ids : list Z) (at_ : kind) (mesh mesh' : Dataset) (n : nat) :
  unique_keys (variables mesh) →
  ds_dim mesh (kind_name at_) = Ok n →
  valid_ids n ids →
  drop_element ids at_ mesh = Ok mesh' →
  ∀ name dims a,
    prefix_search at_ name = true →
    dict_get name (variables mesh) = Some (XVar dims (Ints a)) →
    ∃ a',
      dict_get name (variables mesh') = Some (XVar dims (Ints a')) ∧
      tail a' = tail a ∧
      Forall2 (Forall2 (renumbered ids))
        (if suffix_search at_ name then compress (keep_mask n ids) (rows a) else rows a)
        (rows a').
Proof.
  intros Hu Hn Hv Hd name dims a Hp Hget.
  destruct (drop_element_lookup _ _ _ _ Hu Hd)
    as (n' & mask & Hn' & Hmask & _ & _ & Hlook & _ & _).
  rewrite Hn in Hn'. injection Hn' as <-.
  apply (drop_element_mask _ _ _ Hv) in Hmask as ->.
  assert (H1 : name ≠ x_of at_) by (intros ->; by rewrite prefix_search_x_of in Hp).
  assert (H2 : name ≠ y_of at_) by (intros ->; by rewrite prefix_search_y_of in Hp).
  assert (H3 : name ≠ kind_name at_)
    by (intros ->; by rewrite prefix_search_kind_name in Hp).
  rewrite (Hlook name H1 H2 H3), Hget. simpl. unfold update_var. rewrite Hp. simpl.
  assert (Hrows : ∀ rs : list (list Z),
    Forall2 (Forall2 (renumbered ids)) rs
      ((λ row : list Z, renumber_elem (merge_sort Z.le ids) <$> row) <$> rs)).
  { intros rs. apply Forall2_fmap_r, Forall_Forall2_diag, Forall_forall.
    intros row _. apply Forall2_fmap_r, Forall_Forall2_diag, Forall_forall.
    intros v _. apply renumbered_elem; [apply Hv|by eapply valid_ids_nonneg]. }
  destruct (suffix_search at_ name); simpl;
    rewrite renumber_ints_elem; eexists; (split_and!; [done|done|apply Hrows]).
Qed.

(** C2: after [drop_element(ids, kind)] every array that cross-references the
    kind holds, entry by entry, the sentinel [-1] where the old entry was one
    of [ids], and otherwise, for a non-negative old entry [i], [i] minus the
    number of dropped ids strictly below [i]. *)
Theorem drop_element_renumbers (ids : list Z) (at_ : kind) (mesh mesh' : Dataset) (n : nat) :
  unique_keys (variables mesh) →
  ds_dim mesh (kind_name at_) = Ok n →
  valid_ids n ids →
  drop_element ids at_ mesh = Ok mesh' →
  ∀ name dims a,
    prefix_search at_ name = true →
    dict_get name (variables mesh) = Some (XVar dims (Ints a)) →
    ∃ a',
      dict_get name (variables mesh') = Some (XVar dims (Ints a')) ∧
      tail a' = tail a ∧
      Forall2 (Forall2 (renumbered ids))
        (if suffix_search at_ name then compress (keep_mask n ids) (rows a) else rows a)
        (rows a').
Proof. exact (drop_element_refs ids at_ mesh mesh' n). Qed.

(** C10: the result of [drop_element] does not depend on the order in which
    the ids are supplied. *)
Theorem drop_element_order_insensitive (ids ids' : list Z) (at_ : kind) (mesh : Dataset) :
  ids ≡ₚ ids' → drop_element ids at_ mesh = drop_element ids' at_ mesh.
Proof.
  intros Hp.
  assert (Hs : merge_sort Z.le ids = merge_sort Z.le ids').
  { apply (Sorted_unique Z.le).
    - apply (Sorted_merge_sort _).
    - apply (Sorted_merge_sort _).
    - by rewrite !merge_sort_Permutation. }
  unfold drop_element. by rewrite Hs.
Qed.

(** * [np.where] and index arrays *)

Lemma elem_of_where_from s mask i :
  i ∈ where_from s mask ↔ ∃ j : nat, i = s + Z.of_nat j ∧ mask !! j = Some true.
Proof.
  revert s. induction mask as [|b mask IH]; intros s; simpl.
  - rewrite elem_of_nil. split; [done|]. by intros (j & _ & ?).
  - assert (Hrec : i ∈ where_from (s + 1) mask ↔
                   ∃ j : nat, i = s + Z.of_nat (S j) ∧ mask !! j = Some true).
    { rewrite IH. split; intros (j & -> & Hj); exists j; (split; [lia|done]). }
    destruct b.
    + rewrite elem_of_cons, Hrec. split.
      * intros [->|(j & -> & Hj)]; [exists 0%nat|exists (S j)]; (split; [lia|done]).
      * intros ([|j] & -> & Hj); [left; lia|right; eauto].
    + rewrite Hrec. split.
      * intros (j & -> & Hj). by exists (S j).
      * intros ([|j] & -> & Hj); [done|eauto].
Qed.

Lemma elem_of_np_where mask i :
  i ∈ np_where mask ↔ 0 ≤ i ∧ mask !! Z.to_nat i = Some true.
Proof.
  unfold np_where. rewrite elem_of_where_from. split.
  - intros (j & -> & Hj). rewrite Z.add_0_l, Nat2Z.id. split; [lia|done].
  - intros [Hi Hm]. exists (Z.to_nat i). split; [lia|done].
Qed.

Lemma NoDup_where_from s mask : NoDup (where_from s mask).
Proof.
  revert s. induction mask as [|b mask IH]; intros s; simpl; [constructor|].
  destruct b; [|apply IH]. constructor; [|apply IH].
  rewrite elem_of_where_from. intros (j & Hj & _). lia.
Qed.

Lemma np_where_valid mask : valid_ids (length mask) (np_where mask).
Proof.
  split; [apply NoDup_where_from|]. apply Forall_forall. intros i Hi.
  apply elem_of_np_where in Hi as [Hi Hm]. apply lookup_lt_Some in Hm. lia.
Qed.

(** Dropping the positions where a mask is false keeps the mask. *)
Lemma keep_mask_np_where (bs : list bool) :
  keep_mask (length bs) (np_where (negb <$> bs)) = bs.
Proof.
  apply list_eq. intros i. destruct (bs !! i) as [b|] eqn:Hb.
  - rewrite lookup_keep_mask by (by eapply lookup_lt_Some). f_equal.
    destruct b.
    + apply bool_decide_true. rewrite elem_of_np_where, Nat2Z.id.
      rewrite list_lookup_fmap, Hb. simpl. by intros [_ ?].
    + apply bool_decide_false. intros Hn. apply Hn.
      rewrite elem_of_np_where, Nat2Z.id, list_lookup_fmap, Hb. split; [lia|done].
  - apply lookup_ge_None. rewrite length_keep_mask. by apply lookup_ge_None.
Qed.

Lemma mapR_Ok {A B} (f : A → result B) (l : list A) (r : list B) :
  mapR f l = Ok r ↔ Forall2 (λ a b, f a = Ok b) l r.
Proof.
  revert r. induction l as [|a l IH]; intros r; simpl.
  - split; [intros [= <-]; constructor|by inversion 1].
  - split.
    + intros H. apply bind_Ok in H as (b & Hb & H).
      apply bind_Ok in H as (bs & Hbs & H). injection H as <-.
      constructor; [done|by apply IH].
    + inversion 1 as [|? b ? bs Hb Hbs]; subst. rewrite Hb. simpl.
      apply IH in Hbs. by rewrite Hbs.
Qed.

Lemma take_rows_valid {X} (xs : list X) (idx : list Z) :
  Forall (λ i, 0 ≤ i < Z.of_nat (length xs)) idx →
  ∃ picked, take_rows xs idx = Ok picked ∧
            Forall2 (λ i x, xs !! Z.to_nat i = Some x) idx picked.
Proof.
  induction 1 as [|i idx Hi _ (picked & Hp & Hf)].
  - exists []. split; [done|constructor].
  - destruct (lookup_lt_is_Some_2 xs (Z.to_nat i)) as [x Hx]; [lia|].
    exists (x :: picked). split; [|by constructor].
    unfold take_rows in *. cbn [mapR]. rewrite Hp. unfold normalize_index.
    rewrite decide_True by lia. simpl. by rewrite Hx.
Qed.

Lemma keep_mask_np_where' {X} (f : X → bool) (xs : list X) :
  keep_mask (length xs) (np_where (negb <$> (f <$> xs))) = f <$> xs.
Proof. rewrite <- (length_fmap f xs). apply keep_mask_np_where. Qed.

(** * The padded matrix of the regions *)

Lemma np_diff_offsets start regions :
  np_diff (jagged_offset_from start regions) = length <$> regions.
Proof.
  revert start. induction regions as [|r regions IH]; intros start; [done|].
  cbn [jagged_offset_from]. specialize (IH (start + length r)%nat).
  destruct regions as [|r' regions]; cbn [jagged_offset_from np_diff] in *.
  - rewrite fmap_cons. f_equal. lia.
  - rewrite IH, !fmap_cons. f_equal. lia.
Qed.

Lemma unravel_rows (pre : list Z) (regions : list (list Z)) (w : nat) (pad : Z) :
  zip_with (λ start len,
              take len (drop start (pre ++ concat regions)) ++ replicate (w - len) pad)
           (jagged_offset_from (length pre) regions) (length <$> regions)
  = (λ row, row ++ replicate (w - length row) pad) <$> regions.
Proof.
  revert pre. induction regions as [|r regions IH]; intros pre; [done|].
  cbn [jagged_offset_from concat]. rewrite !fmap_cons. cbn [zip_with]. f_equal.
  - by rewrite drop_app_length, take_app_length.
  - rewrite <- length_app. rewrite (assoc_L (++)). apply IH.
Qed.

(** C9: the padded matrix built for [corners_at_cell] is as wide as the
    longest row; row [i] is the [i]-th region, in its order, followed by the
    sentinel [-1] up to that width. *)
Theorem corners_at_cell_padded (regions : list (list Z)) :
  tail (_corners_at_cell regions) = [max_list (length <$> regions)] ∧
  rows (_corners_at_cell regions)
  = (λ row, row ++ replicate (max_list (length <$> regions) - length row) (-1))
    <$> regions ∧
  Forall (λ row, length row = max_list (length <$> regions))
         (rows (_corners_at_cell regions)).
Proof.
  assert (Hrows : rows (_corners_at_cell regions)
    = (λ row, row ++ replicate (max_list (length <$> regions) - length row) (-1))
      <$> regions).
  { unfold _corners_at_cell, unravel, jagged_array, jagged_offset, array2. simpl.
    rewrite np_diff_offsets. apply (unravel_rows [] regions). }
  split_and!.
  - unfold _corners_at_cell, unravel, jagged_offset, array2. simpl.
    by rewrite np_diff_offsets.
  - done.
  - rewrite Hrows. apply Forall_fmap, Forall_forall. intros row Hrow. simpl.
    rewrite length_app, length_replicate.
    assert (length row ≤ max_list (length <$> regions))%nat; [|lia].
    apply max_list_elem_of_le, list_elem_of_fmap. eauto.
Qed.

(** * Perimeter cells *)

Lemma is_perimeter_cell_lookup (self : Graph) (cac : list (list Z)) (ns : list Z) :
  corners_at_cell self = Ok cac →
  n_corners_at_cell self = Ok ns →
  length cac = length ns →
  ∃ ipc,
    is_perimeter_cell self = Ok ipc ∧
    length ipc = length cac ∧
    ∀ (c : nat) row n, cac !! c = Some row → ns !! c = Some n →
      ipc !! c = Some (bool_decide (-1 ∈ take (Z.to_nat n) row ∨ n < 3)).
Proof.
  intros Hcac Hns Hlen. unfold is_perimeter_cell. rewrite Hcac, Hns. simpl.
  assert (Hl : length (id_array_contains cac ns (-1)) = length ns).
  { unfold id_array_contains. rewrite length_zip_with. lia. }
  rewrite decide_True by done. eexists. split; [done|]. split.
  - rewrite length_zip_with, Hl, length_fmap. lia.
  - intros c row n Hrow Hn. rewrite lookup_zip_with.
    unfold id_array_contains. rewrite lookup_zip_with, Hrow. simpl.
    rewrite Hn. simpl. rewrite list_lookup_fmap, Hn. simpl. f_equal.
    destruct (decide (-1 ∈ take (Z.to_nat n) row)) as [Hin|Hin].
    + rewrite (bool_decide_true _ Hin). simpl. symmetry.
      apply bool_decide_true. by left.
    + rewrite (bool_decide_false _ Hin). simpl. apply bool_decide_ext. tauto.
Qed.

(** C7: a cell is a perimeter cell exactly when one of the first
    [n_corners_at_cell[c]] entries of its row of [corners_at_cell] is the
    sentinel, or it has fewer than three corners; what lies in the padding
    beyond that length plays no part. *)
Theorem is_perimeter_cell_spec (self : Graph) (cac : list (list Z)) (ns : list Z) :
  corners_at_cell self = Ok cac →
  n_corners_at_cell self = Ok ns →
  length cac = length ns →
  ∃ ipc,
    is_perimeter_cell self = Ok ipc ∧
    length ipc = length cac ∧
    ∀ (c : nat) row n, cac !! c = Some row → ns !! c = Some n →
      ipc !! c = Some (bool_decide (-1 ∈ take (Z.to_nat n) row ∨ n < 3)).
Proof. exact (is_perimeter_cell_lookup self cac ns). Qed.

(** * Unbound corners *)

Lemma is_perimeter_face_Ok self ipf :
  is_perimeter_face self = Ok ipf →
  ∃ caf, corners_at_face self = Ok caf ∧ ipf = any_eq (-1) caf.
Proof. unfold is_perimeter_face. intros H. apply fmap_Ok in H. naive_solver. Qed.

Lemma broadcast2_same {A B C} (f : A → B → C) xs ys :
  length xs = length ys → broadcast2 f xs ys = Ok (zip_with f xs ys).
Proof. intros H. unfold broadcast2. by rewrite decide_True. Qed.

Lemma elem_of_concat {A} (x : A) (ls : list (list A)) :
  x ∈ concat ls ↔ ∃ l, x ∈ l ∧ l ∈ ls.
Proof.
  induction ls as [|l ls IH]; simpl.
  - rewrite elem_of_nil. split; [done|]. intros (l & _ & Hl). by apply elem_of_nil in Hl.
  - rewrite elem_of_app, IH. split.
    + intros [?|(l' & ? & ?)]; [exists l; split; [done|left]|exists l'; split; [done|by right]].
    + intros (l' & Hx & Hl). apply elem_of_cons in Hl as [->|Hl]; [by left|right; eauto].
Qed.

Section unbound.
Variable pair_isin_sorted_list :
  list (list Z) → list (list Z) → list Z → result (list bool).

(** C6, as the code has it: with a perimeter-link classification at hand
    that has one entry per face, [unbound_corners] returns exactly the
    non-sentinel corners that are an endpoint of a face that is a perimeter
    face but not a perimeter link.  The two classifications are compared
    entry by entry, so the links have to be as many as the faces. *)
Theorem unbound_corners_spec (self : Graph) (caf : list (list Z)) (ipf ipl : list bool) :
  corners_at_face self = Ok caf →
  is_perimeter_face self = Ok ipf →
  is_perimeter_link pair_isin_sorted_list self = Ok ipl →
  length ipl = length ipf →
  ∃ cs,
    unbound_corners pair_isin_sorted_list self = Ok cs ∧
    ∀ c, c ∈ cs ↔
         0 ≤ c ∧ ∃ (f : nat) row, caf !! f = Some row ∧ c ∈ row ∧
                                  ipf !! f = Some true ∧ ipl !! f = Some false.
Proof.
  intros Hcaf Hipf Hipl Hlen.
  destruct (is_perimeter_face_Ok _ _ Hipf) as (caf' & Hcaf' & Hany).
  rewrite Hcaf in Hcaf'. injection Hcaf' as <-.
  assert (Hlc : length ipf = length caf)
    by (rewrite Hany; unfold any_eq; by rewrite length_fmap).
  unfold unbound_corners. rewrite Hipf, Hipl. simpl.
  rewrite broadcast2_same by done. simpl.
  rewrite broadcast2_same by (rewrite length_zip_with; lia). simpl.
  rewrite Hcaf. simpl.
  set (mask := zip_with andb ipf (zip_with xorb ipl ipf)).
  assert (Hlm : length mask = length caf)
    by (unfold mask; rewrite !length_zip_with; lia).
  destruct (take_rows_valid caf (np_where mask)) as (picked & -> & Hpicked).
  { pose proof (np_where_valid mask) as [_ Hv]. by rewrite Hlm in Hv. }
  simpl. eexists. split; [done|]. intros c.
  rewrite list_elem_of_filter, elem_of_concat.
  assert (Hmask : ∀ f : nat, mask !! f = Some true ↔
                              ipf !! f = Some true ∧ ipl !! f = Some false).
  { intros f. unfold mask. rewrite !lookup_zip_with.
    destruct (ipf !! f) as [[]|], (ipl !! f) as [[]|]; simpl;
      (split; [try done|by intros [? ?]]). }
  split.
  - intros [Hc (row & Hin & Hrow)]. split; [lia|].
    apply list_elem_of_lookup in Hrow as [j Hj].
    destruct (Forall2_lookup_r _ _ _ _ _ Hpicked Hj) as (i & Hi & Hget).
    apply list_elem_of_lookup_2, elem_of_np_where in Hi as [Hi0 Hi].
    exists (Z.to_nat i), row. split_and!; [done|done|by apply Hmask..].
  - intros [Hc (f & row & Hrow & Hin & Hf & Hl)]. split; [lia|].
    exists row. split; [done|].
    assert (Hidx : Z.of_nat f ∈ np_where mask).
    { apply elem_of_np_where. rewrite Nat2Z.id. split; [lia|]. by apply Hmask. }
    apply list_elem_of_lookup in Hidx as [j Hj].
    destruct (Forall2_lookup_l _ _ _ _ _ Hpicked Hj) as (row' & Hrow' & Hget).
    rewrite Nat2Z.id, Hrow in Hget. injection Hget as <-.
    by eapply list_elem_of_lookup_2.
Qed.

End unbound.

(** * The mask of a successful call *)

Lemma setitem_false_Ok n ids mask :
  setitem_false (replicate n true) ids = Ok mask →
  Forall (λ i, 0 ≤ i) ids →
  Forall (λ i, 0 ≤ i < Z.of_nat n) ids.
Proof.
  unfold setitem_false. rewrite length_replicate. intros H Hpos.
  apply bind_Ok in H as (idx & Hidx & H). injection H as <-.
  apply mapR_Ok in Hidx. clear -Hidx Hpos.
  induction Hidx as [|i j ids idx Hi _ IH]; [constructor|].
  apply Forall_cons in Hpos as [Hi0 Hpos]. constructor; [|by apply IH].
  unfold normalize_index in Hi. destruct (decide (0 ≤ i < Z.of_nat n)); [done|].
  destruct (decide _); [lia|done].
Qed.

(** The ids that [np.where] yields are valid as soon as the call goes
    through, and the mask is then the negation of the one they came from. *)
Lemma drop_where_mask n bs mask :
  setitem_false (replicate n true) (merge_sort Z.le (np_where bs)) = Ok mask →
  mask = keep_mask n (np_where bs) ∧ valid_ids n (np_where bs).
Proof.
  intros Hm.
  assert (Hv : valid_ids n (np_where bs)).
  { split; [apply NoDup_where_from|].
    apply setitem_false_Ok in Hm.
    - by rewrite merge_sort_Permutation in Hm.
    - rewrite merge_sort_Permutation. apply Forall_forall. intros i Hi.
      by apply elem_of_np_where in Hi as [? _]. }
  split; [|done]. by apply drop_element_mask.
Qed.

(** * Reading a variable as rows or as elements *)

Lemma rows_of_Ok m name rs :
  rows_of m name = Ok rs ↔
  ∃ dims w, dict_get name (variables m) = Some (XVar dims (Ints (NdArray [w] rs))).
Proof.
  unfold rows_of, ds_values. split.
  - destruct (dict_get name (variables m)) as [[d v]|]; simpl; [|done].
    destruct v as [[[|w [|? ?]] r]|a]; simpl; try done. intros [= <-]. eauto.
  - intros (d & w & ->). done.
Qed.

Lemma values_len_rows w rs : values_len (Ints (NdArray w rs)) = length rs.
Proof. done. Qed.

Lemma elems_of_Ok m name es :
  elems_of m name = Ok es ↔
  ∃ dims rs, dict_get name (variables m) = Some (XVar dims (Ints (NdArray [] rs)))
             ∧ es = concat rs.
Proof.
  unfold elems_of, ds_values. split.
  - destruct (dict_get name (variables m)) as [[d v]|]; simpl; [|done].
    destruct v as [[[|w ?] r]|a]; simpl; try done. intros [= <-]. eauto.
  - intros (d & rs & -> & ->). done.
Qed.

(** * Three views of [drop_element] on one variable *)

Section views.
Context (ids : list Z) (k : kind) (m m' : Dataset).
Hypothesis Hu : unique_keys (variables m).
Hypothesis Hd : drop_element ids k m = Ok m'.

Lemma drop_element_unique : unique_keys (variables m').
Proof. destruct (drop_element_lookup _ _ _ _ Hu Hd) as (? & ? & ? & ? & ? & _). done. Qed.

Lemma drop_element_consistent : consistent (variables m') = true.
Proof. destruct (drop_element_lookup _ _ _ _ Hu Hd) as (? & ? & ? & ? & ? & ? & _). done. Qed.

(** A variable that the naming convention does not relate to the kind is
    left as it is. *)
Lemma drop_element_frame name :
  suffix_search k name = false → prefix_search k name = false →
  name ≠ x_of k → name ≠ y_of k → name ≠ kind_name k →
  dict_get name (variables m') = dict_get name (variables m).
Proof.
  intros Hs Hp H1 H2 H3.
  destruct (drop_element_lookup _ _ _ _ Hu Hd) as (n & mask & _ & _ & _ & _ & Hl & _).
  rewrite Hl by done. destruct (dict_get name (variables m)) as [var|]; [|done].
  simpl. by rewrite update_var_eta.
Qed.

(** The rows of a per-element array of the kind are cut down by the mask. *)
Lemma drop_element_kept name :
  suffix_search k name = true → prefix_search k name = false →
  ∃ n mask,
    ds_dim m (kind_name k) = Ok n ∧
    setitem_false (replicate n true) (merge_sort Z.le ids) = Ok mask ∧
    ∀ var, dict_get name (variables m) = Some var →
      length mask = values_len (data var) ∧
      dict_get name (variables m')
      = Some (XVar (dims var) (compress_values mask (data var))).
Proof.
  intros Hs Hp.
  destruct (drop_element_lookup _ _ _ _ Hu Hd)
    as (n & mask & Hn & Hm & _ & _ & Hl & Hlen & _).
  exists n, mask. split_and!; [done..|]. intros var Hv.
  assert (H1 : name ≠ x_of k) by (intros ->; by rewrite suffix_search_x_of in Hs).
  assert (H2 : name ≠ y_of k) by (intros ->; by rewrite suffix_search_y_of in Hs).
  assert (H3 : name ≠ kind_name k)
    by (intros ->; by rewrite suffix_search_kind_name in Hs).
  split; [by eapply Hlen|].
  rewrite Hl, Hv by done. simpl. unfold update_var. by rewrite Hs, Hp.
Qed.


End views.

(** * [drop_corners] *)

Lemma drop_from_Ok ids k self g :
  drop_from ids k self = Ok g →
  drop_element ids k (_mesh self) = Ok (_mesh g) ∧
  _perimeter_links g = _perimeter_links self.
Proof.
  unfold drop_from. intros H. apply bind_Ok in H as (m & Hm & H).
  injection H as <-. done.
Qed.

Lemma compress_all_ge0 (rs : list (list Z)) :
  Forall (Forall (λ l, 0 ≤ l)) (compress (all_ge0 rs) rs).
Proof.
  induction rs as [|row rs IH]; simpl; [constructor|].
  destruct (forallb _ row) eqn:Hrow; [|done]. constructor; [|done].
  apply Forall_forall. intros l Hl.
  rewrite forallb_forall in Hrow. apply list_elem_of_In, Hrow in Hl.
  apply bool_decide_eq_true in Hl. lia.
Qed.

(** C5, as the code has it: [drop_corners] removes the corners; it then drops
    every link whose index is that of a face with both corner slots at the
    sentinel, while the rows of the faces stay; and it drops every patch that
    is left with a negative link reference. *)
Theorem drop_corners_cascade (self g' : Graph) (ids : list Z) (nal : list (list Z)) :
  unique_keys (variables (_mesh self)) →
  nodes_at_link self = Ok nal →
  drop_corners ids self = Ok g' →
  ∃ m1 caf,
    drop_element ids corner (_mesh self) = Ok m1 ∧
    rows_of m1 "corners_at_face" = Ok caf ∧
    corners_at_face g' = Ok caf ∧
    nodes_at_link g'
    = Ok (compress (keep_mask (length nal) (np_where (negb <$> any_ne (-1) caf))) nal) ∧
    ∃ lap, links_at_patch g' = Ok lap ∧ Forall (Forall (λ l, 0 ≤ l)) lap.
Proof.
  intros Hu Hnal Hd. unfold drop_corners in Hd.
  apply bind_Ok in Hd as (g1 & Hg1 & Hd).
  apply bind_Ok in Hd as (v1 & Hv1 & Hd).
  apply bind_Ok in Hd as (caf & Hcaf & Hd).
  apply bind_Ok in Hd as (g2 & Hg2 & Hd).
  apply bind_Ok in Hd as (v2 & Hv2 & Hd).
  apply bind_Ok in Hd as (lap & Hlap & Hg3).
  apply drop_from_Ok in Hg1 as [Hg1 _].
  apply drop_from_Ok in Hg2 as [Hg2 _].
  apply drop_from_Ok in Hg3 as [Hg3 _].
  assert (Hcaf1 : rows_of (_mesh g1) "corners_at_face" = Ok caf)
    by (unfold rows_of; by rewrite Hv1).
  assert (Hlap2 : rows_of (_mesh g2) "links_at_patch" = Ok lap)
    by (unfold rows_of; by rewrite Hv2).
  clear Hv1 Hcaf Hv2 Hlap.
  pose proof (drop_element_unique _ _ _ _ Hu Hg1) as Hu1.
  pose proof (drop_element_unique _ _ _ _ Hu1 Hg2) as Hu2.
  exists (_mesh g1), caf. split; [done|]. split; [done|].
  (* the faces *)
  assert (Hcaf3 : corners_at_face g' = Ok caf).
  { change (rows_of (_mesh g') "corners_at_face" = Ok caf).
    apply rows_of_Ok in Hcaf1 as (d & w & Hget). apply rows_of_Ok. exists d, w.
    rewrite (drop_element_frame _ _ _ _ Hu2 Hg3) by done.
    by rewrite (drop_element_frame _ _ _ _ Hu1 Hg2) by done. }
  split; [done|].
  (* the links *)
  change (rows_of (_mesh self) "nodes_at_link" = Ok nal) in Hnal.
  apply rows_of_Ok in Hnal as (d & w & Hget).
  rewrite <- (drop_element_frame _ _ _ _ Hu Hg1 "nodes_at_link") in Hget by done.
  destruct (drop_element_kept _ _ _ _ Hu1 Hg2 "nodes_at_link")
    as (n2 & mask2 & Hn2 & Hm2 & Hk2); [done..|].
  destruct (Hk2 _ Hget) as [Hl2 Hget2]. simpl in Hl2, Hget2.
  apply drop_where_mask in Hm2 as [-> _]. rewrite length_keep_mask in Hl2. subst n2.
  split.
  { change (rows_of (_mesh g') "nodes_at_link" = Ok
      (compress (keep_mask (length nal) (np_where (negb <$> any_ne (-1) caf))) nal)).
    apply rows_of_Ok. exists d, w.
    by rewrite (drop_element_frame _ _ _ _ Hu2 Hg3) by done. }
  (* the patches *)
  apply rows_of_Ok in Hlap2 as (d' & w' & Hgetl).
  destruct (drop_element_kept _ _ _ _ Hu2 Hg3 "links_at_patch")
    as (n3 & mask3 & Hn3 & Hm3 & Hk3); [done..|].
  destruct (Hk3 _ Hgetl) as [Hl3 Hget3]. simpl in Hl3, Hget3.
  apply drop_where_mask in Hm3 as [-> _]. rewrite length_keep_mask in Hl3. subst n3.
  rewrite (keep_mask_np_where' _ lap : keep_mask (length lap)
            (np_where (negb <$> all_ge0 lap)) = all_ge0 lap) in Hget3.
  exists (compress (all_ge0 lap) lap). split; [|apply compress_all_ge0].
  change (rows_of (_mesh g') "links_at_patch" = Ok (compress (all_ge0 lap) lap)).
  apply rows_of_Ok. eauto.
Qed.

Lemma unique_keys_decide {V} (d : list (string * V)) :
  bool_decide (NoDup (dict_keys d)) = true → unique_keys d.
Proof. apply bool_decide_eq_true_1. Qed.

(** With corner 2 unbound, face 2 is left with both corner slots at the
    sentinel and is still a row of [corners_at_face] after [drop_corners];
    link 2 is the row that went. *)
Lemma drop_corners_keeps_open_faces :
  (g ← drop_corners [2] triangle_open;
   caf ← corners_at_face g; nal ← nodes_at_link g; Ok (caf, nal))
  = Ok ([[-1; 0]; [-1; 1]; [-1; -1]; [0; -1]; [0; 1]; [1; -1]],
        [[0; 1]; [1; 2]; [0; 3]; [1; 3]; [2; 3]]).
Proof. vm_compute. reflexivity. Qed.

Lemma drop_corners_cascade_witness :
  ∃ m1 caf,
    drop_element [2] corner (_mesh triangle_open) = Ok m1 ∧
    rows_of m1 "corners_at_face" = Ok caf ∧
    corners_at_face (from_ok empty_graph (drop_corners [2] triangle_open)) = Ok caf ∧
    nodes_at_link (from_ok empty_graph (drop_corners [2] triangle_open))
    = Ok (compress (keep_mask 6 (np_where (negb <$> any_ne (-1) caf)))
            [[0; 1]; [1; 2]; [0; 2]; [0; 3]; [1; 3]; [2; 3]]) ∧
    ∃ lap, links_at_patch (from_ok empty_graph (drop_corners [2] triangle_open)) = Ok lap
           ∧ Forall (Forall (λ l, 0 ≤ l)) lap.
Proof.
  apply (drop_corners_cascade triangle_open _ [2]
           [[0; 1]; [1; 2]; [0; 2]; [0; 3]; [1; 3]; [2; 3]]).
  - apply unique_keys_decide. vm_compute. reflexivity.
  - vm_compute. reflexivity.
  - vm_compute. reflexivity.
Defined.

(** * Construction without [perimeter_links] *)

Section without_perimeter_links.
Variable map_sorted_rolling_pairs :
  list (list Z) → list Z → ndarray Z → result (ndarray Z).
Variable pair_isin_sorted_list :
  list (list Z) → list (list Z) → list Z → result (list bool).

Lemma assemble_None_attr q self :
  assemble map_sorted_rolling_pairs q None = Ok self → _perimeter_links self = Unset.
Proof.
  unfold assemble. intros H.
  repeat (apply bind_Ok in H as (? & ? & H)). injection H as <-. simpl.
  match goal with H : Ok Unset = Ok _ |- _ => by injection H as <- end.
Qed.

(** C4, as the code has it: with [perimeter_links] omitted the construction
    never returns a graph; it raises. *)
Theorem construction_without_perimeter_links_raises (q : Qhull) :
  ∃ e, VoronoiDelaunayToGraph map_sorted_rolling_pairs pair_isin_sorted_list q None
       = Raise e.
Proof.
  unfold VoronoiDelaunayToGraph.
  destruct (assemble map_sorted_rolling_pairs q None) as [self|e] eqn:Ha; simpl; [|eauto].
  apply assemble_None_attr in Ha. unfold reduce, unbound_corners.
  destruct (is_perimeter_face self) as [ipf|e]; simpl; [|eauto].
  unfold is_perimeter_link. rewrite Ha. simpl. eauto.
Qed.

End without_perimeter_links.

(** On the small mesh the exception is the [AttributeError] of reading the
    attribute that was never assigned. *)
Example triangle_without_perimeter_links :
  build triangle_with_centre None = Raise AttributeError.
Proof. vm_compute. reflexivity. Qed.

(** * References stay inside the new index space *)

Lemma count_below_all n ids :
  Forall (λ i, 0 ≤ i < Z.of_nat n) ids →
  count_below ids (Z.of_nat n) = Z.of_nat (length ids).
Proof.
  intros Hv. unfold count_below. f_equal. f_equal.
  induction Hv as [|i ids Hi _ IH]; [done|].
  rewrite filter_cons, decide_True by lia. by rewrite IH.
Qed.

Lemma count_below_none ids v :
  Forall (λ i, 0 ≤ i) ids → v ≤ 0 → count_below ids v = 0.
Proof.
  intros Hv Hneg. unfold count_below.
  induction Hv as [|i ids Hi _ IH]; [done|].
  rewrite filter_cons, decide_False by lia. apply IH.
Qed.

Lemma new_count n ids :
  valid_ids n ids →
  Z.of_nat (n - length ids) = Z.of_nat n - Z.of_nat (length ids) ∧
  rank ids n = (n - length ids)%nat.
Proof.
  intros Hv. pose proof (rank_total n ids Hv) as Hr.
  pose proof (rank_count_below ids n (proj1 Hv) (valid_ids_nonneg _ _ Hv)) as Hc.
  rewrite (count_below_all n ids (proj2 Hv)) in Hc. split; [lia|done].
Qed.

Lemma renumber_elem_range n ids v :
  valid_ids n ids → -1 ≤ v < Z.of_nat n →
  -1 ≤ renumber_elem (merge_sort Z.le ids) v < Z.of_nat (n - length ids).
Proof.
  intros Hv Hrange. pose proof (valid_ids_nonneg _ _ Hv) as Hpos.
  destruct (new_count n ids Hv) as [Hcnt Hrank].
  rewrite renumber_elem_spec by (done || apply Hv).
  case_decide as Hout; [lia|].
  destruct (decide (v = -1)) as [->|Hne].
  - rewrite count_below_none by (done || lia). lia.
  - assert (Hvn : ∃ c : nat, v = Z.of_nat c) by (exists (Z.to_nat v); lia).
    destruct Hvn as [c ->].
    rewrite <- rank_count_below by (done || apply Hv).
    assert (rank ids (S c) ≤ rank ids n)%nat as Hle by (apply rank_mono; lia).
    rewrite rank_S, decide_True in Hle by done. lia.
Qed.

Lemma values_len_renumber ids v : values_len (renumber ids v) = values_len v.
Proof.
  pose proof (values_shape_renumber ids v) as H.
  destruct v as [a|a]; simpl in *; by injection H.
Qed.

Lemma values_len_compress n ids v :
  values_len v = n → values_len (compress_values (keep_mask n ids) v) = rank ids n.
Proof.
  intros <-. destruct v as [a|a]; simpl; apply length_compress_keep.
Qed.

(** * The index space after [drop_element] *)

Lemma drop_element_index_space (ids : list Z) (at_ : kind) (mesh mesh' : Dataset) (n : nat) :
  unique_keys (variables mesh) →
  ds_dim mesh (kind_name at_) = Ok n →
  valid_ids n ids →
  drop_element ids at_ mesh = Ok mesh' →
  (* an axis has one length throughout the mesh *)
  consistent (variables mesh') = true ∧
  (* the per-element arrays keep the kept rows, in their order *)
  (∀ name var, dict_get name (variables mesh) = Some var →
     suffix_search at_ name = true →
     ∃ var', dict_get name (variables mesh') = Some var' ∧
             dims var' = dims var ∧
             values_len (data var') = (n - length ids)%nat ∧
             data var' =
               let kept := compress_values (keep_mask n ids) (data var) in
               if prefix_search at_ name then renumber (merge_sort Z.le ids) kept
               else kept) ∧
  (* the ids of a kind with coordinates are 0..new_count-1 *)
  (kind_name at_ ∈ coord_names mesh →
     elems_of mesh' (kind_name at_) = Ok (arange (n - length ids)) ∧
     ∃ xs ys,
       dict_get (x_of at_) (variables mesh) = Some xs ∧
       dict_get (y_of at_) (variables mesh) = Some ys ∧
       dict_get (x_of at_) (variables mesh')
       = Some (XVar [kind_name at_] (compress_values (keep_mask n ids) (data xs))) ∧
       dict_get (y_of at_) (variables mesh')
       = Some (XVar [kind_name at_] (compress_values (keep_mask n ids) (data ys)))) ∧
  (* a reference into the old index space is one into the new *)
  (∀ name dims a, prefix_search at_ name = true →
     dict_get name (variables mesh) = Some (XVar dims (Ints a)) →
     Forall (Forall (λ v, -1 ≤ v < Z.of_nat n)) (rows a) →
     ∃ a', dict_get name (variables mesh') = Some (XVar dims (Ints a')) ∧
           Forall (Forall (λ v, -1 ≤ v < Z.of_nat (n - length ids))) (rows a')).
Proof.
  intros Hu Hn Hv Hd.
  destruct (drop_element_lookup _ _ _ _ Hu Hd)
    as (n' & mask & Hn' & Hmask & _ & Hcons & Hlook & Hlen & Hcoord).
  rewrite Hn in Hn'. injection Hn' as <-.
  apply (drop_element_mask _ _ _ Hv) in Hmask as ->.
  destruct (new_count n ids Hv) as [_ Hrank].
  split_and!.
  - done.
  - intros name var Hget Hs.
    assert (H1 : name ≠ x_of at_) by (intros ->; by rewrite suffix_search_x_of in Hs).
    assert (H2 : name ≠ y_of at_) by (intros ->; by rewrite suffix_search_y_of in Hs).
    assert (H3 : name ≠ kind_name at_)
      by (intros ->; by rewrite suffix_search_kind_name in Hs).
    specialize (Hlen _ _ Hget H1 H2 Hs). rewrite length_keep_mask in Hlen.
    rewrite (Hlook name H1 H2 H3), Hget. simpl. eexists. split; [done|].
    unfold update_var. rewrite Hs. simpl. split_and!; [done| |done].
    destruct (prefix_search at_ name);
      rewrite ?values_len_renumber, values_len_compress by done; done.
  - intros Hc. rewrite decide_True in Hcoord by done.
    destruct Hcoord as (xs & ys & Hxs & Hys & Hlx & Hly & Hk & Hx & Hy).
    rewrite length_keep_mask in Hlx.
    rewrite values_len_compress, Hrank in Hk by done. split.
    + apply elems_of_Ok. do 2 eexists. split; [exact Hk|].
      generalize (arange (n - length ids)). intros l.
      induction l as [|z l IH]; [done|]. rewrite fmap_cons. simpl. by f_equal.
    + exists xs, ys. done.
  - intros name dims a Hp Hget Hrange.
    destruct (drop_element_refs _ _ _ _ _ Hu Hn Hv Hd name dims a Hp Hget)
      as (a' & Hget' & _ & _).
    exists a'. split; [done|].
    assert (H1 : name ≠ x_of at_) by (intros ->; by rewrite prefix_search_x_of in Hp).
    assert (H2 : name ≠ y_of at_) by (intros ->; by rewrite prefix_search_y_of in Hp).
    assert (H3 : name ≠ kind_name at_)
      by (intros ->; by rewrite prefix_search_kind_name in Hp).
    rewrite (Hlook name H1 H2 H3), Hget in Hget'. simpl in Hget'.
    unfold update_var in Hget'. rewrite Hp in Hget'. simpl in Hget'.
    assert (Hsub : Forall (Forall (λ v, -1 ≤ v < Z.of_nat n))
              (rows (if suffix_search at_ name
                     then NdArray (tail a) (compress (keep_mask n ids) (rows a))
                     else a))).
    { destruct (suffix_search at_ name); [|done]. simpl.
      clear -Hrange. revert Hrange. generalize (keep_mask n ids) as mk.
      intros mk. revert mk. induction (rows a) as [|r rs IH]; intros [|[] mk] Hr;
        simpl; try constructor; apply Forall_cons in Hr as [? ?]; auto. }
    assert (Ha' : a' = renumber_ints (merge_sort Z.le ids)
              (if suffix_search at_ name
               then NdArray (tail a) (compress (keep_mask n ids) (rows a)) else a)).
    { destruct (suffix_search at_ name); simpl in Hget'; by injection Hget' as <-. }
    rewrite Ha', renumber_ints_elem. simpl.
    apply Forall_fmap. eapply Forall_impl; [exact Hsub|]. intros row Hrow. simpl.
    apply Forall_fmap. eapply Forall_impl; [exact Hrow|]. intros v Hvr. simpl.
    by apply renumber_elem_range.
Qed.

(** * The assembled mesh *)

Lemma concat_singletons {A} (l : list A) : concat ((λ x, [x]) <$> l) = l.
Proof. induction l as [|x l IH]; [done|]. rewrite fmap_cons. simpl. by f_equal. Qed.

Section assembled.
Variable map_sorted_rolling_pairs :
  list (list Z) → list Z → ndarray Z → result (ndarray Z).

Lemma assemble_Ok q pl self :
  assemble map_sorted_rolling_pairs q pl = Ok self →
  ∃ lap fac,
    variables (_mesh self) = assembled_variables q lap fac ∧
    consistent (variables (_mesh self)) = true.
Proof.
  unfold assemble, VoronoiDelaunay, new_dataset. intros H.
  apply bind_Ok in H as (m0 & Hm0 & H).
  apply bind_Ok in Hm0 as (m00 & Hm00 & Hm0).
  apply ds_update_Ok in Hm00 as [Hv00 _]. apply ds_update_Ok in Hm0 as [Hv0 _].
  rewrite Hv00 in Hv0. clear Hv00 m00.
  apply bind_Ok in H as (attr & _ & H).
  apply bind_Ok in H as (nal & _ & H).
  apply bind_Ok in H as (nap & _ & H).
  apply bind_Ok in H as (lap & _ & H).
  apply bind_Ok in H as (can & Hcan & H).
  apply bind_Ok in H as (can' & Hcan' & H).
  apply bind_Ok in H as (m1 & Hm1 & H).
  apply bind_Ok in H as (caf & _ & H).
  apply bind_Ok in H as (cac & _ & H).
  apply bind_Ok in H as (fac & _ & H).
  apply bind_Ok in H as (m2 & Hm2 & H). injection H as <-. simpl.
  apply ds_update_Ok in Hm1 as [Hv1 _]. apply ds_update_Ok in Hm2 as [Hv2 Hc2].
  exists lap, fac. split; [|done].
  assert (can' = point_region q) as ->.
  { unfold ds_values in Hcan. rewrite Hv0 in Hcan.
    injection Hcan as <-. simpl in Hcan'. injection Hcan' as <-.
    apply concat_singletons. }
  rewrite Hv2, Hv1, Hv0. reflexivity.
Qed.

End assembled.

Lemma assembled_unique q lap fac : unique_keys (assembled_variables q lap fac).
Proof. apply unique_keys_decide. reflexivity. Qed.

(** * The length of an axis of a consistent mesh *)

Lemma dict_get_elem_of {V} (d : list (string * V)) k v :
  dict_get k d = Some v → (k, v) ∈ d.
Proof.
  induction d as [|[k' v'] d IH]; simpl; [done|].
  destruct (decide (k = k')) as [->|]; [intros [= ->]; left|right; auto].
Qed.

Lemma elem_of_dict_get {V} (d : list (string * V)) k v :
  (k, v) ∈ d → is_Some (dict_get k d).
Proof.
  intros Hin. destruct (dict_get k d) eqn:Hg; [eauto|].
  apply dict_get_None in Hg. destruct Hg. apply list_elem_of_fmap.
  by exists (k, v).
Qed.

Lemma consistent_ds_dim (m : Dataset) name d ds v :
  consistent (variables m) = true →
  dict_get name (variables m) = Some (XVar (d :: ds) v) →
  ds_dim m d = Ok (values_len v).
Proof.
  intros Hc Hget. unfold consistent in Hc. apply andb_true_iff in Hc as [_ Hc].
  assert (Hin : (d, values_len v) ∈ sizes (variables m)).
  { unfold sizes. apply list_elem_of_bind. exists (name, XVar (d :: ds) v).
    split; [|by apply dict_get_elem_of]. simpl. unfold var_sizes. simpl.
    destruct v as [a|a]; simpl; left. }
  unfold ds_dim. destruct (elem_of_dict_get _ _ _ Hin) as [sz Hsz]. rewrite Hsz.
  apply dict_get_elem_of in Hsz. unfold sizes_agree in Hc.
  rewrite forallb_forall in Hc. apply list_elem_of_In, Hc in Hsz.
  rewrite forallb_forall in Hsz. apply list_elem_of_In, Hsz in Hin.
  apply bool_decide_eq_true in Hin. simpl in Hin. by rewrite Hin.
Qed.

(** * The id arrays of the nodes and the corners *)

Lemma kind_name_frame k k' :
  k' ≠ k →
  suffix_search k (kind_name k') = false ∧ prefix_search k (kind_name k') = false ∧
  kind_name k' ≠ x_of k ∧ kind_name k' ≠ y_of k ∧ kind_name k' ≠ kind_name k.
Proof. by destruct k, k'. Qed.

Lemma drop_element_id_array ids k m m' k' :
  unique_keys (variables m) → drop_element ids k m = Ok m' →
  id_array m k' → id_array m' k'.
Proof.
  intros Hu Hd [n Hn]. destruct (decide (k' = k)) as [->|Hne].
  - destruct (drop_element_lookup _ _ _ _ Hu Hd)
      as (n' & mask & _ & _ & _ & _ & _ & _ & Hcoord).
    destruct (decide (kind_name k ∈ coord_names m)).
    + destruct Hcoord as (xs & ys & _ & _ & _ & _ & Hk & _). eexists. exact Hk.
    + exists n. rewrite Hcoord, Hn. simpl.
      by rewrite update_var_eta
        by auto using suffix_search_kind_name, prefix_search_kind_name.
  - exists n. destruct (kind_name_frame k k' Hne) as (? & ? & ? & ? & ?).
    by rewrite (drop_element_frame _ _ _ _ Hu Hd).
Qed.

Lemma id_array_elems (m : Dataset) k :
  consistent (variables m) = true → id_array m k →
  ∃ n, ds_dim m (kind_name k) = Ok n ∧ elems_of m (kind_name k) = Ok (arange n).
Proof.
  intros Hc [n Hn]. exists n. split.
  - rewrite (consistent_ds_dim _ _ _ _ _ Hc Hn). simpl.
    unfold array1. simpl. by rewrite length_fmap, length_arange.
  - apply elems_of_Ok. do 2 eexists. split; [exact Hn|]. by rewrite concat_singletons.
Qed.

(** * The five calls of the reduction *)

Section reduction.
Variable pair_isin_sorted_list :
  list (list Z) → list (list Z) → list Z → result (list bool).

Lemma reduce_Ok (self g : Graph) :
  reduce pair_isin_sorted_list self = Ok g →
  ∃ ids1 ids2 ids3 ids4 ipc m1 m2 m3 m4,
    drop_element ids1 corner (_mesh self) = Ok m1 ∧
    drop_element ids2 link m1 = Ok m2 ∧
    drop_element ids3 patch m2 = Ok m3 ∧
    drop_element ids4 face m3 = Ok m4 ∧
    is_perimeter_cell (MkGraph m4 (_perimeter_links self)) = Ok ipc ∧
    drop_element (np_where ipc) cell m4 = Ok (_mesh g).
Proof.
  unfold reduce, drop_corners, drop_perimeter_faces, drop_perimeter_cells, drop_from.
  intros H.
  apply bind_Ok in H as (ids1 & _ & H).
  apply bind_Ok in H as (g3 & Hg3 & H).
  apply bind_Ok in Hg3 as (g1 & Hg1 & Hg3).
  apply bind_Ok in Hg1 as (m1 & Hm1 & Hg1). injection Hg1 as <-.
  apply bind_Ok in Hg3 as (? & _ & Hg3). apply bind_Ok in Hg3 as (caf & _ & Hg3).
  apply bind_Ok in Hg3 as (g2 & Hg2 & Hg3).
  apply bind_Ok in Hg2 as (m2 & Hm2 & Hg2). injection Hg2 as <-.
  apply bind_Ok in Hg3 as (? & _ & Hg3). apply bind_Ok in Hg3 as (lap & _ & Hg3).
  apply bind_Ok in Hg3 as (m3 & Hm3 & Hg3). injection Hg3 as <-.
  apply bind_Ok in H as (g4 & Hg4 & H).
  apply bind_Ok in Hg4 as (ipf & _ & Hg4).
  apply bind_Ok in Hg4 as (m4 & Hm4 & Hg4). injection Hg4 as <-.
  apply bind_Ok in H as (ipc & Hipc & H).
  apply bind_Ok in H as (m5 & Hm5 & H). injection H as <-.
  simpl in *. eauto 15.
Qed.

End reduction.

(** * The index spaces after the pipeline *)

Section pipeline.
Variable map_sorted_rolling_pairs :
  list (list Z) → list Z → ndarray Z → result (ndarray Z).
Variable pair_isin_sorted_list :
  list (list Z) → list (list Z) → list Z → result (list bool).

Lemma pipeline_index_spaces q pl g :
  VoronoiDelaunayToGraph map_sorted_rolling_pairs pair_isin_sorted_list q pl = Ok g →
  consistent (variables (_mesh g)) = true ∧
  ∀ k, k = node ∨ k = corner →
    ∃ n, ds_dim (_mesh g) (kind_name k) = Ok n ∧
         elems_of (_mesh g) (kind_name k) = Ok (arange n).
Proof.
  unfold VoronoiDelaunayToGraph. intros H.
  apply bind_Ok in H as (self & Hself & H).
  apply assemble_Ok in Hself as (lap & fac & Hvars & _).
  apply reduce_Ok in H
    as (ids1 & ids2 & ids3 & ids4 & ipc & m1 & m2 & m3 & m4 &
        H1 & H2 & H3 & H4 & _ & H5).
  assert (Hu0 : unique_keys (variables (_mesh self)))
    by (rewrite Hvars; apply assembled_unique).
  pose proof (drop_element_unique _ _ _ _ Hu0 H1) as Hu1.
  pose proof (drop_element_unique _ _ _ _ Hu1 H2) as Hu2.
  pose proof (drop_element_unique _ _ _ _ Hu2 H3) as Hu3.
  pose proof (drop_element_unique _ _ _ _ Hu3 H4) as Hu4.
  pose proof (drop_element_consistent _ _ _ _ Hu4 H5) as Hc.
  split; [done|]. intros k Hk. apply id_array_elems; [done|].
  eapply drop_element_id_array; [exact Hu4|exact H5|].
  eapply drop_element_id_array; [exact Hu3|exact H4|].
  eapply drop_element_id_array; [exact Hu2|exact H3|].
  eapply drop_element_id_array; [exact Hu1|exact H2|].
  eapply drop_element_id_array; [exact Hu0|exact H1|].
  unfold id_array. rewrite Hvars. destruct Hk as [-> | ->]; eexists; reflexivity.
Qed.

End pipeline.

(** C1: [drop_element(ids, kind)] leaves the index space of the kind
    contiguous: every per-element array of the kind holds the kept rows in
    their original order and has [count - len(ids)] of them, the ids of a kind
    with coordinates are [0..new_count-1], every axis has one length
    throughout the mesh, and references into the old index space are
    references into the new one.  After the whole pipeline every axis of the
    mesh has one length and the node and corner ids are [0..count-1]. *)
Theorem index_spaces_contiguous :
  (∀ (ids : list Z) (at_ : kind) (mesh mesh' : Dataset) (n : nat),
     unique_keys (variables mesh) →
     ds_dim mesh (kind_name at_) = Ok n →
     valid_ids n ids →
     drop_element ids at_ mesh = Ok mesh' →
     consistent (variables mesh') = true ∧
     (∀ name var, dict_get name (variables mesh) = Some var →
        suffix_search at_ name = true →
        ∃ var', dict_get name (variables mesh') = Some var' ∧
                dims var' = dims var ∧
                values_len (data var') = (n - length ids)%nat ∧
                data var' =
                  let kept := compress_values (keep_mask n ids) (data var) in
                  if prefix_search at_ name then renumber (merge_sort Z.le ids) kept
                  else kept) ∧
     (kind_name at_ ∈ coord_names mesh →
        elems_of mesh' (kind_name at_) = Ok (arange (n - length ids)) ∧
        ∃ xs ys,
          dict_get (x_of at_) (variables mesh) = Some xs ∧
          dict_get (y_of at_) (variables mesh) = Some ys ∧
          dict_get (x_of at_) (variables mesh')
          = Some (XVar [kind_name at_] (compress_values (keep_mask n ids) (data xs))) ∧
          dict_get (y_of at_) (variables mesh')
          = Some (XVar [kind_name at_] (compress_values (keep_mask n ids) (data ys)))) ∧
     (∀ name dims a, prefix_search at_ name = true →
        dict_get name (variables mesh) = Some (XVar dims (Ints a)) →
        Forall (Forall (λ v, -1 ≤ v < Z.of_nat n)) (rows a) →
        ∃ a', dict_get name (variables mesh') = Some (XVar dims (Ints a')) ∧
              Forall (Forall (λ v, -1 ≤ v < Z.of_nat (n - length ids))) (rows a'))) ∧
  (∀ map_sorted_rolling_pairs pair_isin_sorted_list q perimeter_links g,
     VoronoiDelaunayToGraph map_sorted_rolling_pairs pair_isin_sorted_list
       q perimeter_links = Ok g →
     consistent (variables (_mesh g)) = true ∧
     ∀ k, k = node ∨ k = corner →
       ∃ n, ds_dim (_mesh g) (kind_name k) = Ok n ∧
            elems_of (_mesh g) (kind_name k) = Ok (arange n)).
Proof.
  split.
  - apply drop_element_index_space.
  - apply pipeline_index_spaces.
Qed.

(** * The inverse of a one-to-one mapping *)






Lemma compress_fmap {X Y} (f : X → Y) (mask : list bool) (xs : list X) :
  compress mask (f <$> xs) = f <$> compress mask xs.
Proof.
  revert xs. induction mask as [|b mask IH]; intros [|x xs]; try done.
  rewrite fmap_cons. simpl. destruct b; rewrite IH; done.
Qed.

(** * Nodes and cells after the pipeline *)


Section node_cell.
Variable map_sorted_rolling_pairs :
  list (list Z) → list Z → ndarray Z → result (ndarray Z).
Variable pair_isin_sorted_list :
  list (list Z) → list (list Z) → list Z → result (list bool).


End node_cell.

(** * The theorems at work on the small mesh *)

Lemma valid_ids_decide n ids :
  bool_decide (NoDup ids) = true →
  forallb (λ i, bool_decide (0 ≤ i < Z.of_nat n)) ids = true →
  valid_ids n ids.
Proof.
  intros Hnd Hv. split; [revert Hnd; apply bool_decide_eq_true_1|].
  apply Forall_forall. intros i Hi. rewrite forallb_forall in Hv.
  apply list_elem_of_In, Hv in Hi. revert Hi. apply bool_decide_eq_true_1.
Qed.

Lemma drop_element_renumbers_witness :
  ∃ a',
    dict_get "corners_at_face"
      (variables (from_ok (MkDataset [] [])
                    (drop_element [2] corner (_mesh triangle_open))))
    = Some (XVar ["face"; "Two"] (Ints a')) ∧
    tail a' = [2%nat] ∧
    Forall2 (Forall2 (renumbered [2]))
      (if suffix_search corner "corners_at_face"
       then compress (keep_mask 3 [2])
              [[-1; 0]; [-1; 1]; [-1; 2]; [0; 2]; [0; 1]; [1; 2]]
       else [[-1; 0]; [-1; 1]; [-1; 2]; [0; 2]; [0; 1]; [1; 2]])
      (rows a').
Proof.
  assert (Hu : unique_keys (variables (_mesh triangle_open)))
    by (apply unique_keys_decide; reflexivity).
  assert (Hv : valid_ids 3 [2]) by (apply valid_ids_decide; reflexivity).
  assert (Hd : drop_element [2] corner (_mesh triangle_open)
               = Ok (from_ok (MkDataset [] [])
                       (drop_element [2] corner (_mesh triangle_open))))
    by (vm_compute; reflexivity).
  exact (drop_element_renumbers [2] corner (_mesh triangle_open) _ 3
           Hu eq_refl Hv Hd "corners_at_face" ["face"; "Two"]
           (NdArray [2%nat] [[-1; 0]; [-1; 1]; [-1; 2]; [0; 2]; [0; 1]; [1; 2]])
           eq_refl eq_refl).
Defined.

Lemma drop_element_order_insensitive_witness :
  drop_element [2; 0] corner (_mesh triangle_open)
  = drop_element [0; 2] corner (_mesh triangle_open).
Proof.
  apply (drop_element_order_insensitive [2; 0] [0; 2] corner (_mesh triangle_open)).
  apply perm_swap.
Defined.

Lemma index_spaces_contiguous_witness :
  consistent (variables (_mesh (from_ok empty_graph
      (build triangle_with_centre (Some [0; 1; 1; 2; 2; 0]))))) = true ∧
  ∀ k, k = node ∨ k = corner →
    ∃ n, ds_dim (_mesh (from_ok empty_graph
                  (build triangle_with_centre (Some [0; 1; 1; 2; 2; 0]))))
           (kind_name k) = Ok n ∧
         elems_of (_mesh (from_ok empty_graph
                  (build triangle_with_centre (Some [0; 1; 1; 2; 2; 0]))))
           (kind_name k) = Ok (arange n).
Proof.
  apply (proj2 index_spaces_contiguous rolling_pairs_lookup pair_in_list
           triangle_with_centre (Some [0; 1; 1; 2; 2; 0])).
  vm_compute. reflexivity.
Defined.



(** Where the links are not as many as the faces, the two classifications
    cannot be compared and [unbound_corners] raises instead of returning
    corners: on the graph that the constructor returns for the small mesh
    (three faces left, six links), and on the small mesh once corner 2 is
    dropped (six faces, five links). *)
Lemma unbound_corners_misaligned :
  (g ← build triangle_with_centre (Some [0; 1; 1; 2; 2; 0]);
   ipf ← is_perimeter_face g; ipl ← is_perimeter_link pair_in_list g;
   Ok (ipf, ipl, unbound_corners pair_in_list g))
  = Ok ([false; false; false], [true; true; true; false; false; false],
        Raise ValueError) ∧
  (g ← drop_corners [2] triangle_open;
   ipf ← is_perimeter_face g; ipl ← is_perimeter_link pair_in_list g;
   Ok (ipf, ipl, unbound_corners pair_in_list g))
  = Ok ([true; true; true; true; false; true], [true; true; false; false; false],
        Raise ValueError).
Proof. split; vm_compute; reflexivity. Qed.

Lemma unbound_corners_spec_witness :
  ∃ cs,
    unbound_corners pair_in_list triangle_open = Ok cs ∧
    ∀ c, c ∈ cs ↔
         0 ≤ c ∧ ∃ (f : nat) row,
           [[-1; 0]; [-1; 1]; [-1; 2]; [0; 2]; [0; 1]; [1; 2]] !! f = Some row ∧
           c ∈ row ∧
           [true; true; true; false; false; false] !! f = Some true ∧
           [true; true; false; false; false; false] !! f = Some false.
Proof.
  apply (unbound_corners_spec pair_in_list triangle_open
           [[-1; 0]; [-1; 1]; [-1; 2]; [0; 2]; [0; 1]; [1; 2]]
           [true; true; true; false; false; false]
           [true; true; false; false; false; false]
           eq_refl eq_refl eq_refl eq_refl).
Defined.

Lemma is_perimeter_cell_spec_witness :
  ∃ ipc,
    is_perimeter_cell triangle_open = Ok ipc ∧
    length ipc = 5%nat ∧
    ∀ (c : nat) row n,
      [[-1; -1; -1]; [-1; 0; 2]; [-1; 0; 1]; [-1; 1; 2]; [0; 1; 2]] !! c = Some row →
      [0; 3; 3; 3; 3] !! c = Some n →
      ipc !! c = Some (bool_decide (-1 ∈ take (Z.to_nat n) row ∨ n < 3)).
Proof.
  apply (is_perimeter_cell_spec triangle_open
           [[-1; -1; -1]; [-1; 0; 2]; [-1; 0; 1]; [-1; 1; 2]; [0; 1; 2]]
           [0; 3; 3; 3; 3] eq_refl eq_refl eq_refl).
Defined.

(** * Runs that end alike *)

Lemma agree_refl {A} (R : A → A → Prop) (r : result A) :
  (∀ a, R a a) → agree R r r.
Proof. intros HR. destruct r; simpl; auto. Qed.

Lemma agree_eq {A} (r1 r2 : result A) : r1 = r2 → agree eq r1 r2.
Proof. intros ->. by apply agree_refl. Qed.

Lemma agree_bind {A B} (RA : A → A → Prop) (RB : B → B → Prop)
    (r1 r2 : result A) (f1 f2 : A → result B) :
  agree RA r1 r2 →
  (∀ a1 a2, r1 = Ok a1 → r2 = Ok a2 → RA a1 a2 → agree RB (f1 a1) (f2 a2)) →
  agree RB (r1 ≫= f1) (r2 ≫= f2).
Proof.
  destruct r1 as [a1|e1], r2 as [a2|e2]; simpl; try done. intros HR Hf. by apply Hf.
Qed.

Lemma agree_impl {A} (R R' : A → A → Prop) (r1 r2 : result A) :
  agree R r1 r2 → (∀ a b, r1 = Ok a → r2 = Ok b → R a b → R' a b) → agree R' r1 r2.
Proof. destruct r1, r2; simpl; try done. intros HR Hi. by apply Hi. Qed.

(** * Dictionaries up to the order of their items *)

Section dict_perm.
Context {V : Type}.
Implicit Types (d : list (string * V)).

Lemma unique_keys_NoDup d : unique_keys d → NoDup d.
Proof. intros Hu. by apply (NoDup_fmap_1 fst). Qed.

Lemma unique_keys_perm d d' : d ≡ₚ d' → unique_keys d → unique_keys d'.
Proof. unfold unique_keys, dict_keys. by intros ->. Qed.

Lemma dict_get_Some_iff d k v :
  unique_keys d → dict_get k d = Some v ↔ (k, v) ∈ d.
Proof.
  intros Hu. split; [apply dict_get_elem_of|].
  induction d as [|[k' v'] d IH]; [by rewrite elem_of_nil|].
  apply unique_keys_cons in Hu as [Hk Hu]. rewrite elem_of_cons. simpl.
  intros [[= -> ->]|Hin]; [by rewrite decide_True|].
  rewrite decide_False; [by apply IH|].
  intros ->. apply Hk. apply list_elem_of_fmap. by exists (k', v).
Qed.

Lemma dict_get_perm d d' k :
  unique_keys d → d ≡ₚ d' → dict_get k d = dict_get k d'.
Proof.
  intros Hu Hp. pose proof (unique_keys_perm _ _ Hp Hu) as Hu'.
  destruct (dict_get k d) as [v|] eqn:Hg.
  - symmetry. apply dict_get_Some_iff; [done|]. rewrite <- Hp.
    by apply dict_get_Some_iff.
  - symmetry. apply dict_get_None. apply dict_get_None in Hg.
    unfold dict_keys in *. by rewrite <- Hp.
Qed.

Lemma perm_of_lookups d d' :
  unique_keys d → unique_keys d' →
  (∀ k, dict_get k d = dict_get k d') → d ≡ₚ d'.
Proof.
  intros Hu Hu' Hg. apply NoDup_Permutation; [by apply unique_keys_NoDup..|].
  intros [k v]. by rewrite <- !dict_get_Some_iff, Hg.
Qed.

End dict_perm.

(** * The sizes of the axes up to the order of the variables *)

Lemma forallb_perm {A} (f : A → bool) (l l' : list A) :
  l ≡ₚ l' → forallb f l = forallb f l'.
Proof.
  induction 1 as [|x l l' _ IH|x y l|l l' l'' _ IH1 _ IH2]; simpl.
  - done.
  - by rewrite IH.
  - by destruct (f x), (f y).
  - congruence.
Qed.

Lemma forallb_ext' {A} (f g : A → bool) (l : list A) :
  (∀ x, f x = g x) → forallb f l = forallb g l.
Proof. intros H. induction l as [|x l IH]; simpl; [done|]. by rewrite H, IH. Qed.

Lemma sizes_agree_perm (sz sz' : list (string * nat)) :
  sz ≡ₚ sz' → sizes_agree sz = sizes_agree sz'.
Proof.
  intros Hp. unfold sizes_agree. rewrite (forallb_perm _ _ _ Hp).
  apply forallb_ext'. intros dn. by apply forallb_perm.
Qed.

Lemma consistent_perm (vars vars' : list (string * xvar)) :
  vars ≡ₚ vars' → consistent vars = consistent vars'.
Proof.
  intros Hp. unfold consistent. f_equal; [by apply forallb_perm|].
  apply sizes_agree_perm. unfold sizes. by rewrite Hp.
Qed.

Lemma sizes_agree_get (sz : list (string * nat)) d n :
  sizes_agree sz = true → dict_get d sz = Some n ↔ (d, n) ∈ sz.
Proof.
  intros Hc. split; [apply dict_get_elem_of|]. intros Hin.
  destruct (elem_of_dict_get _ _ _ Hin) as [n' Hn']. rewrite Hn'.
  apply dict_get_elem_of in Hn'. unfold sizes_agree in Hc.
  rewrite forallb_forall in Hc. apply list_elem_of_In, Hc in Hn'.
  rewrite forallb_forall in Hn'. apply list_elem_of_In, Hn' in Hin.
  apply bool_decide_eq_true in Hin. simpl in Hin. by rewrite Hin.
Qed.

Lemma ds_dim_perm (m1 m2 : Dataset) d :
  consistent (variables m1) = true → variables m1 ≡ₚ variables m2 →
  ds_dim m1 d = ds_dim m2 d.
Proof.
  intros Hc Hp. pose proof Hc as Hc'. rewrite (consistent_perm _ _ Hp) in Hc'.
  unfold consistent in Hc, Hc'.
  apply andb_true_iff in Hc as [_ Hc]. apply andb_true_iff in Hc' as [_ Hc'].
  assert (Hs : sizes (variables m1) ≡ₚ sizes (variables m2))
    by (unfold sizes; by rewrite Hp).
  unfold ds_dim.
  destruct (dict_get d (sizes (variables m1))) as [n|] eqn:Hg.
  - apply sizes_agree_get in Hg; [|done]. rewrite Hs in Hg.
    apply sizes_agree_get in Hg; [|done]. by rewrite Hg.
  - destruct (dict_get d (sizes (variables m2))) as [n|] eqn:Hg'; [|done].
    apply sizes_agree_get in Hg'; [|done]. rewrite <- Hs in Hg'.
    apply sizes_agree_get in Hg'; [|done]. congruence.
Qed.

(** * The invariant and the equivalence *)

Lemma well_formed_equiv m1 m2 : ds_equiv m1 m2 → well_formed m1 → well_formed m2.
Proof.
  intros [Hp _] [Hu Hc]. split; [by eapply unique_keys_perm|].
  by rewrite <- (consistent_perm _ _ Hp).
Qed.

Lemma ds_values_equiv m1 m2 name :
  well_formed m1 → ds_equiv m1 m2 → ds_values m1 name = ds_values m2 name.
Proof.
  intros [Hu _] [Hp _]. unfold ds_values. by rewrite (dict_get_perm _ _ name Hu Hp).
Qed.

Lemma ds_equiv_of_lookups m1 m2 :
  unique_keys (variables m1) → unique_keys (variables m2) →
  (∀ k, dict_get k (variables m1) = dict_get k (variables m2)) →
  (∀ c, c ∈ coord_names m1 ↔ c ∈ coord_names m2) →
  ds_equiv m1 m2.
Proof. intros Hu1 Hu2 Hg Hc. split; [by apply perm_of_lookups|done]. Qed.

(** * Writing under fresh names appends *)

Lemma dict_set_new {V} (d : list (string * V)) k v :
  k ∉ dict_keys d → dict_set k v d = d ++ [(k, v)].
Proof.
  induction d as [|[k' v'] d IH]; simpl; [done|].
  rewrite not_elem_of_cons. intros [Hne Hk].
  rewrite decide_False by done. by rewrite IH.
Qed.

Lemma dict_keys_app {V} (d d' : list (string * V)) :
  dict_keys (d ++ d') = dict_keys d ++ dict_keys d'.
Proof. unfold dict_keys. apply fmap_app. Qed.

Lemma set_all_fresh {V} (base ws : list (string * V)) :
  NoDup (dict_keys ws) → (∀ k, k ∈ dict_keys ws → k ∉ dict_keys base) →
  foldl (λ vs (cv : string * V), dict_set cv.1 cv.2 vs) base ws = base ++ ws.
Proof.
  revert base. induction ws as [|[k v] ws IH]; intros base Hnd Hf; simpl.
  - by rewrite app_nil_r.
  - apply unique_keys_cons in Hnd as [Hk Hnd].
    rewrite dict_set_new by (apply Hf; left).
    rewrite IH; [by rewrite <- (assoc_L (++))|done|].
    intros k' Hk'. rewrite dict_keys_app, not_elem_of_app. split.
    + apply Hf. by right.
    + simpl. rewrite elem_of_cons, elem_of_nil. intros [->|[]]. done.
Qed.

Lemma add_dataarray_fresh base item :
  NoDup (dict_keys (stored item)) →
  (∀ k, k ∈ dict_keys (stored item) → k ∉ dict_keys base) →
  add_dataarray base item = base ++ stored item.
Proof.
  unfold stored, add_dataarray. rewrite dict_keys_app. simpl.
  intros Hnd Hf. apply NoDup_app in Hnd as (Hc & Hdis & _).
  rewrite set_all_fresh; [|done|].
  - rewrite dict_set_new; [by rewrite <- (assoc_L (++))|].
    rewrite dict_keys_app, not_elem_of_app. split.
    + apply Hf. rewrite elem_of_app. right. left.
    + intros Hin. apply (Hdis _ Hin). left.
  - intros k Hk. apply Hf. rewrite elem_of_app. by left.
Qed.

Lemma add_all_fresh base (other : list (string * DataArray)) :
  NoDup (dict_keys (other ≫= stored)) →
  (∀ k, k ∈ dict_keys (other ≫= stored) → k ∉ dict_keys base) →
  foldl add_dataarray base other = base ++ (other ≫= stored).
Proof.
  revert base. induction other as [|item other IH]; intros base Hnd Hf; cbn [foldl].
  - by rewrite app_nil_r.
  - rewrite bind_cons, dict_keys_app in Hnd, Hf.
    apply NoDup_app in Hnd as (Hi & Hdis & Ho).
    rewrite add_dataarray_fresh; [|done|].
    + rewrite IH; [by rewrite bind_cons, <- (assoc_L (++))|done|].
      intros k Hk. rewrite dict_keys_app, not_elem_of_app. split.
      * apply Hf. rewrite elem_of_app. by right.
      * intros Hin. by apply (Hdis _ Hin).
    + intros k Hk. apply Hf. rewrite elem_of_app. by left.
Qed.

(** * The coordinate names after an update *)

Lemma add_names_elem (cs new : list string) c :
  c ∈ foldl (λ cs c, if decide (c ∈ cs) then cs else cs ++ [c]) cs new
  ↔ c ∈ cs ∨ c ∈ new.
Proof.
  revert cs. induction new as [|x new IH]; intros cs; simpl.
  - rewrite elem_of_nil. tauto.
  - rewrite IH, elem_of_cons. destruct (decide (x ∈ cs)) as [Hx|Hx].
    + split; [tauto|]. intros [?|[->|?]]; tauto.
    + rewrite elem_of_app, list_elem_of_singleton. tauto.
Qed.

(** * [update] and [drop] up to the order of the variables *)

Lemma ds_update_equiv (other1 other2 : list (string * DataArray)) (m1 m2 : Dataset) :
  ds_equiv m1 m2 → other1 ≡ₚ other2 →
  NoDup (dict_keys (other1 ≫= stored)) →
  (∀ k, k ∈ dict_keys (other1 ≫= stored) → k ∉ dict_keys (variables m1)) →
  agree ds_equiv (ds_update other1 m1) (ds_update other2 m2).
Proof.
  intros [Hp Hc] Ho Hnd Hf.
  assert (Hs : other1 ≫= stored ≡ₚ other2 ≫= stored) by (by rewrite Ho).
  assert (Hv : foldl add_dataarray (variables m1) other1
               ≡ₚ foldl add_dataarray (variables m2) other2).
  { rewrite !add_all_fresh.
    - by rewrite Hp, Hs.
    - unfold dict_keys in *. by rewrite <- Hs.
    - intros k Hk. unfold dict_keys in *. rewrite <- Hp. apply Hf. by rewrite Hs.
    - done.
    - done. }
  unfold ds_update. rewrite <- (consistent_perm _ _ Hv).
  destruct (consistent _); simpl; [|done]. split; [done|]. simpl.
  intros c. rewrite !add_names_elem, !elem_of_app, !list_elem_of_filter.
  rewrite Hc.
  assert (He : ∀ x, x ∈ other1 ≫= (λ item, dict_keys (da_coords item.2))
                  ↔ x ∈ other2 ≫= (λ item, dict_keys (da_coords item.2)))
    by (intros x; by rewrite Ho).
  rewrite He.
  assert (Hk : ∀ x, x ∈ dict_keys (foldl add_dataarray (variables m1) other1)
                  ↔ x ∈ dict_keys (foldl add_dataarray (variables m2) other2))
    by (intros x; unfold dict_keys; by rewrite Hv).
  assert (Hz : ∀ x, x ∈ dict_keys (sizes (foldl add_dataarray (variables m1) other1))
                  ↔ x ∈ dict_keys (sizes (foldl add_dataarray (variables m2) other2)))
    by (intros x; unfold dict_keys, sizes; by rewrite Hv).
  rewrite Hk, Hz. done.
Qed.

Lemma ds_drop_equiv (names names' : list string) (m1 m2 : Dataset) :
  ds_equiv m1 m2 → names ≡ₚ names' →
  agree ds_equiv (ds_drop names m1) (ds_drop names' m2).
Proof.
  intros [Hp Hc] Hn. unfold ds_drop.
  assert (Hk : ∀ x, x ∈ dict_keys (variables m1) ↔ x ∈ dict_keys (variables m2))
    by (intros x; unfold dict_keys; by rewrite Hp).
  assert (Hm : ∀ x, x ∈ names ↔ x ∈ names') by (intros x; by rewrite Hn).
  destruct (decide (Forall (λ n, n ∈ dict_keys (variables m1)) names)) as [H1|H1];
    destruct (decide (Forall (λ n, n ∈ dict_keys (variables m2)) names')) as [H2|H2];
    simpl; try done.
  - split; simpl.
    + rewrite Hp.
      rewrite (list_filter_iff (λ nv : string * xvar, nv.1 ∉ names)
                 (λ nv : string * xvar, nv.1 ∉ names')); [done|].
      intros [n v]. simpl. by rewrite Hm.
    + intros c. rewrite !list_elem_of_filter, Hc, Hm. done.
  - destruct H2. rewrite Forall_forall in H1 |- *. intros x Hx.
    apply Hk, H1, Hm, Hx.
  - destruct H1. rewrite Forall_forall in H2 |- *. intros x Hx.
    apply Hk, H2, Hm, Hx.
Qed.

(** * The collected rows up to the order of the variables *)

Lemma mapR_perm {A B} (f : A → result B) (e0 : exn) (l l' : list A) :
  (∀ a e, f a = Raise e → e = e0) → l ≡ₚ l' →
  agree (≡ₚ) (mapR f l) (mapR f l').
Proof.
  intros He. assert (Hall : ∀ l e, mapR f l = Raise e → e = e0).
  { clear l l'. induction l as [|a l IH]; intros e; simpl; [done|].
    destruct (f a) as [b|e'] eqn:Hfa; simpl; [|intros [= <-]; by eapply He].
    destruct (mapR f l) as [bs|e'']; simpl; [done|]. intros [= <-]. by apply IH. }
  induction 1 as [|x l l' _ IH|x y l|l l' l'' _ IH1 _ IH2]; simpl.
  - done.
  - destruct (f x) as [b|e]; simpl; [|done].
    destruct (mapR f l) as [bs|e], (mapR f l') as [bs'|e']; simpl in *; try done.
    by constructor.
  - destruct (f x) as [b|e] eqn:Hx, (f y) as [c|e'] eqn:Hy;
      destruct (mapR f l) as [bs|e'']; simpl; try done.
    + apply perm_swap.
    + apply He in Hx, Hy. congruence.
    + apply He in Hx, Hy. congruence.
  - destruct (mapR f l) as [bs|e] eqn:H1, (mapR f l') as [bs'|e'] eqn:H2,
      (mapR f l'') as [bs''|e''] eqn:H3; simpl in *; try done; try congruence.
    by etrans.
Qed.

Lemma kept_item_error mask nv e : kept_item mask nv = Raise e → e = IndexError.
Proof.
  unfold kept_item, values_getitem_mask, getitem_mask.
  destruct (data nv.2) as [a|a]; destruct (decide _); simpl; try done;
    by intros [= <-].
Qed.

Lemma kept_items_perm k mask vars vars' :
  vars ≡ₚ vars' → agree (≡ₚ) (kept_items k mask vars) (kept_items k mask vars').
Proof.
  intros Hp. unfold kept_items. apply (mapR_perm _ IndexError).
  - apply kept_item_error.
  - by rewrite Hp.
Qed.

Lemma kept_items_keys k mask vars items :
  kept_items k mask vars = Ok items →
  dict_keys items
  = dict_keys (filter (λ nv : string * xvar, suffix_search k nv.1 = true) vars) ∧
  Forall (λ item : string * DataArray, da_coords item.2 = []) items.
Proof.
  unfold kept_items.
  generalize (filter (λ nv : string * xvar, suffix_search k nv.1 = true) vars).
  intros l. revert items. induction l as [|nv l IH]; intros items; simpl.
  - intros [= <-]. split; [done|constructor].
  - intros H. apply bind_Ok in H as (it & Hit & H).
    apply bind_Ok in H as (its & Hits & H). injection H as <-.
    destruct (IH _ Hits) as [Hk Hc].
    unfold kept_item in Hit. apply bind_Ok in Hit as (v & _ & Hit).
    injection Hit as <-. split; [|by constructor].
    unfold dict_keys in *. rewrite !fmap_cons. simpl. by f_equal.
Qed.

Lemma keep_rows_app k mask vars acc :
  unique_keys vars →
  (∀ n, n ∈ dict_keys vars → suffix_search k n = true → n ∉ dict_keys acc) →
  keep_rows k mask vars acc = (λ items, acc ++ items) <$> kept_items k mask vars.
Proof.
  unfold kept_items, kept_item. revert acc.
  induction vars as [|[n0 var0] vars IH]; intros acc Hu Hf; simpl.
  - by rewrite app_nil_r.
  - apply unique_keys_cons in Hu as [Hn0 Hu]. rewrite filter_cons. simpl.
    destruct (suffix_search k n0) eqn:Hs.
    + rewrite decide_True by done. cbn [mapR]. simpl.
      destruct (values_getitem_mask (data var0) mask) as [v|e]; simpl; [|done].
      rewrite dict_set_new by (apply Hf; [left|done]).
      rewrite IH; [|done|].
      * destruct (mapR _ _) as [items|e]; simpl; [|done].
        by rewrite <- (assoc_L (++)).
      * intros n Hn Hsn. rewrite dict_keys_app, not_elem_of_app. split.
        -- apply Hf; [by right|done].
        -- simpl. rewrite elem_of_cons, elem_of_nil. intros [->|[]]. done.
    + rewrite decide_False by done. apply IH; [done|].
      intros n Hn. apply Hf. by right.
Qed.

(** * [drop_element] up to the order of the variables *)

Lemma stored_no_coords (items : list (string * DataArray)) :
  Forall (λ item : string * DataArray, da_coords item.2 = []) items →
  dict_keys (items ≫= stored) = dict_keys items.
Proof.
  induction 1 as [|[n da] items Hc _ IH]; [done|].
  rewrite bind_cons, dict_keys_app, IH. unfold stored. simpl in *. by rewrite Hc.
Qed.

Lemma elem_of_filtered_keys (k : kind) (vars : list (string * xvar)) n :
  n ∈ dict_keys (filter (λ nv : string * xvar, suffix_search k nv.1 = true) vars)
  ↔ n ∈ dict_keys vars ∧ suffix_search k n = true.
Proof.
  unfold dict_keys. rewrite !list_elem_of_fmap. split.
  - intros ([n' v] & -> & Hin). apply list_elem_of_filter in Hin as [Hs Hin].
    split; [|done]. by exists (n', v).
  - intros [([n' v] & -> & Hin) Hs]. exists (n', v). split; [done|].
    by apply list_elem_of_filter.
Qed.

Lemma dropped_keys (names : list string) (vars : list (string * xvar)) key :
  key ∈ dict_keys (filter (λ nv : string * xvar, nv.1 ∉ names) vars) → key ∉ names.
Proof.
  unfold dict_keys. intros ([n v] & -> & Hin)%list_elem_of_fmap.
  by apply list_elem_of_filter in Hin as [Hnot _].
Qed.

Lemma renumber_refs_equiv k ids (m1 m2 : Dataset) :
  ds_equiv m1 m2 →
  ds_equiv (MkDataset (renumber_refs k ids (variables m1)) (coord_names m1))
           (MkDataset (renumber_refs k ids (variables m2)) (coord_names m2)).
Proof. intros [Hp Hc]. split; simpl; [|done]. unfold renumber_refs. by rewrite Hp. Qed.

(** The part of [drop_element] after the coordinates have been dealt with. *)
Lemma drop_tail_equiv (k : kind) (ids : list Z) (mask : list bool)
    (at0 : list (string * DataArray)) (m1 m2 : Dataset) :
  unique_keys (variables m1) → ds_equiv m1 m2 →
  NoDup (dict_keys (at0 ≫= stored)) →
  (∀ key, key ∈ dict_keys (at0 ≫= stored) →
     suffix_search k key = false ∧
     (key ∈ dict_keys (variables m1) → key ∈ dict_keys at0)) →
  (∀ key, key ∈ dict_keys at0 → key ∈ dict_keys (at0 ≫= stored)) →
  agree ds_equiv
    (at_vars ← keep_rows k mask (variables m1) at0;
     mesh ← ds_drop (dict_keys at_vars) m1;
     mesh ← ds_update at_vars mesh;
     Ok (MkDataset (renumber_refs k ids (variables mesh)) (coord_names mesh)))
    (at_vars ← keep_rows k mask (variables m2) at0;
     mesh ← ds_drop (dict_keys at_vars) m2;
     mesh ← ds_update at_vars mesh;
     Ok (MkDataset (renumber_refs k ids (variables mesh)) (coord_names mesh))).
Proof.
  intros Hu1 He Hnd Hat Hsub.
  pose proof (unique_keys_perm _ _ (proj1 He) Hu1) as Hu2.
  assert (Hfresh : ∀ (vars : list (string * xvar)) n,
             n ∈ dict_keys vars → suffix_search k n = true → n ∉ dict_keys at0).
  { intros vars n _ Hs Hin. apply Hsub, Hat in Hin as [Hs' _]. congruence. }
  rewrite !keep_rows_app by eauto.
  pose proof (kept_items_perm k mask _ _ (proj1 He)) as Hk.
  destruct (kept_items k mask (variables m1)) as [items1|e1] eqn:Hk1,
           (kept_items k mask (variables m2)) as [items2|e2] eqn:Hk2;
    simpl in Hk |- *; try done.
  assert (Hnames : dict_keys (at0 ++ items1) ≡ₚ dict_keys (at0 ++ items2))
    by (unfold dict_keys; by rewrite Hk).
  pose proof (ds_drop_equiv _ _ _ _ He Hnames) as Hd.
  destruct (ds_drop (dict_keys (at0 ++ items1)) m1) as [d1|e1] eqn:Hd1,
           (ds_drop (dict_keys (at0 ++ items2)) m2) as [d2|e2] eqn:Hd2;
    simpl in Hd |- *; try done.
  apply ds_drop_Ok in Hd1.
  destruct (kept_items_keys _ _ _ _ Hk1) as [Hkeys Hnoc].
  assert (Hup : agree ds_equiv (ds_update (at0 ++ items1) d1)
                               (ds_update (at0 ++ items2) d2)).
  { apply ds_update_equiv; [done|by rewrite Hk| |].
    - rewrite bind_app, dict_keys_app, (stored_no_coords _ Hnoc).
      apply NoDup_app. split_and!; [done| |].
      + intros key Hkey Hin. rewrite Hkeys in Hin.
        apply elem_of_filtered_keys in Hin as [_ Hs].
        apply Hat in Hkey as [Hs' _]. congruence.
      + rewrite Hkeys. apply (unique_keys_filter (V:=xvar)). done.
    - intros key Hkey Hin. rewrite Hd1 in Hin.
      unfold dict_keys in Hin. apply list_elem_of_fmap in Hin as ([n v] & -> & Hin).
      apply list_elem_of_filter in Hin as [Hnot Hin]. cbn [fst] in *. apply Hnot.
      change (n ∈ dict_keys (at0 ++ items1)). rewrite dict_keys_app, elem_of_app.
      rewrite bind_app, dict_keys_app, elem_of_app in Hkey.
      destruct Hkey as [Hkey|Hkey].
      + left. apply Hat; [done|]. apply list_elem_of_fmap. by exists (n, v).
      + right. by rewrite (stored_no_coords _ Hnoc) in Hkey. }
  destruct (ds_update (at0 ++ items1) d1) as [u1|e1],
           (ds_update (at0 ++ items2) d2) as [u2|e2]; simpl in Hup |- *; try done.
  by apply renumber_refs_equiv.
Qed.

Lemma drop_element_equiv (ids : list Z) (k : kind) (m1 m2 : Dataset) :
  well_formed m1 → ds_equiv m1 m2 →
  agree ds_equiv (drop_element ids k m1) (drop_element ids k m2).
Proof.
  intros Hwf He. pose proof Hwf as [Hu Hc]. unfold drop_element.
  rewrite (ds_dim_perm m1 m2 _ Hc (proj1 He)).
  destruct (ds_dim m2 (kind_name k)) as [n|e]; simpl; [|done].
  destruct (setitem_false _ _) as [mask|e]; simpl; [|done].
  destruct (decide (kind_name k ∈ coord_names m1)) as [Hin|Hin].
  - rewrite decide_True by (by apply He).
    rewrite <- !(ds_values_equiv m1 m2 _ Hwf He).
    destruct (ds_values m1 (x_of k)) as [xs|e]; simpl; [|done].
    destruct (values_getitem_mask xs mask) as [x|e]; simpl; [|done].
    destruct (ds_values m1 (y_of k)) as [ys|e]; simpl; [|done].
    destruct (values_getitem_mask ys mask) as [y|e]; simpl; [|done].
    pose proof (ds_drop_equiv [x_of k; y_of k] [x_of k; y_of k] _ _ He
                  (reflexivity _)) as Hd.
    destruct (ds_drop [x_of k; y_of k] m1) as [d1|e1] eqn:Hd1,
             (ds_drop [x_of k; y_of k] m2) as [d2|e2] eqn:Hd2;
      simpl in Hd |- *; try done.
    apply ds_drop_Ok in Hd1.
    assert (Hkeys : dict_keys
        ([(kind_name k,
           MkDataArray (Ints (array1 (arange (values_len x)))) [kind_name k]
             [(x_of k, XVar [kind_name k] x); (y_of k, XVar [kind_name k] y)])]
         ≫= stored) = [x_of k; y_of k; kind_name k]) by done.
    apply drop_tail_equiv; [rewrite Hd1; by apply unique_keys_filter|done| | |].
    + rewrite Hkeys. pose proof (x_of_ne_y_of k). pose proof (x_of_ne_kind_name k).
      pose proof (y_of_ne_kind_name k).
      apply NoDup_cons; split; [rewrite !elem_of_cons, elem_of_nil; intuition congruence|].
      apply NoDup_cons; split; [rewrite !elem_of_cons, elem_of_nil; intuition congruence|].
      apply NoDup_singleton.
    + intros key. rewrite Hkeys, !elem_of_cons, elem_of_nil.
      intros [->|[->|[->|[]]]].
      * split; [apply suffix_search_x_of|]. rewrite Hd1.
        intros Hk%dropped_keys. destruct Hk. left.
      * split; [apply suffix_search_y_of|]. rewrite Hd1.
        intros Hk%dropped_keys. destruct Hk. right. left.
      * split; [apply suffix_search_kind_name|]. intros _. left.
    + intros key Hk. rewrite Hkeys. simpl in Hk.
      apply list_elem_of_singleton in Hk as ->. right. right. left.
  - rewrite decide_False by (by rewrite <- (proj2 He)).
    apply drop_tail_equiv; [done|done|apply NoDup_nil_2| |].
    + intros key Hk. by apply elem_of_nil in Hk.
    + intros key Hk. by apply elem_of_nil in Hk.
Qed.

(** * The reduction up to the order of the variables *)

Lemma same_content_arrays g1 g2 : same_content g1 g2 → same_arrays g1 g2.
Proof. intros (Hwf & He & _) name. by apply ds_values_equiv. Qed.

Lemma same_content_reversed g : well_formed (_mesh g) → same_content g (reversed g).
Proof.
  intros Hwf. split_and!; [done| |done]. split; simpl; [|done].
  symmetry. apply reverse_Permutation.
Qed.

Section reduction_equiv.
Variable pair_isin_sorted_list :
  list (list Z) → list (list Z) → list Z → result (list bool).

Context (g1 g2 : Graph).
Hypothesis Hsame : same_content g1 g2.

Lemma is_perimeter_face_equiv : is_perimeter_face g1 = is_perimeter_face g2.
Proof.
  unfold is_perimeter_face, corners_at_face.
  by rewrite (same_content_arrays _ _ Hsame).
Qed.

Lemma is_perimeter_cell_equiv : is_perimeter_cell g1 = is_perimeter_cell g2.
Proof.
  unfold is_perimeter_cell, corners_at_cell, n_corners_at_cell.
  by rewrite !(same_content_arrays _ _ Hsame).
Qed.

Lemma is_perimeter_link_equiv :
  is_perimeter_link pair_isin_sorted_list g1 = is_perimeter_link pair_isin_sorted_list g2.
Proof.
  unfold is_perimeter_link, nodes_at_link.
  rewrite is_perimeter_face_equiv, (same_content_arrays _ _ Hsame).
  by destruct Hsame as (_ & _ & ->).
Qed.

Lemma unbound_corners_equiv :
  unbound_corners pair_isin_sorted_list g1 = unbound_corners pair_isin_sorted_list g2.
Proof.
  unfold unbound_corners.
  rewrite is_perimeter_face_equiv, is_perimeter_link_equiv.
  unfold corners_at_face. by rewrite (same_content_arrays _ _ Hsame).
Qed.

Lemma drop_from_equiv ids k :
  agree same_content (drop_from ids k g1) (drop_from ids k g2).
Proof.
  destruct Hsame as (Hwf & He & Hpl). unfold drop_from.
  pose proof (drop_element_equiv ids k _ _ Hwf He) as Hd.
  destruct (drop_element ids k (_mesh g1)) as [m1|e1] eqn:H1,
           (drop_element ids k (_mesh g2)) as [m2|e2] eqn:H2;
    simpl in Hd |- *; try done.
  split_and!; simpl; [|done|done].
  destruct Hwf as [Hu _]. split.
  - by eapply drop_element_unique.
  - by eapply drop_element_consistent.
Qed.

End reduction_equiv.

Section pipeline_equiv.
Variable pair_isin_sorted_list :
  list (list Z) → list (list Z) → list Z → result (list bool).

Lemma drop_corners_equiv corners g1 g2 :
  same_content g1 g2 →
  agree same_content (drop_corners corners g1) (drop_corners corners g2).
Proof.
  intros Hsame. unfold drop_corners.
  eapply agree_bind; [by apply drop_from_equiv|].
  intros a1 a2 _ _ Ha. rewrite (same_content_arrays _ _ Ha).
  destruct (ds_values (_mesh a2) "corners_at_face") as [caf|e]; simpl; [|done].
  destruct (int_rows caf) as [rows|e]; simpl; [|done].
  eapply agree_bind; [by apply drop_from_equiv|].
  intros b1 b2 _ _ Hb. rewrite (same_content_arrays _ _ Hb).
  destruct (ds_values (_mesh b2) "links_at_patch") as [lap|e]; simpl; [|done].
  destruct (int_rows lap) as [rows'|e]; simpl; [|done].
  by apply drop_from_equiv.
Qed.

Lemma drop_perimeter_faces_equiv g1 g2 :
  same_content g1 g2 →
  agree same_content (drop_perimeter_faces g1) (drop_perimeter_faces g2).
Proof.
  intros Hsame. unfold drop_perimeter_faces.
  rewrite (is_perimeter_face_equiv _ _ Hsame).
  destruct (is_perimeter_face g2) as [ipf|e]; simpl; [|done].
  by apply drop_from_equiv.
Qed.

Lemma drop_perimeter_cells_equiv g1 g2 :
  same_content g1 g2 →
  agree same_content (drop_perimeter_cells g1) (drop_perimeter_cells g2).
Proof.
  intros Hsame. unfold drop_perimeter_cells.
  rewrite (is_perimeter_cell_equiv _ _ Hsame).
  destruct (is_perimeter_cell g2) as [ipc|e]; simpl; [|done].
  by apply drop_from_equiv.
Qed.

Lemma reduce_equiv g1 g2 :
  same_content g1 g2 →
  agree same_content (reduce pair_isin_sorted_list g1)
                     (reduce pair_isin_sorted_list g2).
Proof.
  intros Hsame. unfold reduce.
  rewrite (unbound_corners_equiv _ _ _ Hsame).
  destruct (unbound_corners pair_isin_sorted_list g2) as [corners|e]; simpl; [|done].
  eapply agree_bind; [by apply drop_corners_equiv|].
  intros a1 a2 _ _ Ha.
  eapply agree_bind; [by apply drop_perimeter_faces_equiv|].
  intros b1 b2 _ _ Hb. by apply drop_perimeter_cells_equiv.
Qed.

End pipeline_equiv.

(** C8: the outcome of the pipeline does not depend on the order in which
    the dataset lists its variables, the only order that the loops of the
    reduction iterate over.  Take the object [self] that the construction
    assembled, and any object [self'] that holds the same variables in
    another order and the same perimeter links: the reduction fails on both
    with the same exception, or succeeds on both, and then every array of the
    two results, looked up by its name, is the same (coordinates and
    incidence arrays alike). *)
Theorem reduction_order_independent
    (map_sorted_rolling_pairs : list (list Z) → list Z → ndarray Z → result (ndarray Z))
    (pair_isin_sorted_list : list (list Z) → list (list Z) → list Z → result (list bool))
    (q : Qhull) (perimeter_links : option (list Z)) (self self' : Graph) :
  assemble map_sorted_rolling_pairs q perimeter_links = Ok self →
  ds_equiv (_mesh self) (_mesh self') →
  _perimeter_links self' = _perimeter_links self →
  agree same_arrays (reduce pair_isin_sorted_list self)
                    (reduce pair_isin_sorted_list self').
Proof.
  intros Hself He Hpl.
  apply assemble_Ok in Hself as (lap & fac & Hvars & Hc).
  assert (Hsame : same_content self self').
  { split_and!; [|done|done]. split; [|done]. rewrite Hvars. apply assembled_unique. }
  eapply agree_impl; [by apply reduce_equiv|].
  intros a b _ _ Hab. by apply same_content_arrays.
Qed.

Lemma reduction_order_independent_witness :
  agree same_arrays (reduce pair_in_list triangle_closed)
                    (reduce pair_in_list (reversed triangle_closed)).
Proof.
  apply (reduction_order_independent rolling_pairs_lookup pair_in_list
           triangle_with_centre (Some [0; 1; 1; 2; 2; 0])).
  - vm_compute. reflexivity.
  - split; simpl; [|done]. symmetry. apply reverse_Permutation.
  - reflexivity.
Defined.

(** * Index arrays that are out of range *)

Lemma normalize_index_error n i e : normalize_index n i = Raise e → e = IndexError.
Proof. unfold normalize_index. repeat case_decide; by intros [= <-]. Qed.

Lemma normalize_index_out n i :
  ¬ (- Z.of_nat n ≤ i < Z.of_nat n) → normalize_index n i = Raise IndexError.
Proof. intros H. unfold normalize_index. rewrite !decide_False by lia. done. Qed.

Lemma mapR_normalize_out n ids :
  Exists (λ i, ¬ (- Z.of_nat n ≤ i < Z.of_nat n)) ids →
  mapR (normalize_index n) ids = Raise IndexError.
Proof.
  induction ids as [|i ids IH]; intros H; [by apply Exists_nil in H|].
  cbn [mapR]. destruct (normalize_index n i) as [j|e] eqn:Hi.
  - apply Exists_cons in H as [H|H]; [by rewrite normalize_index_out in Hi|].
    simpl. by rewrite (IH H).
  - apply normalize_index_error in Hi as ->. done.
Qed.

Lemma setitem_false_out mask ids :
  Exists (λ i, ¬ (- Z.of_nat (length mask) ≤ i < Z.of_nat (length mask))) ids →
  setitem_false mask ids = Raise IndexError.
Proof. intros H. unfold setitem_false. by rewrite mapR_normalize_out. Qed.

Lemma np_where_none (mask : list bool) :
  Forall (λ b, b = false) mask → np_where mask = [].
Proof.
  unfold np_where. intros H. generalize 0.
  induction H as [|b mask -> _ IH]; intros s; [done|].
  simpl. apply IH.
Qed.

Lemma keep_mask_nil n : keep_mask n [] = replicate n true.
Proof.
  apply list_eq. intros i. destruct (decide (i < n)%nat) as [Hi|Hi].
  - rewrite lookup_keep_mask, (lookup_replicate_2 n true i Hi) by done.
    done.
  - rewrite (proj1 (lookup_replicate_None n true i)) by lia.
    apply lookup_ge_None. rewrite length_keep_mask. lia.
Qed.

(** * [is_bound_corner] *)

Section bound_corners.
Variable pair_isin_sorted_list :
  list (list Z) → list (list Z) → list Z → result (list bool).

Lemma unbound_corners_nonneg (self : Graph) cs :
  unbound_corners pair_isin_sorted_list self = Ok cs → Forall (λ c, 0 ≤ c) cs.
Proof.
  unfold unbound_corners. intros H.
  repeat (apply bind_Ok in H as (? & _ & H)). injection H as <-.
  apply Forall_forall. intros c Hc. apply list_elem_of_filter in Hc as [Hc _]. lia.
Qed.

(** [is_bound_corner] marks, over the corners of the mesh, the ones that
    [unbound_corners] does not return; a corner id beyond the corners of the
    mesh makes it raise [IndexError]. *)
Theorem is_bound_corner_spec (self : Graph) (n : nat) (cs : list Z) :
  ds_dim (_mesh self) "corner" = Ok n →
  unbound_corners pair_isin_sorted_list self = Ok cs →
  (Forall (λ c, c < Z.of_nat n) cs →
     is_bound_corner pair_isin_sorted_list self = Ok (keep_mask n cs)) ∧
  (¬ Forall (λ c, c < Z.of_nat n) cs →
     is_bound_corner pair_isin_sorted_list self = Raise IndexError).
Proof.
  intros Hn Hcs. pose proof (unbound_corners_nonneg _ _ Hcs) as Hpos.
  unfold is_bound_corner. rewrite Hn, Hcs. simpl. split.
  - intros Hlt. apply setitem_false_valid.
    apply Forall_forall. intros c Hc. rewrite Forall_forall in Hpos, Hlt.
    specialize (Hpos _ Hc). specialize (Hlt _ Hc). lia.
  - intros Hnot. apply setitem_false_out. rewrite length_replicate.
    apply not_Forall_Exists in Hnot; [|intros c; apply _].
    eapply Exists_impl; [done|]. simpl. lia.
Qed.

(** With the attribute holding [None], the links of the perimeter are taken
    to be the faces of the perimeter: no corner is unbound, and every corner
    is a bound one. *)
Theorem no_unbound_corners_by_default (self : Graph) (caf : list (list Z)) :
  _perimeter_links self = Assigned None →
  corners_at_face self = Ok caf →
  unbound_corners pair_isin_sorted_list self = Ok [] ∧
  ∀ n, ds_dim (_mesh self) "corner" = Ok n →
       is_bound_corner pair_isin_sorted_list self = Ok (replicate n true).
Proof.
  intros Hattr Hcaf.
  assert (Hu : unbound_corners pair_isin_sorted_list self = Ok []).
  { unfold unbound_corners, is_perimeter_link, is_perimeter_face.
    rewrite Hattr, Hcaf. simpl.
    rewrite broadcast2_same by done. simpl.
    rewrite broadcast2_same by (by rewrite length_zip_with, Nat.min_id). simpl.
    rewrite np_where_none; [done|].
    apply Forall_forall. intros b Hb.
    apply list_elem_of_lookup in Hb as [i Hb].
    apply lookup_zip_with_Some in Hb as (x & y & -> & Hx & Hy).
    apply lookup_zip_with_Some in Hy as (x1 & x2 & -> & Hx1 & Hx2).
    rewrite Hx1 in Hx2. injection Hx2 as <-. rewrite xorb_nilpotent.
    apply andb_false_r. }
  split; [done|]. intros n Hn.
  unfold is_bound_corner. rewrite Hn, Hu. simpl.
  rewrite setitem_false_valid by constructor. by rewrite keep_mask_nil.
Qed.

End bound_corners.

(** * [drop_element] at the edges of its domain *)

Lemma sizes_keys (vars : list (string * xvar)) d :
  d ∈ dict_keys (sizes vars) → ∃ name var, (name, var) ∈ vars ∧ d ∈ dims var.
Proof.
  unfold dict_keys, sizes. intros ([d' sz] & -> & Hin)%list_elem_of_fmap.
  apply list_elem_of_bind in Hin as ([name var] & Hin & Hnv).
  exists name, var. split; [done|]. unfold var_sizes in Hin. simpl in *.
  by apply elem_of_zip_l in Hin.
Qed.

Lemma compress_all {X} (xs : list X) : compress (replicate (length xs) true) xs = xs.
Proof. induction xs as [|x xs IH]; simpl; [done|]. by rewrite IH. Qed.

Lemma compress_values_all (v : values) :
  compress_values (replicate (values_len v) true) v = v.
Proof. destruct v as [[w rs]|[w rs]]; simpl; by rewrite compress_all. Qed.

Lemma ndarray_map_id {A} (f : A → A) (a : ndarray A) :
  (∀ x, f x = x) → ndarray_map f a = a.
Proof.
  intros Hf. destruct a as [w rs]. unfold ndarray_map. simpl. f_equal.
  induction rs as [|r rs IH]; [done|]. rewrite fmap_cons, IH. f_equal.
  induction r as [|x r IHr]; [done|]. by rewrite fmap_cons, Hf, IHr.
Qed.

Lemma renumber_nil (v : values) : renumber [] v = v.
Proof.
  destruct v as [a|a]; simpl; f_equal.
  - unfold renumber_ints. simpl. by apply ndarray_map_id.
  - unfold renumber_floats. simpl. by apply ndarray_map_id.
Qed.


Lemma setitem_false_nil mask : setitem_false mask [] = Ok mask.
Proof. done. Qed.

(** A reference that lies above every id by at least the number of ids is
    lowered once per id, whatever the ids are. *)
Lemma shift_down_all (l : list Z) (v : Z) :
  (∀ d, d ∈ l → d + Z.of_nat (length l) ≤ v) →
  foldl (λ v id_, shift_down id_ v) v l = v - Z.of_nat (length l).
Proof.
  revert v. induction l as [|d l IH]; intros v Hv; simpl; [lia|].
  assert (Hd : d + Z.of_nat (S (length l)) ≤ v) by (apply Hv; left).
  unfold shift_down at 2. rewrite decide_True by lia.
  rewrite IH; [lia|]. intros d' Hd'.
  assert (d' + Z.of_nat (S (length l)) ≤ v) by (apply Hv; by right). lia.
Qed.

Lemma renumber_elem_all (ids : list Z) (v : Z) :
  (∀ d, d ∈ ids → d + Z.of_nat (length ids) ≤ v) →
  renumber_elem (merge_sort Z.le ids) v = v - Z.of_nat (length ids).
Proof.
  intros Hv. unfold renumber_elem, mark_dropped.
  assert (Hp : merge_sort Z.le ids ≡ₚ ids) by apply merge_sort_Permutation.
  assert (Hl : length (reverse (merge_sort Z.le ids)) = length ids)
    by (by rewrite length_reverse, Hp).
  rewrite decide_False.
  - rewrite shift_down_all; [by rewrite Hl|].
    intros d Hd. rewrite Hl. apply Hv. by rewrite elem_of_reverse, Hp in Hd.
  - rewrite Hp. intros Hin. specialize (Hv _ Hin).
    destruct ids; [by apply elem_of_nil in Hin|]. simpl in Hv. lia.
Qed.

Lemma rank_remove_dups ids c : rank (remove_dups ids) c = rank ids c.
Proof.
  unfold rank. f_equal. apply list_filter_iff. intros i.
  by rewrite elem_of_remove_dups.
Qed.

Lemma keep_mask_remove_dups n ids : keep_mask n (remove_dups ids) = keep_mask n ids.
Proof.
  unfold keep_mask. apply list_fmap_ext. intros _ i _.
  apply bool_decide_ext. by rewrite elem_of_remove_dups.
Qed.

Lemma valid_ids_remove_dups n ids :
  Forall (λ i, 0 ≤ i < Z.of_nat n) ids → valid_ids n (remove_dups ids).
Proof.
  intros Hv. split; [apply NoDup_remove_dups|].
  rewrite Forall_forall in Hv |- *. intros i Hi. apply Hv.
  by apply elem_of_remove_dups.
Qed.

(** The mask of a call whose ids lie in [0, n), distinct or not. *)
Lemma drop_element_mask_in_range n ids mask :
  Forall (λ i, 0 ≤ i < Z.of_nat n) ids →
  setitem_false (replicate n true) (merge_sort Z.le ids) = Ok mask →
  mask = keep_mask n ids.
Proof.
  intros Hv Hm. rewrite setitem_false_valid in Hm.
  - injection Hm as <-. apply keep_mask_perm, merge_sort_Permutation.
  - by rewrite merge_sort_Permutation.
Qed.

(** The entries of a cross-referencing array after [drop_element], for any
    relation that the renumbering of one entry satisfies. *)
Lemma drop_element_entries (R : Z → Z → Prop) ids at_ mesh mesh' :
  unique_keys (variables mesh) →
  drop_element ids at_ mesh = Ok mesh' →
  (∀ v, R v (renumber_elem (merge_sort Z.le ids) v)) →
  ∃ n mask,
    ds_dim mesh (kind_name at_) = Ok n ∧
    setitem_false (replicate n true) (merge_sort Z.le ids) = Ok mask ∧
    ∀ name dims a,
      prefix_search at_ name = true →
      dict_get name (variables mesh) = Some (XVar dims (Ints a)) →
      ∃ a',
        dict_get name (variables mesh') = Some (XVar dims (Ints a')) ∧
        tail a' = tail a ∧
        Forall2 (Forall2 R)
          (if suffix_search at_ name then compress mask (rows a) else rows a)
          (rows a').
Proof.
  intros Hu Hd HR.
  destruct (drop_element_lookup _ _ _ _ Hu Hd)
    as (n & mask & Hn & Hmask & _ & _ & Hlook & _ & _).
  exists n, mask. split_and!; [done..|]. intros name dims a Hp Hget.
  assert (H1 : name ≠ x_of at_) by (intros ->; by rewrite prefix_search_x_of in Hp).
  assert (H2 : name ≠ y_of at_) by (intros ->; by rewrite prefix_search_y_of in Hp).
  assert (H3 : name ≠ kind_name at_)
    by (intros ->; by rewrite prefix_search_kind_name in Hp).
  rewrite (Hlook name H1 H2 H3), Hget. simpl. unfold update_var. rewrite Hp. simpl.
  assert (Hrows : ∀ rs : list (list Z),
    Forall2 (Forall2 R) rs
      ((λ row : list Z, renumber_elem (merge_sort Z.le ids) <$> row) <$> rs)).
  { intros rs. apply Forall2_fmap_r, Forall_Forall2_diag, Forall_forall.
    intros row _. apply Forall2_fmap_r, Forall_Forall2_diag, Forall_forall.
    intros v _. apply HR. }
  destruct (suffix_search at_ name); simpl;
    rewrite renumber_ints_elem; eexists; (split_and!; [done|done|apply Hrows]).
Qed.

(** [drop_element] on a kind that names no axis of the mesh raises
    [KeyError]; with an id outside [-n, n), where [n] is the number of
    elements of the kind, it raises [IndexError]. *)
Theorem drop_element_raises (ids : list Z) (at_ : kind) (mesh : Dataset) :
  ((∀ name var, (name, var) ∈ variables mesh → kind_name at_ ∉ dims var) →
     drop_element ids at_ mesh = Raise KeyError) ∧
  (∀ n : nat, ds_dim mesh (kind_name at_) = Ok n →
     Exists (λ i, ¬ (- Z.of_nat n ≤ i < Z.of_nat n)) ids →
     drop_element ids at_ mesh = Raise IndexError).
Proof.
  split.
  - intros Hno. unfold drop_element, ds_dim.
    destruct (dict_get _ _) as [sz|] eqn:Hg; [|done].
    apply dict_get_Some_key, sizes_keys in Hg as (name & var & Hin & Hd).
    by destruct (Hno _ _ Hin).
  - intros n Hn Hex. unfold drop_element. rewrite Hn. simpl.
    rewrite setitem_false_out; [done|]. rewrite length_replicate.
    apply Exists_exists in Hex as (i & Hi & Hout). apply Exists_exists.
    exists i. split; [|done]. by rewrite merge_sort_Permutation.
Qed.

(** A negative id counts from the end when the rows are removed, but not
    when the references are rewritten: [drop_element([i])] with
    [-n ≤ i < 0] removes row [n + i] of the arrays of the kind, and lowers
    every reference to an element of the kind by one, whichever element it
    refers to. *)
Theorem drop_element_negative_id (i : Z) (at_ : kind) (mesh mesh' : Dataset) (n : nat) :
  unique_keys (variables mesh) →
  ds_dim mesh (kind_name at_) = Ok n →
  - Z.of_nat n ≤ i < 0 →
  drop_element [i] at_ mesh = Ok mesh' →
  (∀ name var, dict_get name (variables mesh) = Some var →
     suffix_search at_ name = true → prefix_search at_ name = false →
     dict_get name (variables mesh')
     = Some (XVar (dims var)
               (compress_values (keep_mask n [i + Z.of_nat n]) (data var)))) ∧
  (∀ name dims a, prefix_search at_ name = true →
     dict_get name (variables mesh) = Some (XVar dims (Ints a)) →
     ∃ a', dict_get name (variables mesh') = Some (XVar dims (Ints a')) ∧
           Forall2 (Forall2 (λ v v', 0 ≤ v → v' = v - 1))
             (if suffix_search at_ name
              then compress (keep_mask n [i + Z.of_nat n]) (rows a) else rows a)
             (rows a')).
Proof.
  intros Hu Hn Hi Hd.
  assert (Hmask : setitem_false (replicate n true) (merge_sort Z.le [i])
                  = Ok (keep_mask n [i + Z.of_nat n])).
  { rewrite <- (setitem_false_valid n [i + Z.of_nat n])
      by (repeat constructor; lia).
    change (merge_sort Z.le [i]) with [i].
    unfold setitem_false. rewrite length_replicate. cbn [mapR].
    unfold normalize_index.
    rewrite (decide_False (P := 0 ≤ i < _)), (decide_True (P := - _ ≤ i < 0)) by lia.
    by rewrite (decide_True (P := 0 ≤ i + _ < _)) by lia. }
  split.
  - intros name var Hget Hs Hp.
    destruct (drop_element_kept _ _ _ _ Hu Hd name Hs Hp)
      as (n' & mask & Hn' & Hm & Hk).
    rewrite Hn in Hn'. injection Hn' as <-. rewrite Hmask in Hm. injection Hm as <-.
    by destruct (Hk _ Hget) as [_ ->].
  - destruct (drop_element_entries (λ v v', 0 ≤ v → v' = v - 1) _ _ _ _ Hu Hd)
      as (n' & mask & Hn' & Hm & Hrefs).
    { intros v Hv. change (merge_sort Z.le [i]) with [i].
      unfold renumber_elem, mark_dropped. simpl.
      rewrite decide_False by (rewrite list_elem_of_singleton; lia).
      unfold shift_down. by rewrite decide_True by lia. }
    rewrite Hn in Hn'. injection Hn' as <-. rewrite Hmask in Hm. injection Hm as <-.
    intros name dims a Hp Hget.
    destruct (Hrefs name dims a Hp Hget) as (a' & Ha' & _ & Hrows). eauto.
Qed.

(** With an id listed more than once, [drop_element] removes its row once
    but lowers the references once per listing: the arrays of the kind keep
    [n] minus the number of distinct ids rows, while a reference that lies
    above every id by at least the length of the list is lowered by that
    length. *)
Theorem drop_element_repeated_ids (ids : list Z) (at_ : kind) (mesh mesh' : Dataset)
    (n : nat) :
  unique_keys (variables mesh) →
  ds_dim mesh (kind_name at_) = Ok n →
  Forall (λ i, 0 ≤ i < Z.of_nat n) ids →
  drop_element ids at_ mesh = Ok mesh' →
  (∀ name var, dict_get name (variables mesh) = Some var →
     suffix_search at_ name = true →
     ∃ var', dict_get name (variables mesh') = Some var' ∧
             values_len (data var') = (n - length (remove_dups ids))%nat) ∧
  (∀ name dims a, prefix_search at_ name = true →
     dict_get name (variables mesh) = Some (XVar dims (Ints a)) →
     ∃ a', dict_get name (variables mesh') = Some (XVar dims (Ints a')) ∧
           Forall2 (Forall2 (λ v v',
               (∀ d, d ∈ ids → d + Z.of_nat (length ids) ≤ v) →
               v' = v - Z.of_nat (length ids)))
             (if suffix_search at_ name
              then compress (keep_mask n ids) (rows a) else rows a)
             (rows a')).
Proof.
  intros Hu Hn Hv Hd. split.
  - intros name var Hget Hs.
    destruct (drop_element_lookup _ _ _ _ Hu Hd)
      as (n' & mask & Hn' & Hmask & _ & _ & Hlook & Hlen & _).
    rewrite Hn in Hn'. injection Hn' as <-.
    apply (drop_element_mask_in_range _ _ _ Hv) in Hmask as ->.
    assert (H1 : name ≠ x_of at_) by (intros ->; by rewrite suffix_search_x_of in Hs).
    assert (H2 : name ≠ y_of at_) by (intros ->; by rewrite suffix_search_y_of in Hs).
    assert (H3 : name ≠ kind_name at_)
      by (intros ->; by rewrite suffix_search_kind_name in Hs).
    specialize (Hlen _ _ Hget H1 H2 Hs). rewrite length_keep_mask in Hlen.
    rewrite (Hlook name H1 H2 H3), Hget. simpl. eexists. split; [done|].
    unfold update_var. rewrite Hs. simpl.
    assert (Hk : values_len (compress_values (keep_mask n ids) (data var))
                 = (n - length (remove_dups ids))%nat).
    { rewrite <- (rank_total n (remove_dups ids)) by (by apply valid_ids_remove_dups).
      rewrite rank_remove_dups.
      destruct (data var) as [[w rs]|[w rs]]; simpl in *; subst n;
        apply length_compress_keep. }
    destruct (prefix_search at_ name); simpl; [|done].
    by rewrite values_len_renumber.
  - destruct (drop_element_entries
                (λ v v', (∀ d, d ∈ ids → d + Z.of_nat (length ids) ≤ v) →
                         v' = v - Z.of_nat (length ids)) _ _ _ _ Hu Hd)
      as (n' & mask & Hn' & Hm & Hrefs).
    { intros v Hall. by apply renumber_elem_all. }
    rewrite Hn in Hn'. injection Hn' as <-.
    apply (drop_element_mask_in_range _ _ _ Hv) in Hm as ->.
    intros name dims a Hp Hget.
    destruct (Hrefs name dims a Hp Hget) as (a' & Ha' & _ & Hrows). eauto.
Qed.

(** Dropping no element changes no array: every variable of the mesh reads
    as before, provided the ids of a kind with coordinates were [0..n-1]. *)
Theorem drop_nothing (at_ : kind) (mesh mesh' : Dataset) (n : nat) :
  unique_keys (variables mesh) →
  ds_dim mesh (kind_name at_) = Ok n →
  (kind_name at_ ∈ coord_names mesh →
     ds_values mesh (kind_name at_) = Ok (Ints (array1 (arange n)))) →
  drop_element [] at_ mesh = Ok mesh' →
  ∀ name, ds_values mesh' name = ds_values mesh name.
Proof.
  intros Hu Hn Hid Hd name.
  destruct (drop_element_lookup _ _ _ _ Hu Hd)
    as (n' & mask & Hn' & Hmask & _ & _ & Hlook & Hlen & Hco).
  rewrite Hn in Hn'. injection Hn' as <-.
  change (merge_sort Z.le []) with (@nil Z) in *.
  rewrite setitem_false_nil in Hmask. injection Hmask as <-.
  assert (Hsame : ∀ name,
            dict_get name (variables mesh')
            = update_var at_ [] (replicate n true) name <$> dict_get name (variables mesh) →
            ds_values mesh' name = ds_values mesh name).
  { intros nm Hl. unfold ds_values. rewrite Hl.
    destruct (dict_get nm (variables mesh)) as [var|] eqn:Hget; [|done]. simpl.
    f_equal. unfold update_var. simpl.
    assert (Hkept : (if suffix_search at_ nm
                     then compress_values (replicate n true) (data var)
                     else data var) = data var).
    { destruct (suffix_search at_ nm) eqn:Hs; [|done].
      assert (H1 : nm ≠ x_of at_) by (intros ->; by rewrite suffix_search_x_of in Hs).
      assert (H2 : nm ≠ y_of at_) by (intros ->; by rewrite suffix_search_y_of in Hs).
      specialize (Hlen _ _ Hget H1 H2 Hs). rewrite length_replicate in Hlen.
      rewrite Hlen. apply compress_values_all. }
    rewrite Hkept. destruct (prefix_search at_ nm); [apply renumber_nil|done]. }
  destruct (decide (kind_name at_ ∈ coord_names mesh)) as [Hc|Hc].
  - destruct Hco as (xs & ys & Hxs & Hys & Hlx & Hly & Hk' & Hx' & Hy').
    rewrite length_replicate in Hlx, Hly.
    destruct (decide (name = x_of at_)) as [->|H1].
    { unfold ds_values. rewrite Hx', Hxs. simpl. f_equal.
      rewrite Hlx. apply compress_values_all. }
    destruct (decide (name = y_of at_)) as [->|H2].
    { unfold ds_values. rewrite Hy', Hys. simpl. f_equal.
      rewrite Hly. apply compress_values_all. }
    destruct (decide (name = kind_name at_)) as [->|H3].
    { rewrite (Hid Hc). unfold ds_values. rewrite Hk'. simpl.
      rewrite Hlx at 1. by rewrite compress_values_all, <- Hlx. }
    apply Hsame. by apply Hlook.
  - apply Hsame, Hco.
Qed.

(** [drop_element] for one kind leaves alone what the naming convention
    does not tie to that kind: the perimeter links of the object, and every
    array whose name neither ends in [at_<kind>] nor starts with
    [<kind>_at_] or its plural, the ids and the coordinates of the kind
    apart. *)
Theorem drop_from_leaves_unrelated (ids : list Z) (at_ : kind) (self g : Graph) :
  unique_keys (variables (_mesh self)) →
  drop_from ids at_ self = Ok g →
  _perimeter_links g = _perimeter_links self ∧
  ∀ name, suffix_search at_ name = false → prefix_search at_ name = false →
    name ∉ [x_of at_; y_of at_; kind_name at_] →
    ds_values (_mesh g) name = ds_values (_mesh self) name.
Proof.
  intros Hu Hd. apply drop_from_Ok in Hd as [Hd Hpl]. split; [done|].
  intros name Hs Hp Hne. unfold ds_values.
  rewrite (drop_element_frame _ _ _ _ Hu Hd name Hs Hp); [done|..];
    intros ->; apply Hne; rewrite !elem_of_cons; auto.
Qed.

(** * Dropping the perimeter faces and cells *)

Lemma keep_mask_np_where_neg (bs : list bool) :
  keep_mask (length bs) (np_where bs) = negb <$> bs.
Proof.
  pose proof (keep_mask_np_where (negb <$> bs)) as H.
  rewrite length_fmap, <- list_fmap_compose in H.
  rewrite (list_fmap_ext (negb ∘ negb) id bs) in H.
  - by rewrite list_fmap_id in H.
  - intros _ b _. apply negb_involutive.
Qed.

Lemma compress_filter {X} (P : X → Prop) `{∀ x, Decision (P x)} (xs : list X) :
  compress ((λ x, bool_decide (P x)) <$> xs) xs = filter P xs.
Proof.
  induction xs as [|x xs IH]; [done|]. rewrite fmap_cons, filter_cons. simpl.
  rewrite IH. destruct (decide (P x)); [by rewrite bool_decide_true|by rewrite bool_decide_false].
Qed.

Lemma compress_zip_with {X Y W} (f : X → Y → W) (m : list bool) xs ys :
  compress m (zip_with f xs ys) = zip_with f (compress m xs) (compress m ys).
Proof.
  revert xs ys. induction m as [|b m IH]; intros [|x xs] [|y ys]; simpl; try done.
  - by destruct (if b then _ else _).
  - destruct b; simpl; by rewrite IH.
Qed.

Lemma length_compress_eq {X Y} (m : list bool) (xs : list X) (ys : list Y) :
  length xs = length ys → length (compress m xs) = length (compress m ys).
Proof.
  revert xs ys. induction m as [|b m IH]; intros [|x xs] [|y ys]; simpl; try done.
  intros [= Hl]. destruct b; simpl; by rewrite (IH _ _ Hl).
Qed.

Lemma compress_negb (bs : list bool) :
  Forall (λ b, b = false) (compress (negb <$> bs) bs).
Proof.
  induction bs as [|b bs IH]; simpl; [constructor|].
  destruct b; simpl; [done|]. by constructor.
Qed.

Lemma closed_rows (caf : list (list Z)) :
  negb <$> any_eq (-1) caf = (λ row : list Z, bool_decide (-1 ∉ row)) <$> caf.
Proof.
  unfold any_eq. rewrite <- list_fmap_compose. apply list_fmap_ext.
  intros _ row _. simpl. destruct (existsb _ row) eqn:He; simpl; symmetry.
  - apply bool_decide_false. intros Hn. apply Hn.
    apply existsb_exists in He as (x & Hx & Hb). apply bool_decide_eq_true in Hb.
    subst x. by apply list_elem_of_In.
  - apply bool_decide_true. intros Hin.
    assert (existsb (λ x : Z, bool_decide (x = -1)) row = true) as Ht; [|congruence].
    apply existsb_exists. exists (-1). split; [by apply list_elem_of_In|].
    by apply bool_decide_eq_true.
Qed.

Lemma any_eq_none (rs : list (list Z)) :
  Forall (λ row, -1 ∉ row) rs → Forall (λ b, b = false) (any_eq (-1) rs).
Proof.
  intros H. unfold any_eq. apply Forall_fmap. eapply Forall_impl; [done|].
  intros row Hrow. simpl. destruct (existsb _ row) eqn:He; [|done].
  apply existsb_exists in He as (x & Hx & Hb). apply bool_decide_eq_true in Hb.
  subst x. destruct Hrow. by apply list_elem_of_In.
Qed.

(** [drop_element(np.where(bs)[0], at=kind)] on the arrays of the kind, when
    [bs] was computed from an array of the kind. *)
Lemma drop_where_kept (bs : list bool) (k : kind) (m m' : Dataset)
    (anchor : string) (avar : xvar) :
  unique_keys (variables m) →
  drop_element (np_where bs) k m = Ok m' →
  dict_get anchor (variables m) = Some avar →
  suffix_search k anchor = true → prefix_search k anchor = false →
  values_len (data avar) = length bs →
  ∀ name var,
    suffix_search k name = true → prefix_search k name = false →
    dict_get name (variables m) = Some var →
    dict_get name (variables m')
    = Some (XVar (dims var) (compress_values (negb <$> bs) (data var))).
Proof.
  intros Hu Hd Ha Hsa Hpa Hla name var Hs Hp Hget.
  destruct (drop_element_kept _ _ _ _ Hu Hd anchor Hsa Hpa)
    as (n & mask & Hn & Hm & Hk).
  destruct (Hk _ Ha) as [Hl _].
  apply drop_where_mask in Hm as [-> _]. rewrite length_keep_mask in Hl.
  assert (n = length bs) as -> by congruence. clear Hk Hl.
  destruct (drop_element_kept _ _ _ _ Hu Hd name Hs Hp)
    as (n' & mask' & Hn' & Hm' & Hk').
  destruct (Hk' _ Hget) as [_ ->].
  apply drop_where_mask in Hm' as [-> _].
  rewrite Hn in Hn'. injection Hn' as <-. by rewrite keep_mask_np_where_neg.
Qed.

Lemma drop_perimeter_faces_Ok (self g : Graph) :
  drop_perimeter_faces self = Ok g →
  ∃ caf, corners_at_face self = Ok caf ∧
         drop_element (np_where (any_eq (-1) caf)) face (_mesh self) = Ok (_mesh g) ∧
         _perimeter_links g = _perimeter_links self.
Proof.
  unfold drop_perimeter_faces. intros H. apply bind_Ok in H as (ipf & Hipf & H).
  apply is_perimeter_face_Ok in Hipf as (caf & Hcaf & ->).
  apply drop_from_Ok in H as [H Hpl]. eauto.
Qed.

Lemma drop_perimeter_faces_rows (self g : Graph) (caf : list (list Z)) :
  unique_keys (variables (_mesh self)) →
  corners_at_face self = Ok caf →
  drop_perimeter_faces self = Ok g →
  let closed := (λ row : list Z, bool_decide (-1 ∉ row)) <$> caf in
  corners_at_face g = Ok (filter (λ row, -1 ∉ row) caf) ∧
  ∀ name rs, name = "corners_at_face" ∨ name = "nodes_at_face" →
    rows_of (_mesh self) name = Ok rs →
    rows_of (_mesh g) name = Ok (compress closed rs).
Proof.
  intros Hu Hcaf Hd closed.
  apply drop_perimeter_faces_Ok in Hd as (caf' & Hcaf' & Hd & _).
  rewrite Hcaf in Hcaf'. injection Hcaf' as <-.
  change (rows_of (_mesh self) "corners_at_face" = Ok caf) in Hcaf.
  pose proof Hcaf as Hcaf0. apply rows_of_Ok in Hcaf as (d & w & Hget).
  assert (Hrows : ∀ name rs, name = "corners_at_face" ∨ name = "nodes_at_face" →
            rows_of (_mesh self) name = Ok rs →
            rows_of (_mesh g) name = Ok (compress closed rs)).
  { intros name rs Hname Hrs. apply rows_of_Ok in Hrs as (d' & w' & Hget').
    apply rows_of_Ok. exists d', w'.
    rewrite (drop_where_kept _ _ _ _ "corners_at_face" _ Hu Hd Hget eq_refl eq_refl)
      with (var := XVar d' (Ints (NdArray [w'] rs))).
    - simpl. by rewrite closed_rows.
    - unfold any_eq. by rewrite length_fmap.
    - by destruct Hname as [-> | ->].
    - by destruct Hname as [-> | ->].
    - done. }
  split; [|done].
  change (rows_of (_mesh g) "corners_at_face" = Ok (filter (λ row, -1 ∉ row) caf)).
  rewrite <- (compress_filter (λ row : list Z, -1 ∉ row)). apply Hrows; auto.
Qed.

(** [drop_perimeter_faces] keeps, in their order, exactly the faces with no
    sentinel among their corners, and cuts [nodes_at_face] down in step with
    [corners_at_face]: afterwards no face is a perimeter face. *)
Theorem drop_perimeter_faces_spec (self g : Graph) (caf : list (list Z)) :
  unique_keys (variables (_mesh self)) →
  corners_at_face self = Ok caf →
  drop_perimeter_faces self = Ok g →
  corners_at_face g = Ok (filter (λ row, -1 ∉ row) caf) ∧
  (∀ naf, nodes_at_face self = Ok naf →
     nodes_at_face g
     = Ok (compress ((λ row : list Z, bool_decide (-1 ∉ row)) <$> caf) naf)) ∧
  ∃ ipf, is_perimeter_face g = Ok ipf ∧ Forall (λ b, b = false) ipf.
Proof.
  intros Hu Hcaf Hd.
  destruct (drop_perimeter_faces_rows _ _ _ Hu Hcaf Hd) as [Hc Hrows].
  split; [done|]. split.
  - intros naf Hnaf. apply (Hrows "nodes_at_face"); auto.
  - unfold is_perimeter_face. rewrite Hc. simpl. eexists. split; [done|].
    apply any_eq_none, Forall_forall. intros row Hrow.
    by apply list_elem_of_filter in Hrow as [? _].
Qed.

Lemma is_perimeter_cell_Ok (self : Graph) ipc :
  is_perimeter_cell self = Ok ipc →
  ∃ cac ns,
    corners_at_cell self = Ok cac ∧ n_corners_at_cell self = Ok ns ∧
    length (id_array_contains cac ns (-1)) = length ns ∧
    ipc = zip_with orb (id_array_contains cac ns (-1))
                       ((λ k, bool_decide (k < 3)) <$> ns).
Proof.
  unfold is_perimeter_cell. intros H.
  apply bind_Ok in H as (cac & Hcac & H). apply bind_Ok in H as (ns & Hns & H).
  rewrite Hns in H. simpl in H. destruct (decide _) as [Hl|]; [|done].
  injection H as <-. eauto 10.
Qed.

Lemma drop_perimeter_cells_rows (self g : Graph) (ns : list Z) :
  unique_keys (variables (_mesh self)) →
  ds_values (_mesh self) "n_corners_at_cell" = Ok (Ints (array1 ns)) →
  drop_perimeter_cells self = Ok g →
  ∃ cac ipc,
    corners_at_cell self = Ok cac ∧
    length cac = length ns ∧
    is_perimeter_cell self = Ok ipc ∧
    corners_at_cell g = Ok (compress (negb <$> ipc) cac) ∧
    ds_values (_mesh g) "n_corners_at_cell"
    = Ok (Ints (array1 (compress (negb <$> ipc) ns))) ∧
    ∃ ipc', is_perimeter_cell g = Ok ipc' ∧ Forall (λ b, b = false) ipc'.
Proof.
  intros Hu Hns Hd. unfold drop_perimeter_cells in Hd.
  apply bind_Ok in Hd as (ipc & Hipc & Hd). apply drop_from_Ok in Hd as [Hd _].
  pose proof Hipc as Hipc0.
  apply is_perimeter_cell_Ok in Hipc as (cac & ns' & Hcac & Hns' & Hlen & Hipc).
  assert (ns' = ns) as ->.
  { unfold n_corners_at_cell in Hns'. rewrite Hns in Hns'. simpl in Hns'.
    injection Hns' as <-. by rewrite concat_singletons. }
  assert (Hlipc : length ipc = length ns).
  { rewrite Hipc, length_zip_with, Hlen, length_fmap. lia. }
  apply ds_values_Ok in Hns as (nvar & Hnget & Hndata). symmetry in Hndata.
  change (rows_of (_mesh self) "corners_at_cell" = Ok cac) in Hcac.
  pose proof Hcac as Hcac0. apply rows_of_Ok in Hcac as (d & w & Hcget).
  assert (Hkept : ∀ name var,
            suffix_search cell name = true → prefix_search cell name = false →
            dict_get name (variables (_mesh self)) = Some var →
            dict_get name (variables (_mesh g))
            = Some (XVar (dims var) (compress_values (negb <$> ipc) (data var)))).
  { apply (drop_where_kept _ _ _ _ "n_corners_at_cell" nvar Hu Hd Hnget eq_refl eq_refl).
    rewrite Hndata. simpl. by rewrite length_fmap. }
  assert (Hlc : length cac = length ns).
  { destruct (drop_element_kept _ _ _ _ Hu Hd "corners_at_cell" eq_refl eq_refl)
      as (n & mask & Hn & Hm & Hk).
    destruct (Hk _ Hcget) as [Hl1 _].
    destruct (drop_element_kept _ _ _ _ Hu Hd "n_corners_at_cell" eq_refl eq_refl)
      as (n' & mask' & Hn' & Hm' & Hk').
    rewrite Hn in Hn'. injection Hn' as <-.
    destruct (Hk' _ Hnget) as [Hl2 _]. rewrite Hndata in Hl2. simpl in Hl1, Hl2.
    apply drop_where_mask in Hm as [-> _]. apply drop_where_mask in Hm' as [-> _].
    rewrite length_keep_mask in Hl1, Hl2. rewrite length_fmap in Hl2. congruence. }
  assert (Hcac' : corners_at_cell g = Ok (compress (negb <$> ipc) cac)).
  { change (rows_of (_mesh g) "corners_at_cell" = Ok (compress (negb <$> ipc) cac)).
    apply rows_of_Ok. exists d, w. by rewrite (Hkept "corners_at_cell" _ eq_refl eq_refl Hcget). }
  assert (Hns'' : ds_values (_mesh g) "n_corners_at_cell"
                  = Ok (Ints (array1 (compress (negb <$> ipc) ns)))).
  { unfold ds_values. rewrite (Hkept "n_corners_at_cell" _ eq_refl eq_refl Hnget). simpl.
    rewrite Hndata. simpl. unfold array1. by rewrite compress_fmap. }
  exists cac, ipc. split_and!; [done..|].
  unfold is_perimeter_cell, n_corners_at_cell. rewrite Hcac', Hns''. simpl.
  rewrite concat_singletons.
  assert (Hiac : id_array_contains (compress (negb <$> ipc) cac)
                   (compress (negb <$> ipc) ns) (-1)
                 = compress (negb <$> ipc) (id_array_contains cac ns (-1)))
    by (unfold id_array_contains; by rewrite compress_zip_with).
  rewrite Hiac, decide_True by (by apply length_compress_eq).
  eexists. split; [done|].
  rewrite <- compress_fmap, <- compress_zip_with, <- Hipc. apply compress_negb.
Qed.

(** [drop_perimeter_cells] keeps, in their order, exactly the cells that
    [is_perimeter_cell] does not mark, in [corners_at_cell] and in
    [n_corners_at_cell] alike: afterwards no cell is a perimeter cell. *)
Theorem drop_perimeter_cells_spec (self g : Graph) (ns : list Z) :
  unique_keys (variables (_mesh self)) →
  ds_values (_mesh self) "n_corners_at_cell" = Ok (Ints (array1 ns)) →
  drop_perimeter_cells self = Ok g →
  ∃ cac ipc,
    corners_at_cell self = Ok cac ∧
    is_perimeter_cell self = Ok ipc ∧
    corners_at_cell g = Ok (compress (negb <$> ipc) cac) ∧
    n_corners_at_cell g = Ok (compress (negb <$> ipc) ns) ∧
    ∃ ipc', is_perimeter_cell g = Ok ipc' ∧ Forall (λ b, b = false) ipc'.
Proof.
  intros Hu Hns Hd.
  destruct (drop_perimeter_cells_rows _ _ _ Hu Hns Hd)
    as (cac & ipc & Hcac & _ & Hipc & Hcac' & Hns' & Hnone).
  exists cac, ipc. split_and!; [done..| |done].
  unfold n_corners_at_cell. rewrite Hns'. simpl. by rewrite concat_singletons.
Qed.

(** * What the reduction leaves behind *)

Lemma compress_sublist {X} (m : list bool) (xs : list X) : compress m xs `sublist_of` xs.
Proof.
  revert xs. induction m as [|b m IH]; intros [|x xs]; simpl;
    try apply sublist_nil_l.
  destruct b; [by apply sublist_skip|by apply sublist_cons].
Qed.

Lemma drop_perimeter_cells_Ok (self g : Graph) :
  drop_perimeter_cells self = Ok g →
  ∃ ipc, is_perimeter_cell self = Ok ipc ∧
         drop_element (np_where ipc) cell (_mesh self) = Ok (_mesh g) ∧
         _perimeter_links g = _perimeter_links self.
Proof.
  unfold drop_perimeter_cells. intros H. apply bind_Ok in H as (ipc & Hipc & H).
  apply drop_from_Ok in H as [H Hpl]. eauto.
Qed.

Lemma drop_corners_steps (corners : list Z) (self g : Graph) :
  drop_corners corners self = Ok g →
  ∃ ids2 ids3 m1 m2,
    drop_element corners corner (_mesh self) = Ok m1 ∧
    drop_element ids2 link m1 = Ok m2 ∧
    drop_element ids3 patch m2 = Ok (_mesh g) ∧
    _perimeter_links g = _perimeter_links self.
Proof.
  unfold drop_corners. intros H.
  apply bind_Ok in H as (g1 & Hg1 & H). apply drop_from_Ok in Hg1 as [Hg1 Hp1].
  apply bind_Ok in H as (? & _ & H). apply bind_Ok in H as (? & _ & H).
  apply bind_Ok in H as (g2 & Hg2 & H). apply drop_from_Ok in Hg2 as [Hg2 Hp2].
  apply bind_Ok in H as (? & _ & H). apply bind_Ok in H as (? & _ & H).
  apply drop_from_Ok in H as [Hg3 Hp3].
  do 4 eexists. split_and!; [done..|congruence].
Qed.

Section reduction_steps.
Variable pair_isin_sorted_list :
  list (list Z) → list (list Z) → list Z → result (list bool).

Lemma reduce_steps (self g : Graph) :
  reduce pair_isin_sorted_list self = Ok g →
  ∃ corners g1 g2,
    unbound_corners pair_isin_sorted_list self = Ok corners ∧
    drop_corners corners self = Ok g1 ∧
    drop_perimeter_faces g1 = Ok g2 ∧
    drop_perimeter_cells g2 = Ok g.
Proof.
  unfold reduce. intros H.
  apply bind_Ok in H as (corners & Hc & H).
  apply bind_Ok in H as (g1 & Hg1 & H).
  apply bind_Ok in H as (g2 & Hg2 & H). eauto 10.
Qed.

End reduction_steps.

(** A variable that the naming convention ties to none of the three kinds
    that [drop_corners] removes elements of. *)
Lemma drop_corners_frame (corners : list Z) (self g : Graph) name :
  unique_keys (variables (_mesh self)) →
  drop_corners corners self = Ok g →
  (∀ k, k = corner ∨ k = link ∨ k = patch →
     suffix_search k name = false ∧ prefix_search k name = false ∧
     name ≠ x_of k ∧ name ≠ y_of k ∧ name ≠ kind_name k) →
  unique_keys (variables (_mesh g)) ∧
  dict_get name (variables (_mesh g)) = dict_get name (variables (_mesh self)).
Proof.
  intros Hu Hd Hname.
  apply drop_corners_steps in Hd as (ids2 & ids3 & m1 & m2 & H1 & H2 & H3 & _).
  pose proof (drop_element_unique _ _ _ _ Hu H1) as Hu1.
  pose proof (drop_element_unique _ _ _ _ Hu1 H2) as Hu2.
  pose proof (drop_element_unique _ _ _ _ Hu2 H3) as Hu3.
  split; [done|].
  destruct (Hname corner) as (? & ? & ? & ? & ?); [auto|].
  destruct (Hname link) as (? & ? & ? & ? & ?); [auto|].
  destruct (Hname patch) as (? & ? & ? & ? & ?); [auto|].
  rewrite (drop_element_frame _ _ _ _ Hu2 H3) by done.
  rewrite (drop_element_frame _ _ _ _ Hu1 H2) by done.
  by rewrite (drop_element_frame _ _ _ _ Hu H1) by done.
Qed.

Lemma drop_corners_unique (corners : list Z) (self g : Graph) :
  unique_keys (variables (_mesh self)) →
  drop_corners corners self = Ok g →
  unique_keys (variables (_mesh g)).
Proof.
  intros Hu Hd.
  apply drop_corners_steps in Hd as (ids2 & ids3 & m1 & m2 & H1 & H2 & H3 & _).
  pose proof (drop_element_unique _ _ _ _ Hu H1) as Hu1.
  pose proof (drop_element_unique _ _ _ _ Hu1 H2) as Hu2.
  by apply (drop_element_unique _ _ _ _ Hu2 H3).
Qed.

Section reduced.
Variable map_sorted_rolling_pairs :
  list (list Z) → list Z → ndarray Z → result (ndarray Z).
Variable pair_isin_sorted_list :
  list (list Z) → list (list Z) → list Z → result (list bool).

(** The graph that the constructor returns has no perimeter face and no
    perimeter cell left: every face has two corners, and every cell at least
    three, none of them the sentinel. *)
Theorem reduced_graph_is_closed (q : Qhull) (perimeter_links : option (list Z))
    (g : Graph) :
  VoronoiDelaunayToGraph map_sorted_rolling_pairs pair_isin_sorted_list
    q perimeter_links = Ok g →
  (∃ ipf, is_perimeter_face g = Ok ipf ∧ Forall (λ b, b = false) ipf) ∧
  (∃ ipc, is_perimeter_cell g = Ok ipc ∧ Forall (λ b, b = false) ipc).
Proof.
  unfold VoronoiDelaunayToGraph. intros H.
  apply bind_Ok in H as (self & Hself & H).
  apply assemble_Ok in Hself as (lap & fac & Hvars & _).
  assert (Hu0 : unique_keys (variables (_mesh self)))
    by (rewrite Hvars; apply assembled_unique).
  apply reduce_steps in H as (corners & g1 & g2 & _ & Hg1 & Hg2 & Hg).
  destruct (drop_corners_frame _ _ _ "n_corners_at_cell" Hu0 Hg1) as [Hu1 Hn1].
  { intros k [->|[->| ->]]; done. }
  pose proof Hg2 as Hg2'.
  apply drop_perimeter_faces_Ok in Hg2' as (caf & Hcaf & Hd2 & _).
  pose proof (drop_element_unique _ _ _ _ Hu1 Hd2) as Hu2.
  destruct (drop_perimeter_faces_rows _ _ _ Hu1 Hcaf Hg2) as [Hcaf2 _].
  pose proof Hg as Hg'.
  apply drop_perimeter_cells_Ok in Hg' as (ipc & _ & Hd3 & _).
  split.
  - unfold is_perimeter_face, corners_at_face, ds_values.
    rewrite (drop_element_frame _ _ _ _ Hu2 Hd3) by done.
    unfold corners_at_face, ds_values in Hcaf2. rewrite Hcaf2. simpl.
    eexists. split; [done|]. apply any_eq_none, Forall_forall. intros row Hrow.
    by apply list_elem_of_filter in Hrow as [? _].
  - assert (Hns : ds_values (_mesh g2) "n_corners_at_cell"
                  = Ok (Ints (array1 ((λ cell, Z.of_nat (length cell)) <$> regions q)))).
    { unfold ds_values.
      rewrite (drop_element_frame _ _ _ _ Hu1 Hd2) by done.
      rewrite Hn1, Hvars. reflexivity. }
    destruct (drop_perimeter_cells_rows _ _ _ Hu2 Hns Hg)
      as (? & ? & _ & _ & _ & _ & _ & Hnone).
    done.
Qed.

(** The reduction removes no node: the coordinates and the ids of the nodes
    are those of the input points, in their order, and what is left of
    [nodes_at_link], [nodes_at_face] and [nodes_at_patch] are rows of the
    ridge points and of the simplices of the triangulation, unchanged and in
    their order. *)
Theorem reduction_keeps_nodes (q : Qhull) (perimeter_links : option (list Z))
    (g : Graph) :
  VoronoiDelaunayToGraph map_sorted_rolling_pairs pair_isin_sorted_list
    q perimeter_links = Ok g →
  x_of_node g = Ok (Floats (array1 (fst <$> points q))) ∧
  y_of_node g = Ok (Floats (array1 (snd <$> points q))) ∧
  elems_of (_mesh g) "node" = Ok (arange (length (points q))) ∧
  (∃ nal, nodes_at_link g = Ok nal ∧ nal `sublist_of` (pair_row <$> ridge_points q)) ∧
  (∃ naf, nodes_at_face g = Ok naf ∧ naf `sublist_of` (pair_row <$> ridge_points q)) ∧
  (∃ nap, nodes_at_patch g = Ok nap ∧ nap `sublist_of` (triple_row <$> simplices q)).
Proof.
  unfold VoronoiDelaunayToGraph. intros H.
  apply bind_Ok in H as (self & Hself & H).
  apply assemble_Ok in Hself as (lap & fac & Hvars & _).
  apply reduce_Ok in H
    as (ids1 & ids2 & ids3 & ids4 & ipc & m1 & m2 & m3 & m4 &
        H1 & H2 & H3 & H4 & _ & H5).
  assert (Hu0 : unique_keys (variables (_mesh self)))
    by (rewrite Hvars; apply assembled_unique).
  pose proof (drop_element_unique _ _ _ _ Hu0 H1) as Hu1.
  pose proof (drop_element_unique _ _ _ _ Hu1 H2) as Hu2.
  pose proof (drop_element_unique _ _ _ _ Hu2 H3) as Hu3.
  pose proof (drop_element_unique _ _ _ _ Hu3 H4) as Hu4.
  assert (Hframe : ∀ name,
    (∀ k, k ≠ node → suffix_search k name = false ∧ prefix_search k name = false ∧
                     name ≠ x_of k ∧ name ≠ y_of k ∧ name ≠ kind_name k) →
    dict_get name (variables (_mesh g)) = dict_get name (variables (_mesh self))).
  { intros name Hname.
    destruct (Hname corner) as (? & ? & ? & ? & ?); [done|].
    destruct (Hname link) as (? & ? & ? & ? & ?); [done|].
    destruct (Hname patch) as (? & ? & ? & ? & ?); [done|].
    destruct (Hname face) as (? & ? & ? & ? & ?); [done|].
    destruct (Hname cell) as (? & ? & ? & ? & ?); [done|].
    rewrite (drop_element_frame _ _ _ _ Hu4 H5) by done.
    rewrite (drop_element_frame _ _ _ _ Hu3 H4) by done.
    rewrite (drop_element_frame _ _ _ _ Hu2 H3) by done.
    rewrite (drop_element_frame _ _ _ _ Hu1 H2) by done.
    by rewrite (drop_element_frame _ _ _ _ Hu0 H1) by done. }
  split_and!.
  - unfold x_of_node, ds_values. rewrite Hframe, Hvars; [done|].
    intros k Hk. by destruct k.
  - unfold y_of_node, ds_values. rewrite Hframe, Hvars; [done|].
    intros k Hk. by destruct k.
  - unfold elems_of, ds_values. rewrite Hframe, Hvars.
    + simpl. by rewrite concat_singletons.
    + intros k Hk. by destruct k.
  - (* cut down when the links are dropped *)
    destruct (drop_element_kept _ _ _ _ Hu1 H2 "nodes_at_link")
      as (n & mask & _ & _ & Hk); [done..|].
    destruct (Hk (XVar ["link"; "Two"] (Ints (array2 2 (pair_row <$> ridge_points q)))))
      as [_ Hget].
    { rewrite (drop_element_frame _ _ _ _ Hu0 H1) by done. by rewrite Hvars. }
    eexists. split; [|apply (compress_sublist mask)].
    unfold nodes_at_link, ds_values.
    rewrite (drop_element_frame _ _ _ _ Hu4 H5) by done.
    rewrite (drop_element_frame _ _ _ _ Hu3 H4) by done.
    rewrite (drop_element_frame _ _ _ _ Hu2 H3) by done.
    by rewrite Hget.
  - (* cut down when the faces are dropped *)
    destruct (drop_element_kept _ _ _ _ Hu3 H4 "nodes_at_face")
      as (n & mask & _ & _ & Hk); [done..|].
    destruct (Hk (XVar ["face"; "Two"] (Ints (array2 2 (pair_row <$> ridge_points q)))))
      as [_ Hget].
    { rewrite (drop_element_frame _ _ _ _ Hu2 H3) by done.
      rewrite (drop_element_frame _ _ _ _ Hu1 H2) by done.
      rewrite (drop_element_frame _ _ _ _ Hu0 H1) by done. by rewrite Hvars. }
    eexists. split; [|apply (compress_sublist mask)].
    unfold nodes_at_face, ds_values.
    rewrite (drop_element_frame _ _ _ _ Hu4 H5) by done.
    by rewrite Hget.
  - (* cut down when the patches are dropped *)
    destruct (drop_element_kept _ _ _ _ Hu2 H3 "nodes_at_patch")
      as (n & mask & _ & _ & Hk); [done..|].
    destruct (Hk (XVar ["patch"; "Three"] (Ints (array2 3 (triple_row <$> simplices q)))))
      as [_ Hget].
    { rewrite (drop_element_frame _ _ _ _ Hu1 H2) by done.
      rewrite (drop_element_frame _ _ _ _ Hu0 H1) by done. by rewrite Hvars. }
    eexists. split; [|apply (compress_sublist mask)].
    unfold nodes_at_patch, ds_values.
    rewrite (drop_element_frame _ _ _ _ Hu4 H5) by done.
    rewrite (drop_element_frame _ _ _ _ Hu3 H4) by done.
    by rewrite Hget.
Qed.

End reduced.

(** * The perimeter links as pairs *)

Lemma reshape_pairs_cases (flat : list Z) :
  (∀ ps, reshape_pairs flat = Ok ps →
         concat ps = flat ∧ Forall (λ p : list Z, length p = 2%nat) ps) ∧
  (Nat.Odd (length flat) → reshape_pairs flat = Raise ValueError) ∧
  (Nat.Even (length flat) → is_ok (reshape_pairs flat)).
Proof.
  assert (H : ∀ n (flat : list Z), (length flat < n)%nat →
    (∀ ps, reshape_pairs flat = Ok ps →
           concat ps = flat ∧ Forall (λ p : list Z, length p = 2%nat) ps) ∧
    (Nat.Odd (length flat) → reshape_pairs flat = Raise ValueError) ∧
    (Nat.Even (length flat) → is_ok (reshape_pairs flat))).
  { clear flat. induction n as [|n IH]; intros flat Hn; [lia|].
    destruct flat as [|a [|b flat]].
    - split_and!.
      + intros ps [= <-]. by split.
      + intros [k Hk]. simpl in Hk. lia.
      + intros _. by exists [].
    - split_and!; [done|done|]. intros [k Hk]. simpl in Hk. lia.
    - destruct (IH flat) as (Hok & Hodd & Heven); [simpl in Hn; lia|].
      cbn [reshape_pairs]. split_and!.
      + intros ps Hps. apply bind_Ok in Hps as (ps' & Hps' & [= <-]).
        destruct (Hok _ Hps') as [<- Hall]. split; [done|]. by constructor.
      + intros [k Hk]. simpl in Hk. rewrite Hodd; [done|]. exists (k - 1)%nat. lia.
      + intros [k Hk]. simpl in Hk. destruct Heven as [ps' ->]; [exists (k - 1)%nat; lia|].
        by eexists. }
  apply (H (S (length flat))). lia.
Qed.

Section perimeter_pairs.
Variable map_sorted_rolling_pairs :
  list (list Z) → list Z → ndarray Z → result (ndarray Z).
Variable pair_isin_sorted_list :
  list (list Z) → list (list Z) → list Z → result (list bool).

Lemma reduce_perimeter_links (self g : Graph) :
  reduce pair_isin_sorted_list self = Ok g →
  _perimeter_links g = _perimeter_links self.
Proof.
  intros H. apply reduce_steps in H as (corners & g1 & g2 & _ & H1 & H2 & H3).
  apply drop_corners_steps in H1 as (? & ? & ? & ? & _ & _ & _ & Hp1).
  apply drop_perimeter_faces_Ok in H2 as (? & _ & _ & Hp2).
  apply drop_perimeter_cells_Ok in H3 as (? & _ & _ & Hp3). congruence.
Qed.

(** The perimeter links that the constructor is given are kept as rows of
    two node ids, in the order of the flat list; a list of odd length is
    refused with [ValueError] once the mesh of the primitive is built. *)
Theorem perimeter_links_as_pairs (q : Qhull) (flat : list Z) :
  (∀ g, VoronoiDelaunayToGraph map_sorted_rolling_pairs pair_isin_sorted_list
          q (Some flat) = Ok g →
        ∃ ps, _perimeter_links g = Assigned (Some ps) ∧
              concat ps = flat ∧ Forall (λ p : list Z, length p = 2%nat) ps) ∧
  (Nat.Odd (length flat) → is_ok (VoronoiDelaunay q) →
     VoronoiDelaunayToGraph map_sorted_rolling_pairs pair_isin_sorted_list
       q (Some flat) = Raise ValueError).
Proof.
  destruct (reshape_pairs_cases flat) as (Hok & Hodd & _). split.
  - unfold VoronoiDelaunayToGraph. intros g H.
    apply bind_Ok in H as (self & Hself & H).
    apply reduce_perimeter_links in H. rewrite H. clear H.
    unfold assemble in Hself.
    apply bind_Ok in Hself as (m0 & _ & Hself).
    apply bind_Ok in Hself as (attr & Hattr & Hself).
    apply bind_Ok in Hattr as (ps & Hps & [= <-]).
    repeat (apply bind_Ok in Hself as (? & _ & Hself)). injection Hself as <-.
    simpl. exists ps. split; [done|]. by apply Hok.
  - intros Ho [mesh Hmesh]. unfold VoronoiDelaunayToGraph, assemble.
    rewrite Hmesh. simpl. by rewrite (Hodd Ho).
Qed.

End perimeter_pairs.

(** * The links sorted for the lookup *)

Lemma key_le_trans : Transitive key_le.
Proof. intros a b c. unfold key_le. lia. Qed.
Lemma key_le_total : Total key_le.
Proof. intros a b. unfold key_le. lia. Qed.

Lemma column0_Ok (rs : list (list Z)) (ks : list Z) :
  column0 rs = Ok ks ↔ Forall2 (λ row k, head row = Some k) rs ks.
Proof.
  unfold column0. rewrite mapR_Ok.
  split; intros H; (eapply Forall2_impl; [exact H|]);
    intros [|x row] k; simpl; congruence.
Qed.

Lemma snd_zip_arange (keys : list Z) :
  (zip keys (arange (length keys))).*2 = arange (length keys).
Proof. apply snd_zip. by rewrite length_arange. Qed.

Lemma argsort_perm (keys : list Z) : argsort keys ≡ₚ arange (length keys).
Proof.
  unfold argsort. rewrite merge_sort_Permutation. by rewrite snd_zip_arange.
Qed.

Lemma argsort_keys (keys : list Z) :
  ∃ S, argsort keys = S.*2 ∧ StronglySorted Z.le S.*1 ∧
       Forall (λ ki, keys !! Z.to_nat ki.2 = Some ki.1 ∧ 0 ≤ ki.2) S.
Proof.
  exists (merge_sort key_le (zip keys (arange (length keys)))). split_and!.
  - done.
  - pose proof key_le_trans as Htrans. pose proof key_le_total as Htotal.
    pose proof (StronglySorted_merge_sort key_le (zip keys (arange (length keys)))) as Hs.
    induction Hs as [|x l _ IH Hx]; [constructor|].
    rewrite fmap_cons. constructor; [done|].
    apply Forall_fmap. eapply Forall_impl; [done|]. intros y Hy. exact Hy.
  - apply Forall_forall. intros [k i] Hin.
    rewrite merge_sort_Permutation in Hin.
    apply list_elem_of_lookup in Hin as [j Hj].
    apply lookup_zip_with_Some in Hj as (k' & i' & [= <- <-] & Hk & Hi).
    assert (Hlt : (j < length keys)%nat) by (by eapply lookup_lt_Some).
    rewrite lookup_arange in Hi by done. injection Hi as <-. simpl.
    rewrite Nat2Z.id. split; [done|lia].
Qed.

Section sorted_lookup.
Variable map_sorted_rolling_pairs :
  list (list Z) → list Z → ndarray Z → result (ndarray Z).

(** [_links_at_patch] hands the lookup the links in ascending order of their
    first node, each with the index it has in [nodes_at_link]: the indices
    are a rearrangement of [0..n-1], row [j] of the sorted links is the link
    with the [j]-th index, and the first column of the sorted links
    ascends. *)
Theorem links_at_patch_sorts_links (w : nat) (links : list (list Z)) (pairs : ndarray Z) :
  Forall (λ row : list Z, row ≠ []) links →
  ∃ sorted link_at_nodes keys,
    _links_at_patch map_sorted_rolling_pairs (Ints (NdArray [w] links)) (Ints pairs)
    = map_sorted_rolling_pairs sorted link_at_nodes pairs ∧
    link_at_nodes ≡ₚ arange (length links) ∧
    Forall2 (λ i row, links !! Z.to_nat i = Some row) link_at_nodes sorted ∧
    column0 sorted = Ok keys ∧
    StronglySorted Z.le keys.
Proof.
  intros Hne.
  assert (∃ ks, column0 links = Ok ks) as [ks Hks].
  { induction Hne as [|row links Hrow _ [ks IH]]; [by exists []|].
    destruct row as [|x row]; [done|]. exists (x :: ks).
    unfold column0 in *. cbn [mapR]. simpl. by rewrite IH. }
  pose proof Hks as Hks0. apply column0_Ok in Hks.
  assert (Hlen : length links = length ks) by (by eapply Forall2_length).
  destruct (argsort_keys ks) as (S & Harg & Hsorted & HS).
  assert (Hidx : Forall (λ i, 0 ≤ i < Z.of_nat (length links)) (argsort ks)).
  { apply Forall_forall. intros i Hi. rewrite argsort_perm in Hi.
    apply elem_of_arange in Hi. lia. }
  destruct (take_rows_valid links (argsort ks) Hidx) as (sorted & Hsorted' & Hrows).
  exists sorted, (argsort ks), S.*1.
  unfold _links_at_patch. simpl. rewrite Hks0. simpl. rewrite Hsorted'. simpl.
  split_and!; [done|by rewrite argsort_perm, Hlen|done| |done].
  apply column0_Ok. rewrite Harg in Hrows. clear -Hrows HS Hks.
  revert sorted Hrows. induction HS as [|[k i] S [Hk Hi] _ IH]; intros sorted Hrows.
  - apply Forall2_nil_inv_l in Hrows as ->. constructor.
  - rewrite fmap_cons in Hrows.
    apply Forall2_cons_inv_l in Hrows as (row & sorted' & Hrow & Hrows & ->).
    rewrite fmap_cons. constructor; [|by apply IH]. simpl in *.
    destruct (Forall2_lookup_l _ _ _ _ _ Hks Hrow) as (k' & Hk' & Hhead).
    rewrite Hk in Hk'. by injection Hk' as <-.
Qed.

End sorted_lookup.

(** * The mesh of the primitive *)

Lemma sizes_agree_spec sz :
  sizes_agree sz = true ↔ ∀ dn dm, dn ∈ sz → dm ∈ sz → dn.1 = dm.1 → dn.2 = dm.2.
Proof.
  unfold sizes_agree. rewrite forallb_forall. split.
  - intros H dn dm Hn Hm. apply list_elem_of_In, H in Hn.
    rewrite forallb_forall in Hn. apply list_elem_of_In, Hn in Hm.
    by apply bool_decide_eq_true in Hm.
  - intros H dn Hn. apply forallb_forall. intros dm Hm.
    apply bool_decide_eq_true. apply H; by apply list_elem_of_In.
Qed.

(** The axes have one length each as soon as some table gives, for every
    axis of every variable, its length. *)
Lemma sizes_agree_by (table : list (string * nat)) sz :
  Forall (λ dn, dict_get dn.1 table = Some dn.2) sz → sizes_agree sz = true.
Proof.
  intros H. apply sizes_agree_spec. intros dn dm Hn Hm Heq.
  rewrite Forall_forall in H. pose proof (H _ Hn) as H1. pose proof (H _ Hm) as H2.
  rewrite Heq in H1. congruence.
Qed.

Lemma length_corners_at_cell regions :
  length (rows (_corners_at_cell regions)) = length regions.
Proof.
  unfold _corners_at_cell, unravel, jagged_array, jagged_offset, array2. simpl.
  rewrite np_diff_offsets, length_zip_with, length_fmap.
  assert (H : ∀ s, length (jagged_offset_from s regions) = S (length regions)).
  { induction regions as [|r rs IH]; intros s; simpl; [done|]. by rewrite IH. }
  rewrite H. lia.
Qed.

(** [VoronoiDelaunay] goes through exactly when the primitive gives one
    region per point and one pair of vertices per ridge; otherwise the
    dataset refuses the arrays with [ValueError].  In the mesh, only the
    nodes and the corners have coordinates and ids; the links and the faces
    start from the same pairs of nodes, and a cell has as many corners as its
    region lists. *)
Theorem VoronoiDelaunay_spec (q : Qhull) :
  (length (point_region q) = length (points q) →
   length (ridge_vertices q) = length (ridge_points q) →
   ∃ mesh, VoronoiDelaunay q = Ok mesh ∧
     coord_names mesh
     = ["x_of_node"; "y_of_node"; "x_of_corner"; "y_of_corner"; "node"; "corner"] ∧
     rows_of mesh "nodes_at_link" = Ok (pair_row <$> ridge_points q) ∧
     rows_of mesh "nodes_at_face" = Ok (pair_row <$> ridge_points q) ∧
     elems_of mesh "n_corners_at_cell"
     = Ok ((λ cell, Z.of_nat (length cell)) <$> regions q)) ∧
  (length (point_region q) ≠ length (points q) ∨
   length (ridge_vertices q) ≠ length (ridge_points q) →
   VoronoiDelaunay q = Raise ValueError).
Proof.
  unfold VoronoiDelaunay, new_dataset.
  set (other0 := [("node", _); ("corner", _)]).
  set (other1 := [("nodes_at_link", _); _; _; _; _; _; _]).
  assert (H0 : ∃ m0, ds_update other0 (MkDataset [] []) = Ok m0 ∧
     variables m0 =
       [("x_of_node", XVar ["node"] (Floats (array1 (fst <$> points q))));
        ("y_of_node", XVar ["node"] (Floats (array1 (snd <$> points q))));
        ("node", XVar ["node"] (Ints (array1 (arange (length (points q))))));
        ("x_of_corner", XVar ["corner"] (Floats (array1 (fst <$> vertices q))));
        ("y_of_corner", XVar ["corner"] (Floats (array1 (snd <$> vertices q))));
        ("corner", XVar ["corner"] (Ints (array1 (arange (length (vertices q))))))] ∧
     coord_names m0
     = ["x_of_node"; "y_of_node"; "x_of_corner"; "y_of_corner"; "node"; "corner"]).
  { unfold ds_update.
    assert (Hc : consistent (foldl add_dataarray (variables (MkDataset [] [])) other0)
                 = true).
    { unfold consistent. apply andb_true_iff. split; [reflexivity|].
      apply (sizes_agree_by [("node", length (points q));
                             ("corner", length (vertices q))]).
      repeat constructor; simpl;
        by rewrite ?length_fmap, ?length_arange. }
    rewrite Hc. eexists. split; [done|]. split; reflexivity. }
  destruct H0 as (m0 & -> & Hv0 & Hc0). simpl.
  assert (Hv1 : foldl add_dataarray (variables m0) other1 = assembled_prefix q).
  { rewrite Hv0. reflexivity. }
  unfold ds_update. rewrite Hv1. split.
  - intros H1 H2.
    assert (Hc : consistent (assembled_prefix q) = true).
    { unfold consistent. apply andb_true_iff. split; [reflexivity|].
      apply (sizes_agree_by
               [("node", length (points q)); ("corner", length (vertices q));
                ("link", length (ridge_points q)); ("Two", 2%nat);
                ("patch", length (simplices q)); ("Three", 3%nat);
                ("face", length (ridge_points q));
                ("cell", length (regions q));
                ("max_corners_per_cell", max_list (np_diff (jagged_offset (regions q))))]).
      pose proof (length_corners_at_cell (regions q)) as Hcac.
      unfold _corners_at_cell, unravel, array2 in Hcac. simpl in Hcac.
      repeat constructor; simpl;
        rewrite ?length_fmap, ?length_arange, ?Hcac, ?H1, ?H2; done. }
    rewrite Hc. eexists. split; [done|]. split_and!.
    + rewrite Hc0. reflexivity.
    + reflexivity.
    + reflexivity.
    + unfold elems_of. simpl. by rewrite concat_singletons.
  - intros Hne.
    destruct (consistent (assembled_prefix q)) eqn:Hc; [|done]. exfalso.
    apply andb_true_iff in Hc as [_ Hc].
    pose proof (proj1 (sizes_agree_spec _) Hc) as Hs.
    destruct Hne as [Hne|Hne]; apply Hne.
    + symmetry.
      pose proof (Hs ("node", length (points q))
                     ("node", length (point_region q))) as Heq.
      simpl in Heq. rewrite !length_fmap in Heq.
      apply Heq; [| |done];
        repeat first [apply list_elem_of_here | apply list_elem_of_further].
    + pose proof (Hs ("face", length (ridge_vertices q))
                     ("face", length (ridge_points q))) as Heq.
      simpl in Heq. rewrite !length_fmap in Heq.
      apply Heq; [| |done];
        repeat first [apply list_elem_of_here | apply list_elem_of_further].
Qed.

(** * The further theorems at work on the small mesh *)

Lemma is_bound_corner_spec_witness :
  is_bound_corner pair_in_list triangle_open = Ok (keep_mask 3 [2]).
Proof.
  apply (proj1 (is_bound_corner_spec pair_in_list triangle_open 3 [2] eq_refl eq_refl)).
  repeat constructor.
Defined.

Lemma no_unbound_corners_by_default_witness :
  unbound_corners pair_in_list (MkGraph (_mesh triangle_closed) (Assigned None)) = Ok [] ∧
  ∀ n, ds_dim (_mesh triangle_closed) "corner" = Ok n →
       is_bound_corner pair_in_list (MkGraph (_mesh triangle_closed) (Assigned None))
       = Ok (replicate n true).
Proof.
  apply (no_unbound_corners_by_default pair_in_list
           (MkGraph (_mesh triangle_closed) (Assigned None))
           [[-1; 0]; [-1; 1]; [-1; 2]; [0; 2]; [0; 1]; [1; 2]] eq_refl eq_refl).
Defined.

Lemma drop_element_raises_witness :
  drop_element [0] link (MkDataset [] []) = Raise KeyError ∧
  drop_element [1; 7] corner (_mesh triangle_closed) = Raise IndexError.
Proof.
  split.
  - apply (proj1 (drop_element_raises [0] link (MkDataset [] []))).
    intros name var Hin. simpl in Hin. by apply elem_of_nil in Hin.
  - apply (proj2 (drop_element_raises [1; 7] corner (_mesh triangle_closed))
             3%nat eq_refl).
    apply Exists_cons_tl, Exists_cons_hd. simpl. lia.
Defined.

Lemma drop_element_negative_id_witness :
  (∀ name var, dict_get name (variables (_mesh triangle_closed)) = Some var →
     suffix_search corner name = true → prefix_search corner name = false →
     dict_get name
       (variables (from_ok (MkDataset [] [])
                     (drop_element [-1] corner (_mesh triangle_closed))))
     = Some (XVar (dims var)
               (compress_values (keep_mask 3 [-1 + Z.of_nat 3]) (data var)))) ∧
  (∀ name dims a, prefix_search corner name = true →
     dict_get name (variables (_mesh triangle_closed)) = Some (XVar dims (Ints a)) →
     ∃ a', dict_get name
             (variables (from_ok (MkDataset [] [])
                           (drop_element [-1] corner (_mesh triangle_closed))))
           = Some (XVar dims (Ints a')) ∧
           Forall2 (Forall2 (λ v v', 0 ≤ v → v' = v - 1))
             (if suffix_search corner name
              then compress (keep_mask 3 [-1 + Z.of_nat 3]) (rows a) else rows a)
             (rows a')).
Proof.
  assert (Hu : unique_keys (variables (_mesh triangle_closed)))
    by (apply unique_keys_decide; reflexivity).
  assert (Hi : - Z.of_nat 3 ≤ -1 < 0) by (simpl; lia).
  assert (Hd : drop_element [-1] corner (_mesh triangle_closed)
               = Ok (from_ok (MkDataset [] [])
                       (drop_element [-1] corner (_mesh triangle_closed))))
    by (vm_compute; reflexivity).
  exact (drop_element_negative_id (-1) corner (_mesh triangle_closed) _ 3
           Hu eq_refl Hi Hd).
Defined.

Lemma drop_element_repeated_ids_witness :
  (∀ name var, dict_get name (variables (_mesh triangle_closed)) = Some var →
     suffix_search corner name = true →
     ∃ var', dict_get name
               (variables (from_ok (MkDataset [] [])
                             (drop_element [0; 0] corner (_mesh triangle_closed))))
             = Some var' ∧
             values_len (data var') = (3 - length (remove_dups [0; 0]))%nat) ∧
  (∀ name dims a, prefix_search corner name = true →
     dict_get name (variables (_mesh triangle_closed)) = Some (XVar dims (Ints a)) →
     ∃ a', dict_get name
             (variables (from_ok (MkDataset [] [])
                           (drop_element [0; 0] corner (_mesh triangle_closed))))
           = Some (XVar dims (Ints a')) ∧
           Forall2 (Forall2 (λ v v',
               (∀ d, d ∈ [0; 0] → d + Z.of_nat (length [0; 0]) ≤ v) →
               v' = v - Z.of_nat (length [0; 0])))
             (if suffix_search corner name
              then compress (keep_mask 3 [0; 0]) (rows a) else rows a)
             (rows a')).
Proof.
  assert (Hu : unique_keys (variables (_mesh triangle_closed)))
    by (apply unique_keys_decide; reflexivity).
  assert (Hv : Forall (λ i, 0 ≤ i < Z.of_nat 3) [0; 0]).
  { apply Forall_forall. intros i Hi.
    rewrite !elem_of_cons, elem_of_nil in Hi. simpl. lia. }
  assert (Hd : drop_element [0; 0] corner (_mesh triangle_closed)
               = Ok (from_ok (MkDataset [] [])
                       (drop_element [0; 0] corner (_mesh triangle_closed))))
    by (vm_compute; reflexivity).
  exact (drop_element_repeated_ids [0; 0] corner (_mesh triangle_closed) _ 3
           Hu eq_refl Hv Hd).
Defined.

Lemma drop_nothing_witness :
  ds_values (from_ok (MkDataset [] [])
               (drop_element [] corner (_mesh triangle_closed))) "corners_at_face"
  = ds_values (_mesh triangle_closed) "corners_at_face".
Proof.
  assert (Hu : unique_keys (variables (_mesh triangle_closed)))
    by (apply unique_keys_decide; reflexivity).
  assert (Hd : drop_element [] corner (_mesh triangle_closed)
               = Ok (from_ok (MkDataset [] [])
                       (drop_element [] corner (_mesh triangle_closed))))
    by (vm_compute; reflexivity).
  exact (drop_nothing corner (_mesh triangle_closed) _ 3
           Hu eq_refl (λ _, eq_refl) Hd "corners_at_face").
Defined.

Lemma drop_from_leaves_unrelated_witness :
  _perimeter_links (from_ok empty_graph (drop_from [2] corner triangle_open))
  = _perimeter_links triangle_open ∧
  ∀ name, suffix_search corner name = false → prefix_search corner name = false →
    name ∉ [x_of corner; y_of corner; kind_name corner] →
    ds_values (_mesh (from_ok empty_graph (drop_from [2] corner triangle_open))) name
    = ds_values (_mesh triangle_open) name.
Proof.
  assert (Hu : unique_keys (variables (_mesh triangle_open)))
    by (apply unique_keys_decide; reflexivity).
  assert (Hd : drop_from [2] corner triangle_open
               = Ok (from_ok empty_graph (drop_from [2] corner triangle_open)))
    by (vm_compute; reflexivity).
  exact (drop_from_leaves_unrelated [2] corner triangle_open _ Hu Hd).
Defined.

Lemma drop_perimeter_faces_spec_witness :
  corners_at_face (from_ok empty_graph (drop_perimeter_faces triangle_closed))
  = Ok (filter (λ row, -1 ∉ row)
          [[-1; 0]; [-1; 1]; [-1; 2]; [0; 2]; [0; 1]; [1; 2]]) ∧
  (∀ naf, nodes_at_face triangle_closed = Ok naf →
     nodes_at_face (from_ok empty_graph (drop_perimeter_faces triangle_closed))
     = Ok (compress ((λ row : list Z, bool_decide (-1 ∉ row))
                       <$> [[-1; 0]; [-1; 1]; [-1; 2]; [0; 2]; [0; 1]; [1; 2]]) naf)) ∧
  ∃ ipf, is_perimeter_face (from_ok empty_graph (drop_perimeter_faces triangle_closed))
         = Ok ipf ∧ Forall (λ b, b = false) ipf.
Proof.
  assert (Hu : unique_keys (variables (_mesh triangle_closed)))
    by (apply unique_keys_decide; reflexivity).
  assert (Hd : drop_perimeter_faces triangle_closed
               = Ok (from_ok empty_graph (drop_perimeter_faces triangle_closed)))
    by (vm_compute; reflexivity).
  exact (drop_perimeter_faces_spec triangle_closed _
           [[-1; 0]; [-1; 1]; [-1; 2]; [0; 2]; [0; 1]; [1; 2]] Hu eq_refl Hd).
Defined.

Lemma drop_perimeter_cells_spec_witness :
  ∃ cac ipc,
    corners_at_cell triangle_closed = Ok cac ∧
    is_perimeter_cell triangle_closed = Ok ipc ∧
    corners_at_cell (from_ok empty_graph (drop_perimeter_cells triangle_closed))
    = Ok (compress (negb <$> ipc) cac) ∧
    n_corners_at_cell (from_ok empty_graph (drop_perimeter_cells triangle_closed))
    = Ok (compress (negb <$> ipc) [0; 3; 3; 3; 3]) ∧
    ∃ ipc', is_perimeter_cell (from_ok empty_graph (drop_perimeter_cells triangle_closed))
            = Ok ipc' ∧ Forall (λ b, b = false) ipc'.
Proof.
  assert (Hu : unique_keys (variables (_mesh triangle_closed)))
    by (apply unique_keys_decide; reflexivity).
  assert (Hd : drop_perimeter_cells triangle_closed
               = Ok (from_ok empty_graph (drop_perimeter_cells triangle_closed)))
    by (vm_compute; reflexivity).
  exact (drop_perimeter_cells_spec triangle_closed _ [0; 3; 3; 3; 3] Hu eq_refl Hd).
Defined.

Lemma reduced_graph_is_closed_witness :
  (∃ ipf, is_perimeter_face
            (from_ok empty_graph (build triangle_with_centre (Some [0; 1; 1; 2; 2; 0])))
          = Ok ipf ∧ Forall (λ b, b = false) ipf) ∧
  (∃ ipc, is_perimeter_cell
            (from_ok empty_graph (build triangle_with_centre (Some [0; 1; 1; 2; 2; 0])))
          = Ok ipc ∧ Forall (λ b, b = false) ipc).
Proof.
  apply (reduced_graph_is_closed rolling_pairs_lookup pair_in_list
           triangle_with_centre (Some [0; 1; 1; 2; 2; 0])).
  vm_compute. reflexivity.
Defined.

Lemma reduction_keeps_nodes_witness :
  x_of_node (from_ok empty_graph (build triangle_with_centre (Some [0; 1; 1; 2; 2; 0])))
  = Ok (Floats (array1 (fst <$> points triangle_with_centre))) ∧
  y_of_node (from_ok empty_graph (build triangle_with_centre (Some [0; 1; 1; 2; 2; 0])))
  = Ok (Floats (array1 (snd <$> points triangle_with_centre))) ∧
  elems_of (_mesh (from_ok empty_graph
                     (build triangle_with_centre (Some [0; 1; 1; 2; 2; 0])))) "node"
  = Ok (arange (length (points triangle_with_centre))) ∧
  (∃ nal, nodes_at_link (from_ok empty_graph
                           (build triangle_with_centre (Some [0; 1; 1; 2; 2; 0])))
          = Ok nal ∧
          nal `sublist_of` (pair_row <$> ridge_points triangle_with_centre)) ∧
  (∃ naf, nodes_at_face (from_ok empty_graph
                           (build triangle_with_centre (Some [0; 1; 1; 2; 2; 0])))
          = Ok naf ∧
          naf `sublist_of` (pair_row <$> ridge_points triangle_with_centre)) ∧
  (∃ nap, nodes_at_patch (from_ok empty_graph
                            (build triangle_with_centre (Some [0; 1; 1; 2; 2; 0])))
          = Ok nap ∧
          nap `sublist_of` (triple_row <$> simplices triangle_with_centre)).
Proof.
  apply (reduction_keeps_nodes rolling_pairs_lookup pair_in_list
           triangle_with_centre (Some [0; 1; 1; 2; 2; 0])).
  vm_compute. reflexivity.
Defined.

Lemma perimeter_links_as_pairs_witness :
  (∃ ps, _perimeter_links
           (from_ok empty_graph (build triangle_with_centre (Some [0; 1; 1; 2; 2; 0])))
         = Assigned (Some ps) ∧
         concat ps = [0; 1; 1; 2; 2; 0] ∧
         Forall (λ p : list Z, length p = 2%nat) ps) ∧
  build triangle_with_centre (Some [0; 1; 1]) = Raise ValueError.
Proof.
  split.
  - apply (proj1 (perimeter_links_as_pairs rolling_pairs_lookup pair_in_list
                    triangle_with_centre [0; 1; 1; 2; 2; 0])).
    vm_compute. reflexivity.
  - apply (proj2 (perimeter_links_as_pairs rolling_pairs_lookup pair_in_list
                    triangle_with_centre [0; 1; 1])).
    + exists 1%nat. reflexivity.
    + exists (from_ok (MkDataset [] []) (VoronoiDelaunay triangle_with_centre)).
      vm_compute. reflexivity.
Defined.

Lemma links_at_patch_sorts_links_witness :
  ∃ sorted link_at_nodes keys,
    _links_at_patch rolling_pairs_lookup
      (Ints (NdArray [2%nat] [[1; 2]; [0; 1]; [0; 2]]))
      (Ints (NdArray [3%nat] [[0; 1; 2]]))
    = rolling_pairs_lookup sorted link_at_nodes (NdArray [3%nat] [[0; 1; 2]]) ∧
    link_at_nodes ≡ₚ arange (length [[1; 2]; [0; 1]; [0; 2]]) ∧
    Forall2 (λ i row, [[1; 2]; [0; 1]; [0; 2]] !! Z.to_nat i = Some row)
            link_at_nodes sorted ∧
    column0 sorted = Ok keys ∧
    StronglySorted Z.le keys.
Proof.
  apply (links_at_patch_sorts_links rolling_pairs_lookup 2
           [[1; 2]; [0; 1]; [0; 2]] (NdArray [3%nat] [[0; 1; 2]])).
  repeat constructor; discriminate.
Defined.

Lemma VoronoiDelaunay_spec_witness :
  ∃ mesh, VoronoiDelaunay triangle_with_centre = Ok mesh ∧
    coord_names mesh
    = ["x_of_node"; "y_of_node"; "x_of_corner"; "y_of_corner"; "node"; "corner"] ∧
    rows_of mesh "nodes_at_link" = Ok (pair_row <$> ridge_points triangle_with_centre) ∧
    rows_of mesh "nodes_at_face" = Ok (pair_row <$> ridge_points triangle_with_centre) ∧
    elems_of mesh "n_corners_at_cell"
    = Ok ((λ cell, Z.of_nat (length cell)) <$> regions triangle_with_centre).
Proof.
  apply (proj1 (VoronoiDelaunay_spec triangle_with_centre)); reflexivity.
Defined.

(** * The patches that the reduction keeps *)

Lemma drop_corners_patches (corners : list Z) (self g : Graph) :
  unique_keys (variables (_mesh self)) →
  drop_corners corners self = Ok g →
  unique_keys (variables (_mesh g)) ∧
  ∃ lap, links_at_patch g = Ok lap ∧ Forall (Forall (λ l, 0 ≤ l)) lap.
Proof.
  intros Hu Hd. split; [by eapply drop_corners_unique|].
  unfold drop_corners in Hd.
  apply bind_Ok in Hd as (g1 & Hg1 & Hd).
  apply bind_Ok in Hd as (v1 & _ & Hd). apply bind_Ok in Hd as (caf & _ & Hd).
  apply bind_Ok in Hd as (g2 & Hg2 & Hd).
  apply bind_Ok in Hd as (v2 & Hv2 & Hd). apply bind_Ok in Hd as (lap & Hlap & Hg3).
  apply drop_from_Ok in Hg1 as [Hg1 _]. apply drop_from_Ok in Hg2 as [Hg2 _].
  apply drop_from_Ok in Hg3 as [Hg3 _].
  pose proof (drop_element_unique _ _ _ _ Hu Hg1) as Hu1.
  pose proof (drop_element_unique _ _ _ _ Hu1 Hg2) as Hu2.
  assert (Hlap2 : rows_of (_mesh g2) "links_at_patch" = Ok lap)
    by (unfold rows_of; by rewrite Hv2).
  apply rows_of_Ok in Hlap2 as (d' & w' & Hgetl).
  destruct (drop_element_kept _ _ _ _ Hu2 Hg3 "links_at_patch")
    as (n3 & mask3 & Hn3 & Hm3 & Hk3); [done..|].
  destruct (Hk3 _ Hgetl) as [Hl3 Hget3]. simpl in Hl3, Hget3.
  apply drop_where_mask in Hm3 as [-> _]. rewrite length_keep_mask in Hl3. subst n3.
  rewrite (keep_mask_np_where' _ lap : keep_mask (length lap)
            (np_where (negb <$> all_ge0 lap)) = all_ge0 lap) in Hget3.
  exists (compress (all_ge0 lap) lap). split; [|apply compress_all_ge0].
  change (rows_of (_mesh g) "links_at_patch" = Ok (compress (all_ge0 lap) lap)).
  apply rows_of_Ok. eauto.
Qed.

Section reduced_patches.
Variable map_sorted_rolling_pairs :
  list (list Z) → list Z → ndarray Z → result (ndarray Z).
Variable pair_isin_sorted_list :
  list (list Z) → list (list Z) → list Z → result (list bool).

(** In the graph that the constructor returns, every patch has its three
    links: no entry of [links_at_patch] is the sentinel. *)
Theorem reduced_patches_have_links (q : Qhull) (perimeter_links : option (list Z))
    (g : Graph) :
  VoronoiDelaunayToGraph map_sorted_rolling_pairs pair_isin_sorted_list
    q perimeter_links = Ok g →
  ∃ lap, links_at_patch g = Ok lap ∧ Forall (Forall (λ l, 0 ≤ l)) lap.
Proof.
  unfold VoronoiDelaunayToGraph. intros H.
  apply bind_Ok in H as (self & Hself & H).
  apply assemble_Ok in Hself as (lap0 & fac & Hvars & _).
  assert (Hu0 : unique_keys (variables (_mesh self)))
    by (rewrite Hvars; apply assembled_unique).
  apply reduce_steps in H as (corners & g1 & g2 & _ & Hg1 & Hg2 & Hg).
  destruct (drop_corners_patches _ _ _ Hu0 Hg1) as (Hu1 & lap & Hlap & Hpos).
  apply drop_perimeter_faces_Ok in Hg2 as (caf & _ & Hd2 & _).
  pose proof (drop_element_unique _ _ _ _ Hu1 Hd2) as Hu2.
  apply drop_perimeter_cells_Ok in Hg as (ipc & _ & Hd3 & _).
  exists lap. split; [|done].
  unfold links_at_patch, ds_values in *.
  rewrite (drop_element_frame _ _ _ _ Hu2 Hd3) by done.
  by rewrite (drop_element_frame _ _ _ _ Hu1 Hd2) by done.
Qed.

End reduced_patches.

Lemma reduced_patches_have_links_witness :
  ∃ lap, links_at_patch (from_ok empty_graph
                           (build triangle_with_centre (Some [0; 1; 1; 2; 2; 0])))
         = Ok lap ∧ Forall (Forall (λ l, 0 ≤ l)) lap.
Proof.
  apply (reduced_patches_have_links rolling_pairs_lookup pair_in_list
           triangle_with_centre (Some [0; 1; 1; 2; 2; 0])).
  vm_compute. reflexivity.
Defined.

(** * Links and faces before the reduction *)

Section aligned.
Variable map_sorted_rolling_pairs :
  list (list Z) → list Z → ndarray Z → result (ndarray Z).
Variable pair_isin_sorted_list :
  list (list Z) → list (list Z) → list Z → result (list bool).

(** In the mesh that the constructor has assembled, before it removes
    anything, link [i] and face [i] come from the same ridge of the
    primitive: as long as [pair_isin_sorted_list] answers with one entry per
    pair it is asked about, the perimeter-link classification has one entry
    per face, the number of ridges. *)
Theorem classifications_aligned_before_reduction (q : Qhull)
    (perimeter_links : option (list Z)) (self : Graph) (ipf ipl : list bool) :
  (∀ src pairs sorter r,
     pair_isin_sorted_list src pairs sorter = Ok r → length r = length pairs) →
  assemble map_sorted_rolling_pairs q perimeter_links = Ok self →
  is_perimeter_face self = Ok ipf →
  is_perimeter_link pair_isin_sorted_list self = Ok ipl →
  length ipl = length ipf ∧ length ipf = length (ridge_vertices q).
Proof.
  intros Hlen Hself Hipf Hipl.
  apply assemble_Ok in Hself as (lap & fac & Hvars & Hc).
  assert (Hcaf : dict_get "corners_at_face" (variables (_mesh self))
     = Some (XVar ["face"; "Two"] (Ints (array2 2 (pair_row <$> ridge_vertices q)))))
    by (by rewrite Hvars).
  assert (Hnaf : dict_get "nodes_at_face" (variables (_mesh self))
     = Some (XVar ["face"; "Two"] (Ints (array2 2 (pair_row <$> ridge_points q)))))
    by (by rewrite Hvars).
  assert (Hnal : nodes_at_link self = Ok (pair_row <$> ridge_points q))
    by (unfold nodes_at_link, ds_values; by rewrite Hvars).
  assert (Hridges : length (ridge_points q) = length (ridge_vertices q)).
  { pose proof (consistent_ds_dim _ _ _ _ _ Hc Hcaf) as H1.
    pose proof (consistent_ds_dim _ _ _ _ _ Hc Hnaf) as H2.
    rewrite H1 in H2. simpl in H2. rewrite !length_fmap in H2. congruence. }
  assert (Hf : length ipf = length (ridge_vertices q)).
  { unfold is_perimeter_face, corners_at_face, ds_values in Hipf.
    rewrite Hcaf in Hipf. simpl in Hipf. injection Hipf as <-.
    unfold any_eq. by rewrite !length_fmap. }
  split; [|done]. rewrite Hf.
  unfold is_perimeter_link in Hipl.
  destruct (_perimeter_links self) as [|[pl|]]; [done| |].
  - rewrite Hnal in Hipl. simpl in Hipl.
    apply bind_Ok in Hipl as (keys & _ & Hipl).
    apply Hlen in Hipl. rewrite Hipl, length_fmap. done.
  - rewrite Hipf in Hipl. injection Hipl as <-. done.
Qed.

End aligned.

Lemma pair_in_list_length (src pairs : list (list Z)) (sorter : list Z) (r : list bool) :
  pair_in_list src pairs sorter = Ok r → length r = length pairs.
Proof. unfold pair_in_list. intros [= <-]. by rewrite length_fmap. Qed.

Lemma classifications_aligned_before_reduction_witness :
  length [true; true; false; false; false; false]
  = length [true; true; true; false; false; false] ∧
  length [true; true; true; false; false; false]
  = length (ridge_vertices triangle_with_centre).
Proof.
  apply (classifications_aligned_before_reduction rolling_pairs_lookup pair_in_list
           triangle_with_centre (Some [0; 1; 1; 2]) triangle_open
           [true; true; true; false; false; false]
           [true; true; false; false; false; false]
           pair_in_list_length); vm_compute; reflexivity.
Defined.
